(** * Blu-Edge-Codex: a shallow embedding of the document-analysis utilities

    The development follows the TypeScript sources:
    - [src/utils/documentProcessing.ts]: chunk cache, semantic search,
      numeric extraction, context truncation, multi-document RAG;
    - [src/utils/councilTaxAnalysis.ts]: council-tax comparison;
    - [src/utils/analysisEngine.ts]: markdown tables;
    - [src/utils/geminiClient.ts]: the Gemini client;
    - [utils/dataAnalysis]: the comparison of two groups;
    - [src/app/api/*/route.ts]: the HTTP handlers;
    - [prisma/schema.prisma]: the relational store.

    JavaScript strings are sequences of UTF-16 code units, numbers are IEEE-754
    binary64 values (the kernel's primitive floats), exceptions are an explicit
    result type, and calls to external services are oracles whose invocations
    are recorded in a trace. *)

From stdpp Require Import base option list gmap.
From Stdlib Require Import ZArith NArith Lia Bool String Ascii List Sorted Permutation.
From Stdlib Require Import Floats.
Import ListNotations.

#[local] Open Scope Z_scope.

(* ===================================================================== *)
(** * Part I: the model                                                   *)
(* ===================================================================== *)

(** ** JavaScript strings *)
Module JS.

(** A string is the list of its UTF-16 code units. *)
Abbreviation jsstring := (list N).

(** ASCII literals. *)
Definition js (s : string) : jsstring :=
  List.map N_of_ascii (list_ascii_of_string s).

Definition POUND : N := 163%N.    (* U+00A3 *)
Definition EURO : N := 8364%N.    (* U+20AC *)
Definition DOLLAR : N := 36%N.
Definition QUOTE : N := 34%N.
Definition NL : N := 10%N.

Definition str_eqb (s t : jsstring) : bool :=
  bool_decide (s = t).

Fixpoint startsWith (s t : jsstring) : bool :=
  match t, s with
  | [], _ => true
  | _ :: _, [] => false
  | b :: t', a :: s' => N.eqb a b && startsWith s' t'
  end.

(** [String.prototype.indexOf]: offset of the first occurrence, [-1] if none. *)
Fixpoint indexOf_from (s t : jsstring) (i : Z) : Z :=
  if startsWith s t then i
  else match s with
       | [] => -1
       | _ :: s' => indexOf_from s' t (i + 1)
       end.

Definition indexOf (s t : jsstring) : Z := indexOf_from s t 0.

Definition includes (s t : jsstring) : bool :=
  negb (indexOf s t =? -1).

Definition endsWith (s t : jsstring) : bool :=
  startsWith (rev s) (rev t).

Definition len (s : jsstring) : Z := Z.of_nat (length s).

(** [String.prototype.substring(start, end)]: both arguments are clamped to
    [0 .. length] and swapped when out of order. *)
Definition substring (s : jsstring) (start stop : Z) : jsstring :=
  let a := Z.min (Z.max start 0) (len s) in
  let b := Z.min (Z.max stop 0) (len s) in
  let lo := Z.min a b in
  let hi := Z.max a b in
  firstn (Z.to_nat (hi - lo)) (skipn (Z.to_nat lo) s).

(** [String.prototype.slice(start, end)]: negative arguments count from the
    end; no swapping. *)
Definition slice (s : jsstring) (start stop : Z) : jsstring :=
  let rel x := if x <? 0 then Z.max (len s + x) 0 else Z.min x (len s) in
  let lo := rel start in
  let hi := rel stop in
  firstn (Z.to_nat (hi - lo)) (skipn (Z.to_nat lo) s).

(** ECMAScript [WhiteSpace] and [LineTerminator] code units: the class [\s]
    of regular expressions and the characters removed by [trim]. *)
Definition isWhiteSpace (c : N) : bool :=
  ((9 <=? c) && (c <=? 13) || (c =? 32) || (c =? 160) || (c =? 5760)
   || (8192 <=? c) && (c <=? 8202) || (c =? 8232) || (c =? 8233)
   || (c =? 8239) || (c =? 8287) || (c =? 12288) || (c =? 65279))%N.

Definition isDigit (c : N) : bool := ((48 <=? c) && (c <=? 57))%N.
Definition isUpper (c : N) : bool := ((65 <=? c) && (c <=? 90))%N.
Definition isLower (c : N) : bool := ((97 <=? c) && (c <=? 122))%N.
(** The class [\w]. *)
Definition isWordChar (c : N) : bool :=
  isDigit c || isUpper c || isLower c || (c =? 95)%N.

Fixpoint trimStart (s : jsstring) : jsstring :=
  match s with
  | c :: s' => if isWhiteSpace c then trimStart s' else s
  | [] => []
  end.

Definition trim (s : jsstring) : jsstring :=
  rev (trimStart (rev (trimStart s))).

(** [String.prototype.split(sep)] for a non-empty separator: [cur] holds the
    current piece in reverse; [fuel] bounds the scan by the input length. *)
Fixpoint split_go (fuel : nat) (sep s cur : jsstring) : list jsstring :=
  match fuel with
  | O => [rev cur]
  | S fuel' =>
      match s with
      | [] => [rev cur]
      | c :: s' =>
          if startsWith s sep
          then rev cur :: split_go fuel' sep (skipn (length sep) s) []
          else split_go fuel' sep s' (c :: cur)
      end
  end.

Definition split (s sep : jsstring) : list jsstring :=
  match sep with
  | [] => List.map (fun c => [c]) s
  | _ => split_go (S (length s)) sep s []
  end.

(** [Array.prototype.join]. *)
Fixpoint join (sep : jsstring) (l : list jsstring) : jsstring :=
  match l with
  | [] => []
  | [x] => x
  | x :: l' => x ++ sep ++ join sep l'
  end.

(** ASCII case folding, the instance used in the worked examples; the
    functions below take [toLowerCase] as a parameter because the Unicode case
    tables of the runtime are not part of the repository. *)
Definition asciiLowerChar (c : N) : N := if isUpper c then (c + 32)%N else c.
Definition asciiLowerCase (s : jsstring) : jsstring := List.map asciiLowerChar s.

(** Decimal rendering of an integer, as template literals print counts. *)
Fixpoint digits_go (fuel : nat) (n : N) (acc : jsstring) : jsstring :=
  match fuel with
  | O => acc
  | S fuel' =>
      let acc' := (48 + n mod 10)%N :: acc in
      if (n / 10 =? 0)%N then acc' else digits_go fuel' (n / 10)%N acc'
  end.

Definition ofNat (n : nat) : jsstring :=
  digits_go (S n) (N.of_nat n) [].

(** Outcome of a computation that may throw. *)
Inductive result (E A : Type) : Type :=
| Ok (a : A)
| Throw (e : E).
Arguments Ok {E A} a.
Arguments Throw {E A} e.

(** A thrown value: whether it is an instance of [Error], and its [message]
    property when it has one. *)
Record Thrown : Type := { isError : bool; message : option jsstring }.

(** [new Error(msg)] *)
Definition Error (msg : jsstring) : Thrown :=
  {| isError := true; message := Some msg |}.

(** [e.message && e.message.includes(t)]: an absent or empty message is
    falsy. *)
Definition messageIncludes (e : Thrown) (t : jsstring) : bool :=
  match message e with
  | Some (c :: msg) => includes (c :: msg) t
  | _ => false
  end.

End JS.
Import JS.

(** ** Regular expressions

    A backtracking matcher in continuation-passing style, following the
    ECMAScript pattern semantics for the constructs the sources use: literal
    characters and classes, sequence, ordered alternation, greedy repetition,
    capturing groups and the word-boundary assertion. *)
Module Regex.

Inductive regex : Type :=
| Eps
| Chr (p : N -> bool)
| Seq (r1 r2 : regex)
| Alt (r1 r2 : regex)
| Star (r : regex)
| Group (n : nat) (r : regex)
| WordB.

Definition Lit (c : N) : regex := Chr (N.eqb c).
Definition Opt (r : regex) : regex := Alt r Eps.
Definition Plus (r : regex) : regex := Seq r (Star r).

Fixpoint Str (s : jsstring) : regex :=
  match s with
  | [] => Eps
  | [c] => Lit c
  | c :: s' => Seq (Lit c) (Str s')
  end.

(** Under the flag [i] an ASCII letter of the pattern matches both cases
    (canonicalisation never maps a non-ASCII code unit to an ASCII one). *)
Definition asciiUpperChar (c : N) : N := if isLower c then (c - 32)%N else c.
Definition LitI (c : N) : regex :=
  Chr (fun x => N.eqb (asciiUpperChar x) (asciiUpperChar c)).
Fixpoint StrI (s : jsstring) : regex :=
  match s with
  | [] => Eps
  | [c] => LitI c
  | c :: s' => Seq (LitI c) (StrI s')
  end.

(** Captures: group number to the half-open span it matched last. *)
Definition caps : Type := list (nat * (nat * nat)).

Fixpoint getCap (n : nat) (c : caps) : option (nat * nat) :=
  match c with
  | [] => None
  | (k, sp) :: c' => if Nat.eqb k n then Some sp else getCap n c'
  end.

Definition clearCaps (gs : list nat) (c : caps) : caps :=
  List.filter (fun e => negb (existsb (Nat.eqb (fst e)) gs)) c.

Fixpoint groupsOf (r : regex) : list nat :=
  match r with
  | Seq r1 r2 | Alt r1 r2 => groupsOf r1 ++ groupsOf r2
  | Star r' => groupsOf r'
  | Group n r' => n :: groupsOf r'
  | _ => []
  end.

Section Matcher.
Variable s : jsstring.

Definition wordAt (i : nat) : bool :=
  match nth_error s i with
  | Some c => isWordChar c
  | None => false
  end.

Definition wordBefore (i : nat) : bool :=
  match i with
  | O => false
  | S j => wordAt j
  end.

Definition cont : Type := nat -> caps -> option (nat * caps).

(** [m r i c k]: match [r] at offset [i] with captures [c], then continue
    with [k]; [None] is failure and triggers backtracking in the caller.
    An iteration of [Star] starts with the captures of its body cleared and
    is rejected when it consumes nothing; the fuel of the inner loop is the
    number of code units left, which no run can exhaust. *)
Fixpoint m (r : regex) (i : nat) (c : caps) (k : cont) {struct r}
  : option (nat * caps) :=
  match r with
  | Eps => k i c
  | Chr p =>
      match nth_error s i with
      | Some ch => if p ch then k (S i) c else None
      | None => None
      end
  | Seq r1 r2 => m r1 i c (fun j c' => m r2 j c' k)
  | Alt r1 r2 =>
      match m r1 i c k with
      | Some x => Some x
      | None => m r2 i c k
      end
  | Star r' =>
      (fix loop (fuel : nat) (i : nat) (c : caps) {struct fuel}
         : option (nat * caps) :=
         match fuel with
         | O => k i c
         | S fuel' =>
             match m r' i (clearCaps (groupsOf r') c)
                     (fun j c' => if Nat.eqb j i then None else loop fuel' j c') with
             | Some x => Some x
             | None => k i c
             end
         end) (S (length s - i)) i c
  | Group n r' => m r' i c (fun j c' => k j ((n, (i, j)) :: c'))
  | WordB => if xorb (wordBefore i) (wordAt i) then k i c else None
  end.

(** A match: start offset, end offset, captures. *)
Record rmatch : Type := { mstart : nat; mstop : nat; mcaps : caps }.

Definition matchAt (r : regex) (i : nat) : option rmatch :=
  match m r i [] (fun j c => Some (j, c)) with
  | Some (j, c) => Some {| mstart := i; mstop := j; mcaps := c |}
  | None => None
  end.

(** Leftmost match at or after [i] ([RegExpBuiltinExec] without the sticky
    flag); [fuel] counts the start offsets still to try. *)
Fixpoint searchFrom (fuel : nat) (r : regex) (i : nat) : option rmatch :=
  match matchAt r i with
  | Some x => Some x
  | None =>
      match fuel with
      | O => None
      | S fuel' => searchFrom fuel' r (S i)
      end
  end.

Definition exec (r : regex) (lastIndex : nat) : option rmatch :=
  if Nat.ltb (length s) lastIndex then None
  else searchFrom (length s - lastIndex) r lastIndex.

(** All matches of a global regular expression, as [matchAll] and [match]
    with the flag [g] enumerate them; after an empty match the scan
    advances by one code unit. *)
Fixpoint execAll (fuel : nat) (r : regex) (lastIndex : nat) : list rmatch :=
  match fuel with
  | O => []
  | S fuel' =>
      match exec r lastIndex with
      | None => []
      | Some x =>
          x :: execAll fuel' r
                 (if Nat.eqb (mstop x) (mstart x) then S (mstop x) else mstop x)
      end
  end.

Definition matchAll (r : regex) : list rmatch :=
  execAll (S (length s)) r 0.

Definition matched (x : rmatch) : jsstring :=
  firstn (mstop x - mstart x) (skipn (mstart x) s).

(** Text of a capture group, [None] when the group did not take part. *)
Definition group (x : rmatch) (n : nat) : option jsstring :=
  match getCap n (mcaps x) with
  | Some (a, b) => Some (firstn (b - a) (skipn a s))
  | None => None
  end.

(** [s.match(r)] with the flag [g]: the matched texts, [None] for [null]. *)
Definition matchGlobal (r : regex) : option (list jsstring) :=
  match matchAll r with
  | [] => None
  | l => Some (List.map matched l)
  end.

(** [r.test(s)]. *)
Definition test (r : regex) : bool :=
  match exec r 0 with Some _ => true | None => false end.

(** [s.replace(r, by)] with the flag [g] and a replacement free of [$]. *)
Fixpoint replace_go (ms : list rmatch) (pos : nat) (by_ : jsstring) : jsstring :=
  match ms with
  | [] => skipn pos s
  | x :: ms' =>
      firstn (mstart x - pos) (skipn pos s) ++ by_ ++ replace_go ms' (mstop x) by_
  end.

Definition replaceAll (r : regex) (by_ : jsstring) : jsstring :=
  replace_go (matchAll r) 0 by_.
End Matcher.

End Regex.
Import Regex.

(** ** Numbers

    A JavaScript number is an IEEE-754 binary64 value. *)
Module Num.

Definition number : Type := float.

(** The binary64 value nearest to [m * 2^e] (ties to even). *)
Definition ofBinary (m e : Z) : number :=
  SF2Prim (binary_normalize prec emax m e false).

(** The binary64 value nearest to [n * 10^e10], for [n >= 0]: a negative power
    of ten is divided out at 66 bits or more, and a remainder is kept as a
    sticky bit below the rounding position. *)
Definition ofDecimal (n e10 : Z) : number :=
  if e10 >=? 0 then ofBinary (n * 10 ^ e10) 0
  else
    let d := 10 ^ (- e10) in
    let sh := Z.max 0 (66 + Z.log2 d - Z.log2 n) in
    let q := (n * 2 ^ sh) / d in
    let r := (n * 2 ^ sh) mod d in
    ofBinary (2 * q + (if r =? 0 then 0 else 1)) (- sh - 1).

Fixpoint takeDigits (s : jsstring) : jsstring * jsstring :=
  match s with
  | c :: s' =>
      if isDigit c then let (d, rest) := takeDigits s' in (c :: d, rest)
      else ([], s)
  | [] => ([], [])
  end.

Definition digitsValue (d : jsstring) : Z :=
  fold_left (fun acc c => 10 * acc + (Z.of_N c - 48)) d 0.

(** Sign prefix of a [StrDecimalLiteral]. *)
Definition takeSign (s : jsstring) : bool * jsstring :=
  match s with
  | 45%N :: s' => (true, s')
  | 43%N :: s' => (false, s')
  | _ => (false, s)
  end.

(** Exponent part [e] or [E], an optional sign and at least one digit; [0]
    when there is none. *)
Definition takeExponent (s : jsstring) : Z :=
  match s with
  | c :: s' =>
      if ((c =? 101) || (c =? 69))%N then
        let (neg, s'') := takeSign s' in
        match fst (takeDigits s'') with
        | [] => 0
        | d => if neg then - digitsValue d else digitsValue d
        end
      else 0
  | [] => 0
  end.

(** The global function [parseFloat]: leading white space is skipped and the
    longest prefix that is a decimal literal is converted; [NaN] when there is
    none. *)
Definition parseFloat (s : jsstring) : number :=
  let (neg, s1) := takeSign (trimStart s) in
  let signed (x : number) := if neg then (- x)%float else x in
  if startsWith s1 (js "Infinity") then signed infinity
  else
    let (ip, s2) := takeDigits s1 in
    let (fp, s3) :=
      match s2 with
      | 46%N :: s2' => takeDigits s2'
      | _ => ([], s2)
      end in
    match ip, fp with
    | [], [] => nan
    | _, _ =>
        signed (ofDecimal (digitsValue (ip ++ fp))
                  (takeExponent s3 - Z.of_nat (length fp)))
    end.

(** [Math.ceil(n / d)] on exact non-negative integers. *)
Definition ceilDiv (n d : Z) : Z := (n + d - 1) / d.

(** The value of a float scaled by [2^1074], an integer (binary64 has no
    bit below [2^-1074]); the infinities sit beyond every finite value.  It
    is the yardstick against which the IEEE comparisons are measured. *)
Definition scaled (x : spec_float) : Z :=
  match x with
  | S754_zero _ => 0
  | S754_infinity s => cond_Zopp s (2 ^ 2100)
  | S754_nan => 0
  | S754_finite s m e => cond_Zopp s (Zpos m * 2 ^ (e + 1074))
  end.

Definition notNaN (x : spec_float) : bool :=
  match x with S754_nan => false | _ => true end.

Definition fz (x : number) : Z := scaled (Prim2SF x).

(** Sign classes of a rounded result. *)
Definition signed (s : bool) (x : spec_float) : Prop :=
  match x with
  | S754_finite s' _ _ | S754_infinity s' => s' = s
  | _ => False
  end.

Definition weaklySigned (s : bool) (x : spec_float) : Prop :=
  match x with
  | S754_finite s' _ _ | S754_infinity s' | S754_zero s' => s' = s
  | S754_nan => True
  end.

End Num.
Import Num.

(** ** Numeric extraction ([extractNumericalData], documentProcessing.ts) *)
Module Extract.

(** [/(?:£|\$|€)?\s*\b\d+(?:[,.]\d+)?%?\b/g] *)
Definition numberRegex : regex :=
  Seq (Opt (Alt (Lit POUND) (Alt (Lit DOLLAR) (Lit EURO))))
 (Seq (Star (Chr isWhiteSpace))
 (Seq WordB
 (Seq (Plus (Chr isDigit))
 (Seq (Opt (Seq (Chr (fun c => (c =? 44) || (c =? 46))%N) (Plus (Chr isDigit))))
 (Seq (Opt (Lit 37%N))
      WordB))))).

Definition isCurrency (c : N) : bool :=
  ((c =? POUND) || (c =? DOLLAR) || (c =? EURO))%N.

(** [/,/g], [/[£$€]/] and [/[£$€]\s*/g] *)
Definition commaRegex : regex := Lit 44%N.
Definition currencyRegex : regex := Chr isCurrency.
Definition currencySpaceRegex : regex := Seq (Chr isCurrency) (Star (Chr isWhiteSpace)).

(** A letter class under the flag [i]. *)
Definition letterI : regex := Chr (fun c => isUpper c || isLower c).

(** The entity pattern, flag [i]: one of the words council, authority,
    borough, district, county, unitary, metropolitan; [\s+]; an optional
    [of\s+]; then group 1, a run of words [[A-Z][a-z]+] separated by [\s+]
    (each further word is group 2). *)
Definition entityRegex : regex :=
  Seq (Alt (StrI (js "council")) (Alt (StrI (js "authority"))
      (Alt (StrI (js "borough")) (Alt (StrI (js "district"))
      (Alt (StrI (js "county")) (Alt (StrI (js "unitary"))
           (StrI (js "metropolitan"))))))))
 (Seq (Plus (Chr isWhiteSpace))
 (Seq (Opt (Seq (StrI (js "of")) (Plus (Chr isWhiteSpace))))
      (Group 1 (Seq letterI (Seq (Plus letterI)
         (Star (Group 2 (Seq (Plus (Chr isWhiteSpace))
                        (Seq letterI (Plus letterI)))))))))).

Definition financialKeywords : list jsstring :=
  List.map js
    ["council tax"; "increase"; "decrease"; "rate"; "percentage"; "budget"; "funding";
     "allocation"; "spending"; "cost"; "expense"; "revenue"; "income"; "deficit"; "surplus";
     "band"; "authority"; "borough"; "district"; "county"; "unitary"; "metropolitan"]%string.

Section Extract.
Variable toLowerCase : jsstring -> jsstring.
(** The type of the opaque [metadata] objects carried along. *)
Context {M : Type}.

Record SearchHit : Type :=
  { sh_content : jsstring; sh_documentTitle : jsstring; sh_metadata : M }.

Record NumericalDatum : Type :=
  { value : number;
    isPercentage : bool;
    hasCurrency : bool;
    context : jsstring;
    documentTitle : jsstring;
    isImportant : bool;
    entity : jsstring;
    metadata : M }.

(** The body of the inner loop: [matchText] is the matched text and [index]
    the offset the context window is centred on. *)
Definition datumOf (result : SearchHit) (matchText : jsstring) (index : Z)
  : NumericalDatum :=
  let cleaned0 := replaceAll matchText commaRegex [] in
  let hasCurrency := test cleaned0 currencyRegex in
  let cleanedMatch :=
    if hasCurrency then replaceAll cleaned0 currencySpaceRegex [] else cleaned0 in
  let isPercentage := endsWith cleanedMatch (js "%") in
  let value :=
    parseFloat (if isPercentage then slice cleanedMatch 0 (-1) else cleanedMatch) in
  let startIndex := Z.max 0 (index - 100) in
  let endIndex :=
    Z.min (len (sh_content result)) (index + len matchText + 100) in
  let context := substring (sh_content result) startIndex endIndex in
  let isImportant :=
    existsb (fun keyword => includes (toLowerCase context) (toLowerCase keyword))
      financialKeywords in
  let entity :=
    match exec context entityRegex 0 with
    | Some em =>
        match group context em 1 with
        | Some (c :: g) => trim (c :: g)
        | _ => []
        end
    | None => []
    end in
  {| value := value; isPercentage := isPercentage; hasCurrency := hasCurrency;
     context := context; documentTitle := sh_documentTitle result;
     isImportant := isImportant; entity := entity;
     metadata := sh_metadata result |}.

(** The TypeScript source: [content.match(numberRegex)] lists the matched
    texts and each window is centred on [content.indexOf(match)]. *)
Definition extractNumericalData (searchResults : list SearchHit)
  : list NumericalDatum :=
  flat_map
    (fun result =>
       match matchGlobal (sh_content result) numberRegex with
       | Some matches =>
           List.map
             (fun match_ =>
                datumOf result match_ (indexOf (sh_content result) match_))
             matches
       | None => []
       end)
    searchResults.

(** The compiled module the test imports ([dist/semanticSearch.js]):
    [content.matchAll(numberRegex)] and each window is centred on the
    match's own [index]. *)
Definition extractNumericalData_dist (searchResults : list SearchHit)
  : list NumericalDatum :=
  flat_map
    (fun result =>
       List.map
         (fun x =>
            datumOf result (matched (sh_content result) x) (Z.of_nat (mstart x)))
         (matchAll (sh_content result) numberRegex))
    searchResults.
End Extract.

(** The test's fixture: [buildResult(content)] with title ['Doc'] and an
    empty metadata object. *)
Definition buildResult (content : jsstring) : @SearchHit unit :=
  {| sh_content := content; sh_documentTitle := js "Doc"; sh_metadata := tt |}.

Definition gap : jsstring := repeat 97%N 150.

Definition testContent : jsstring :=
  js "Cost was " ++ [POUND] ++ js "10." ++ gap
    ++ js "Later cost became " ++ [POUND] ++ js "20.".

End Extract.
Import Extract.

(** ** The relational store (prisma/schema.prisma)

    A handler works on one snapshot of the four tables: a read returns the
    rows of the snapshot and cannot fail, and no other request runs between
    two calls of the same handler.  A write fails only where a relation of
    the schema restricts it or where its record is missing.  Failures of the
    connection and concurrent requests are outside the model. *)
Module Prisma.

Record Document : Type :=
  { doc_id : jsstring;
    doc_title : jsstring;
    doc_content : jsstring;
    doc_markdown : jsstring;
    doc_metadata : option jsstring;
    doc_folder : option jsstring;
    doc_isEmbedded : bool }.

Record Chat : Type := { chat_id : jsstring; chat_documentId : jsstring }.

Record Message : Type :=
  { msg_id : jsstring; msg_chatId : jsstring; msg_role : jsstring; msg_content : jsstring }.

Record Chunk : Type :=
  { chunk_id : jsstring; chunk_documentId : jsstring; chunk_content : jsstring }.

(** The four tables, each in row order. *)
Record Store : Type :=
  { documents : list Document;
    chats : list Chat;
    messages : list Message;
    chunks : list Chunk }.

(** [prisma.document.findUnique({ where: { id } })] *)
Definition document_findUnique (db : Store) (id : jsstring) : option Document :=
  List.find (fun d => str_eqb (doc_id d) id) (documents db).

(** [prisma.document.findMany()] *)
Definition document_findMany (db : Store) : list Document := documents db.

(** The [chats] relation of a document, as [include: { chats: ... }] loads it. *)
Definition chatsOf (db : Store) (id : jsstring) : list Chat :=
  List.filter (fun c => str_eqb (chat_documentId c) id) (chats db).

(** [prisma.message.deleteMany({ where: { chatId } })] *)
Definition message_deleteMany (db : Store) (chatId : jsstring) : Store :=
  {| documents := documents db;
     chats := chats db;
     messages := List.filter (fun m => negb (str_eqb (msg_chatId m) chatId)) (messages db);
     chunks := chunks db |}.

Definition foreignKeyError : Thrown :=
  Error (js "Foreign key constraint failed").
Definition notFoundError : Thrown :=
  Error (js "Record to delete does not exist.").

(** [prisma.chat.deleteMany({ where: { documentId } })]: the relation
    [Message.chat] restricts the deletion of a chat that still has messages. *)
Definition chat_deleteMany (db : Store) (documentId : jsstring) : result Thrown Store :=
  if existsb
       (fun m => existsb (fun c => str_eqb (chat_id c) (msg_chatId m)) (chatsOf db documentId))
       (messages db)
  then Throw foreignKeyError
  else Ok {| documents := documents db;
             chats := List.filter (fun c => negb (str_eqb (chat_documentId c) documentId)) (chats db);
             messages := messages db;
             chunks := chunks db |}.

(** [prisma.document.delete({ where: { id } })]: the record must exist, the
    relation [Chat.document] restricts, and [Chunk.document] cascades. *)
Definition document_delete (db : Store) (id : jsstring) : result Thrown Store :=
  match document_findUnique db id with
  | None => Throw notFoundError
  | Some _ =>
      match chatsOf db id with
      | _ :: _ => Throw foreignKeyError
      | [] =>
          Ok {| documents := List.filter (fun d => negb (str_eqb (doc_id d) id)) (documents db);
                chats := chats db;
                messages := messages db;
                chunks := List.filter (fun k => negb (str_eqb (chunk_documentId k) id)) (chunks db) |}
      end
  end.

Definition notFoundForUpdate : Thrown :=
  Error (js "Record to update not found.").

Definition setFolder (id folder : jsstring) (d : Document) : Document :=
  if str_eqb (doc_id d) id
  then {| doc_id := doc_id d; doc_title := doc_title d; doc_content := doc_content d;
          doc_markdown := doc_markdown d; doc_metadata := doc_metadata d;
          doc_folder := Some folder; doc_isEmbedded := doc_isEmbedded d |}
  else d.

(** [prisma.document.update({ where: { id }, data: { folder } })]: the
    record must exist (the time stamps are not part of the model). *)
Definition document_update_folder (db : Store) (id folder : jsstring) : result Thrown Store :=
  match document_findUnique db id with
  | None => Throw notFoundForUpdate
  | Some _ =>
      Ok {| documents := List.map (setFolder id folder) (documents db);
            chats := chats db; messages := messages db; chunks := chunks db |}
  end.

End Prisma.
Import Prisma.

(** ** Chunk cache and semantic search (documentProcessing.ts) *)
Module DocumentProcessing.

Record ChunkMetadata : Type :=
  { md_documentId : jsstring;
    md_index : nat;
    md_title : jsstring;
    md_position : jsstring }.

(** An element of the arrays held by [documentChunks]. *)
Record ChunkRec : Type := { c_content : jsstring; c_metadata : ChunkMetadata }.

Record ChatRequest : Type := { req_system : jsstring; req_user : jsstring }.

(** Calls that leave the process, and the calls of [createDocumentChunks]. *)
Inductive Event : Type :=
| EvCreateChunks (documentId : jsstring)
| EvEmbed (text : jsstring)
| EvChat (req : ChatRequest)
| EvGemini (systemPrompt userPrompt : jsstring).

(** The environment: API keys and the remote services.  A service is an
    oracle that receives the number of events before the call, so that two
    calls with the same arguments may answer differently. *)
Record Env : Type :=
  { OPENAI_API_KEY : option jsstring;
    embeddings_create : nat -> jsstring -> result Thrown (list number);
    chat_completions_create : nat -> ChatRequest -> result Thrown (option jsstring);
    gemini_generateContent : option (nat -> jsstring -> jsstring -> result Thrown jsstring) }.

(** Process state: the module-level [documentChunks] map and the trace. *)
Record World : Type :=
  { documentChunks : gmap jsstring (list ChunkRec);
    trace : list Event }.

(** Computations that read and update the process state and may throw; the
    state reached when an exception is thrown is kept. *)
Definition M (A : Type) : Type := World -> result Thrown A * World.

#[global] Instance M_ret : MRet M := fun A a w => (Ok a, w).
#[global] Instance M_bind : MBind M := fun A B f x w =>
  match x w with
  | (Ok a, w') => f a w'
  | (Throw e, w') => (Throw e, w')
  end.

Definition throw {A} (e : Thrown) : M A := fun w => (Throw e, w).
Definition lift {A} (r : result Thrown A) : M A := fun w => (r, w).
Definition emit (ev : Event) : M unit :=
  fun w => (Ok tt, {| documentChunks := documentChunks w; trace := trace w ++ [ev] |}).
Definition now : M nat := fun w => (Ok (length (trace w)), w).
Definition cacheGet (id : jsstring) : M (option (list ChunkRec)) :=
  fun w => (Ok (documentChunks w !! id), w).
Definition cacheSet (id : jsstring) (v : list ChunkRec) : M unit :=
  fun w => (Ok tt, {| documentChunks := <[id := v]> (documentChunks w); trace := trace w |}).
(** [try { body } catch (e) { handler(e) }] *)
Definition tryCatch {A} (body : M A) (handler : Thrown -> M A) : M A :=
  fun w => match body w with
           | (Ok a, w') => (Ok a, w')
           | (Throw e, w') => handler e w'
           end.

(** A scored chunk, the element of the array [results]. *)
Record Scored : Type :=
  { s_chunk : ChunkRec; s_document : jsstring * jsstring; s_similarity : number }.

Record SearchResult : Type :=
  { r_content : jsstring;
    r_documentId : jsstring;
    r_documentTitle : jsstring;
    r_similarity : number;
    r_metadata : ChunkMetadata }.

(** [Array.prototype.slice(0, limit)] for an integer [limit]. *)
Definition sliceTo {A} (l : list A) (limit : Z) : list A :=
  let n := Z.of_nat (length l) in
  firstn (Z.to_nat (if limit <? 0 then Z.max (n + limit) 0 else Z.min limit n)) l.

(** [Array.prototype.sort(cmp)] as a stable insertion sort: [a] stays before
    a later [b] unless [cmp(a, b) > 0] (a [NaN] from [cmp] counts as [0]).  For
    a consistent comparator every conforming sort returns this list; for an
    inconsistent one ECMAScript leaves the order to the implementation. *)
Section Sort.
Context {A : Type} (cmp : A -> A -> number).

Fixpoint insertSorted (a : A) (l : list A) : list A :=
  match l with
  | [] => [a]
  | b :: l' => if (0 <? cmp a b)%float then b :: insertSorted a l' else a :: l
  end.

Fixpoint sort (l : list A) : list A :=
  match l with
  | [] => []
  | a :: l' => insertSorted a (sort l')
  end.
End Sort.

Definition cosineSimilarity (vecA vecB : list number) : number :=
  let '(dotProduct, normA, normB) :=
    fold_left
      (fun '(dotProduct, normA, normB) i =>
         let a := nth i vecA nan in
         let b := nth i vecB nan in
         (dotProduct + a * b, normA + a * a, normB + b * b)%float)
      (seq 0 (length vecA)) (0, 0, 0)%float in
  (dotProduct / (sqrt normA * sqrt normB))%float.

(** The loop of [createDocumentChunks] that wraps each piece of text with
    its metadata. *)
Definition buildChunks (documentId title : jsstring) (textChunks : list jsstring)
  : list ChunkRec :=
  imap (fun i chunk =>
          {| c_content := chunk;
             c_metadata :=
               {| md_documentId := documentId;
                  md_index := i;
                  md_title := title;
                  md_position :=
                    js "Chunk " ++ ofNat (i + 1) ++ js " of "
                      ++ ofNat (length textChunks) |} |})
       textChunks.

Section Search.
(** [RecursiveCharacterTextSplitter.splitText] with chunk size 1000 and
    overlap 200 (langchain). *)
Variable splitText : jsstring -> list jsstring.
Variable env : Env.
Variable db : Store.

Definition getOpenAI : M unit :=
  match OPENAI_API_KEY env with
  | Some (_ :: _) => mret tt
  | _ => throw (Error (js "OpenAI API key is not configured"))
  end.

Definition createDocumentChunks (documentId : jsstring) : M nat :=
  _ ← emit (EvCreateChunks documentId);
  match document_findUnique db documentId with
  | None => throw (Error (js "Document with ID " ++ documentId ++ js " not found"))
  | Some document =>
      let textChunks := splitText (doc_content document) in
      let chunks := buildChunks documentId (doc_title document) textChunks in
      _ ← cacheSet documentId chunks;
      mret (length textChunks)
  end.

Definition getEmbedding (text : jsstring) : M (list number) :=
  _ ← getOpenAI;
  t ← now;
  _ ← emit (EvEmbed text);
  lift (embeddings_create env t text).

(** The inner loop of [semanticSearch] over the chunks of one document. *)
Fixpoint scoreChunks (queryEmbedding : list number) (document : jsstring * jsstring)
    (chunks : list ChunkRec) : M (list Scored) :=
  match chunks with
  | [] => mret []
  | chunk :: rest =>
      embedding ← getEmbedding (c_content chunk);
      let similarity := cosineSimilarity queryEmbedding embedding in
      results ← scoreChunks queryEmbedding document rest;
      mret ({| s_chunk := chunk; s_document := document; s_similarity := similarity |}
              :: results)
  end.

(** The outer loop over the documents [(id, title)] returned by the store. *)
Fixpoint scoreDocuments (queryEmbedding : list number)
    (docs : list (jsstring * jsstring)) : M (list Scored) :=
  match docs with
  | [] => mret []
  | document :: rest =>
      cached ← cacheGet (fst document);
      chunks ←
        match cached with
        | Some chunks => mret chunks
        | None =>
            _ ← createDocumentChunks (fst document);
            again ← cacheGet (fst document);
            mret (default [] again)
        end;
      here ← scoreChunks queryEmbedding document chunks;
      others ← scoreDocuments queryEmbedding rest;
      mret (here ++ others)
  end.

Definition formatResult (result : Scored) : SearchResult :=
  {| r_content := c_content (s_chunk result);
     r_documentId := fst (s_document result);
     r_documentTitle := snd (s_document result);
     r_similarity := s_similarity result;
     r_metadata := c_metadata (s_chunk result) |}.

Definition semanticSearch (query : jsstring) (limit : Z) : M (list SearchResult) :=
  queryEmbedding ← getEmbedding query;
  let documents := List.map (fun d => (doc_id d, doc_title d)) (document_findMany db) in
  results ← scoreDocuments queryEmbedding documents;
  let topResults :=
    sliceTo (sort (fun a b => (s_similarity b - s_similarity a)%float) results) limit in
  mret (List.map formatResult topResults).

(** [processAllDocuments] *)
Fixpoint processEach (docs : list Document) : M unit :=
  match docs with
  | [] => mret tt
  | document :: rest => _ ← createDocumentChunks (doc_id document); processEach rest
  end.

Definition processAllDocuments : M nat :=
  let documents := document_findMany db in
  _ ← processEach documents;
  mret (length documents).
End Search.

End DocumentProcessing.
Import DocumentProcessing.

(** ** Context truncation and multi-document RAG (documentProcessing.ts) *)
Module Rag.

(** [Math.ceil(text.length / 4)] *)
Definition estimateTokenCount (text : jsstring) : Z := ceilDiv (len text) 4.

(** [truncateContext(context, maxTokens)] for an integer budget. *)
Definition truncateContext (context : jsstring) (maxTokens : Z) : jsstring :=
  let estimatedTokens := estimateTokenCount context in
  if estimatedTokens <=? maxTokens then context
  else
    let documents :=
      List.filter (fun d => negb (str_eqb d [])) (split context (js "---")) in
    let avgTokensPerDoc := maxTokens / Z.of_nat (length documents) in
    join (js "---" ++ [NL; NL])
      (List.map
         (fun doc =>
            match split doc (js "Content: ") with
            | p0 :: content :: _ =>
                let header := p0 ++ js "Content: " in
                let headerTokens := estimateTokenCount header in
                let availableTokens := avgTokensPerDoc - headerTokens in
                if availableTokens <? estimateTokenCount content
                then header ++ substring content 0 (availableTokens * 4)
                            ++ js "... [truncated]"
                else doc
            | _ => doc
            end)
         documents).

Definition analysisKeywords : list jsstring :=
  List.map js
    ["average"; "mean"; "median"; "calculate"; "sum"; "total"; "percentage"; "compare";
     "difference"; "higher"; "lower"; "more"; "less"; "increase"; "decrease";
     "trend"; "analysis"; "statistics"; "statistical"; "correlation"; "relationship";
     "council tax"; "raise"; "raised"; "political control"; "labour"; "conservative";
     "lib dem"; "liberal democrat"; "green"; "independent"; "party"; "controlled"]%string.

Inductive EntityType : Type := political_party | local_authority.

Definition entityTypeName (t : EntityType) : jsstring :=
  match t with
  | political_party => js "political_party"
  | local_authority => js "local_authority"
  end.

Definition EntityType_eqb (a b : EntityType) : bool :=
  match a, b with
  | political_party, political_party | local_authority, local_authority => true
  | _, _ => false
  end.

Record Entity : Type := { e_entity : jsstring; e_type : EntityType; e_context : jsstring }.

(** First occurrences, in order: the content of [new Set(array)] and of an
    array filled under an [includes] guard. *)
Fixpoint dedupe {A} (eqb : A -> A -> bool) (l : list A) (seen : list A) : list A :=
  match l with
  | [] => []
  | x :: l' =>
      if existsb (eqb x) seen then dedupe eqb l' seen
      else x :: dedupe eqb l' (x :: seen)
  end.

Definition systemMessageHead : jsstring :=
  js "You are BlueEdge, an advanced AI assistant for the Conservative Research Department. 
Your purpose is to analyze political documents and provide factual, data-driven insights.

You will be given a query and relevant excerpts from multiple documents.
Synthesize information from all provided document excerpts to answer the query comprehensively.".

Definition systemMessageAnalysis : jsstring :=
  js "

This query requires data analysis. When performing calculations or comparisons:
- Extract all relevant numerical data from the documents
- Perform calculations accurately using all available data, not just sample data
- Show your calculation process step by step
- Present results with proper statistical context
- If comparing entities (e.g., political parties), ensure you use representative samples
- Clearly state your methodology and any limitations in the data

For council tax analysis specifically:
- Match local authorities with their political control
- Calculate averages by political party accurately
- Consider the type of authority (district, unitary, etc.) in your analysis
- Present both the raw data and the calculated averages
- Explain any outliers or anomalies in the data".

Definition systemMessageFormat : jsstring :=
  js "

FORMATTING REQUIREMENTS:
- Present your analysis in clean, well-structured format with clear headings
- Use proper markdown tables with headers and aligned columns when presenting structured data
- Use numbered lists (1. 2. 3.) for sequential items
- Use headings (## and ###) to organize your response clearly
- Keep your analysis concise and focused on the most important insights

Always cite the specific document sources in your answer.
If the documents don't contain sufficient information to answer the query, explain what specific information is missing.".

Definition noResponse : jsstring := js "No response generated".

Definition reducedContextNote : jsstring :=
  [NL; NL] ++ js "*Note: Analysis was performed with reduced document context due to length constraints.*".

Definition truncatedExcerptsNote : jsstring :=
  [NL; NL] ++ js "Note: Document excerpts have been significantly truncated due to length constraints.".

Definition rateLimitText : jsstring :=
  js "The analysis could not be completed because the documents contain too much text. Please try a more specific question or upload smaller documents.".

Definition geminiKeyError : Thrown :=
  Error (js "Gemini API key is not configured. Please add GEMINI_API_KEY to your .env.local file.").

(** [x || fallback] for a string that may be absent: the empty string is
    falsy. *)
Definition orElse (x : option jsstring) (fallback : jsstring) : jsstring :=
  match x with
  | Some (c :: s) => c :: s
  | _ => fallback
  end.

Section MultiDocumentRAG.
Variable toLowerCase : jsstring -> jsstring.
Variable splitText : jsstring -> list jsstring.
(** [Number::toString], used by template literals. *)
Variable numberToString : number -> jsstring.
(** [extractEntities(text)]: party names and council names found by the
    regular expressions of lines 584-627. *)
Variable extractEntities : jsstring -> list Entity.
Variable env : Env.
Variable db : Store.

Definition requiresDataAnalysis (query : jsstring) : bool :=
  existsb (fun keyword => includes (toLowerCase query) (toLowerCase keyword))
    analysisKeywords.

Definition toHit (r : SearchResult) : SearchHit :=
  {| sh_content := r_content r;
     sh_documentTitle := r_documentTitle r;
     sh_metadata := r_metadata r |}.

(** The two fields of [prepareDataForAnalysis] that [multiDocumentRAG]
    reads. *)
Definition numericalDataOf (searchResults : list SearchResult)
  : list (@NumericalDatum ChunkMetadata) :=
  extractNumericalData toLowerCase (List.map toHit searchResults).

Definition entitiesOf (searchResults : list SearchResult) : list Entity :=
  flat_map (fun result => extractEntities (r_content result)) searchResults.

Definition numericalSection (data : list (@NumericalDatum ChunkMetadata)) : jsstring :=
  match data with
  | [] => []
  | _ =>
      [NL; NL] ++ js "Extracted Numerical Data:" ++ [NL]
      ++ concat
           (List.map
              (fun item =>
                 js "- Value: " ++ numberToString (value item)
                 ++ js ", Document: " ++ documentTitle item
                 ++ js ", Context: " ++ [QUOTE] ++ trim (context item) ++ [QUOTE; NL])
              data)
  end.

Definition entityLine (type : EntityType) (entities : list jsstring) : jsstring :=
  js "- " ++ entityTypeName type ++ js ": " ++ join (js ", ") entities ++ [NL].

(** Entities grouped by type in an object keyed by the type. *)
Definition entitySection (entities : list Entity) : jsstring :=
  match entities with
  | [] => []
  | _ =>
      [NL; NL] ++ js "Extracted Entities:" ++ [NL]
      ++ concat
           (List.map
              (fun type =>
                 entityLine type
                   (dedupe str_eqb
                      (List.map e_entity
                         (List.filter (fun e => EntityType_eqb (e_type e) type) entities))
                      []))
              (dedupe EntityType_eqb (List.map e_type entities) []))
  end.

Definition renderContext (searchResults : list SearchResult) : jsstring :=
  join [NL; NL]
    (List.map
       (fun result =>
          js "Document: " ++ r_documentTitle result ++ js " ("
          ++ orElse (Some (md_position (r_metadata result))) (js "Unknown position")
          ++ js ")" ++ [NL] ++ js "Content: " ++ r_content result ++ [NL] ++ js "---")
       searchResults).

Definition userMessageOf (query context : jsstring) : jsstring :=
  js "Query: " ++ query ++ [NL; NL] ++ js "Document Excerpts:" ++ [NL] ++ context.

Definition chat (req : ChatRequest) : M (option jsstring) :=
  t ← now;
  _ ← emit (EvChat req);
  lift (chat_completions_create env t req).

(** The inner [try]/[catch] around the chat completion (lines 980-1029). *)
Definition completeWithRetry (query systemMessage userMessage truncatedContext : jsstring)
  : M jsstring :=
  tryCatch
    (content ← chat {| req_system := systemMessage; req_user := userMessage |};
     mret (orElse content noResponse))
    (fun apiError =>
       if messageIncludes apiError (js "Request too large") then
         let furtherTruncatedContext :=
           truncateContext truncatedContext (7000 / 2) in
         let reducedUserMessage :=
           userMessageOf query furtherTruncatedContext ++ truncatedExcerptsNote in
         content ← chat {| req_system := systemMessage; req_user := reducedUserMessage |};
         mret (orElse content noResponse ++ reducedContextNote)
       else throw apiError).

(** The messages built from the query and the search results
    (lines 829-978): [systemMessage]; the text appended for the extracted
    numbers and entities ([analysisText], empty unless the query needs
    analysis; the second rendering of lines 957-977 prints the same groups);
    [totalTokens]; and, over 8000 tokens, the truncated context and the
    user message rebuilt from it. *)
Definition systemMessage (query : jsstring) : jsstring :=
  systemMessageHead
    ++ (if requiresDataAnalysis query then systemMessageAnalysis else [])
    ++ systemMessageFormat.

Definition analysisText (query : jsstring) (searchResults : list SearchResult)
  : jsstring :=
  if requiresDataAnalysis query
  then numericalSection (numericalDataOf searchResults)
         ++ entitySection (entitiesOf searchResults)
  else [].

Definition totalTokens (query : jsstring) (searchResults : list SearchResult) : Z :=
  estimateTokenCount (systemMessage query)
  + estimateTokenCount
      (userMessageOf query (renderContext searchResults)
         ++ analysisText query searchResults).

Definition maxContextTokens : Z := 7000.

Definition truncatedContext (query : jsstring) (searchResults : list SearchResult)
  : jsstring :=
  if 8000 <? totalTokens query searchResults
  then truncateContext (renderContext searchResults) maxContextTokens
  else renderContext searchResults.

Definition userMessage (query : jsstring) (searchResults : list SearchResult)
  : jsstring :=
  userMessageOf query (truncatedContext query searchResults)
    ++ analysisText query searchResults.

(** The body of the outer [try] (lines 826-1029). *)
Definition multiDocumentRAG_body (query : jsstring) (limit : Z) : M jsstring :=
  searchResults ← semanticSearch splitText env db query limit;
  if 100000 <? totalTokens query searchResults then
    match gemini_generateContent env with
    | None => throw geminiKeyError
    | Some generateContent =>
        tryCatch
          (t ← now;
           _ ← emit (EvGemini (systemMessage query)
                       (userMessageOf query (renderContext searchResults)
                          ++ analysisText query searchResults));
           lift (generateContent t (systemMessage query)
                   (userMessageOf query (renderContext searchResults)
                      ++ analysisText query searchResults)))
          (fun geminiError =>
             throw (Error (js "Error using Gemini API: "
                             ++ orElse (message geminiError) (js "Unknown error"))))
    end
  else
    _ ← getOpenAI env;
    completeWithRetry query (systemMessage query) (userMessage query searchResults)
      (truncatedContext query searchResults).

(** [multiDocumentRAG(query, limit)]: the outer [catch] turns an [Error]
    whose message contains [429] into a fixed text and rethrows the rest. *)
Definition multiDocumentRAG (query : jsstring) (limit : Z) : M jsstring :=
  tryCatch (multiDocumentRAG_body query limit)
    (fun error =>
       if isError error && messageIncludes error (js "429")
       then mret rateLimitText
       else throw error).
End MultiDocumentRAG.

End Rag.
Import Rag.

(** ** HTTP handlers (src/app/api) *)
Module Routes.

#[local] Unset Elimination Schemes.
Inductive json : Type :=
| JNull
| JBool (b : bool)
| JInt (n : Z)
| JNum (x : number)
| JStr (s : jsstring)
| JArr (items : list json)
| JObj (fields : list (jsstring * json)).
#[local] Set Elimination Schemes.

Record Response : Type := { status : Z; body : json }.

(** [NextResponse.json(body)] and [NextResponse.json(body, { status })] *)
Definition respond (body : json) : Response := {| status := 200; body := body |}.
Definition respondWith (st : Z) (body : json) : Response := {| status := st; body := body |}.
Definition errorBody (msg : jsstring) : json := JObj [(js "error", JStr msg)].

Definition hasField (name : jsstring) (b : json) : bool :=
  match b with
  | JObj fields => existsb (fun f => str_eqb (fst f) name) fields
  | _ => false
  end.

Definition isErrorResponse (r : Response) : bool :=
  (400 <=? status r) && (status r <=? 599) && hasField (js "error") (body r).

(** [parseInt(s, 10)]: white space, a sign and the longest run of digits;
    [None] stands for [NaN]. *)
Definition parseInt (s : jsstring) : option Z :=
  let (neg, s1) := takeSign (trimStart s) in
  match fst (takeDigits s1) with
  | [] => None
  | d => Some (if neg then - digitsValue d else digitsValue d)
  end.

Definition metadataJson (md : ChunkMetadata) : json :=
  JObj [(js "documentId", JStr (md_documentId md));
        (js "index", JInt (Z.of_nat (md_index md)));
        (js "title", JStr (md_title md));
        (js "position", JStr (md_position md))].

Definition resultJson (r : SearchResult) : json :=
  JObj [(js "content", JStr (r_content r));
        (js "documentId", JStr (r_documentId r));
        (js "documentTitle", JStr (r_documentTitle r));
        (js "similarity", JNum (r_similarity r));
        (js "metadata", metadataJson (r_metadata r))].

Section Handlers.
Variable toLowerCase : jsstring -> jsstring.
Variable splitText : jsstring -> list jsstring.
Variable numberToString : number -> jsstring.
Variable extractEntities : jsstring -> list Entity.
(** [extractAndAnalyzeData(documents)] of [utils/dataAnalysis]. *)
Variable extractAndAnalyzeData : list Document -> result Thrown json.
Variable env : Env.
Variable db : Store.

(** [GET /api/search]: [query] and [limitParam] are the values of
    [searchParams.get], [None] for [null]; a [NaN] limit selects no
    element in [slice], like [0]. *)
Definition search_GET_body (query limitParam : option jsstring) : M Response :=
    (match query with
     | Some (c :: q) =>
         let limit :=
           match limitParam with
           | Some (d :: l) => default 0 (parseInt (d :: l))
           | _ => 5
           end in
         results ← semanticSearch splitText env db (c :: q) limit;
         mret (respond (JObj [(js "results", JArr (List.map resultJson results))]))
     | _ => mret (respondWith 400 (errorBody (js "Query parameter is required")))
     end).

Definition search_GET (query limitParam : option jsstring) : M Response :=
  tryCatch (search_GET_body query limitParam)
    (fun error =>
       mret (respondWith 500
               (errorBody (orElse (message error)
                             (js "An error occurred during semantic search"))))).

(** [POST /api/search]: [body] is the outcome of [request.json()] reduced to
    its [action] field. *)
Definition search_POST_body (body : result Thrown (option jsstring)) : M Response :=
    (action ← lift body;
     if bool_decide (action = Some (js "process_all")) then
       processedCount ← processAllDocuments splitText db;
       mret (respond
               (JObj [(js "success", JBool true);
                      (js "message",
                       JStr (js "Successfully processed " ++ ofNat processedCount
                               ++ js " documents for vector search"));
                      (js "processedCount", JInt (Z.of_nat processedCount))]))
     else
       mret (respondWith 400
               (errorBody (js "Invalid action. Supported actions: process_all")))).

Definition search_POST (body : result Thrown (option jsstring)) : M Response :=
  tryCatch (search_POST_body body)
    (fun error =>
       mret (respondWith 500
               (errorBody (orElse (message error)
                             (js "An error occurred during search operation"))))).

Definition councilTaxKeywords : list jsstring :=
  List.map js
    ["council tax"; "tax increase"; "tax rate"; "local authority"; "political control";
     "labour council"; "conservative council"; "lib dem council"; "raise council tax";
     "council tax comparison"; "average council tax"]%string.

Definition isCouncilTaxQuery (query : jsstring) : bool :=
  existsb (fun keyword => includes (toLowerCase query) (toLowerCase keyword))
    councilTaxKeywords.

(** The parsed body of the multi-document RAG request. *)
Record RagBody : Type :=
  { rb_query : option jsstring; rb_limit : option Z; rb_performAnalysis : bool }.

(** [POST] of the multi-document RAG route: a failure of the data analysis
    is logged and ignored; [limit || 10] replaces an absent or zero limit. *)
Definition rag_POST_body (body : result Thrown RagBody) : M Response :=
    (b ← lift body;
     match rb_query b with
     | Some (c :: q) =>
         let query := c :: q in
         let documentLimit :=
           match rb_limit b with
           | Some 0 | None => 10
           | Some l => l
           end in
         let shouldAnalyze := rb_performAnalysis b || isCouncilTaxQuery query in
         let analysisResults :=
           if shouldAnalyze then
             match extractAndAnalyzeData (document_findMany db) with
             | Ok r => r
             | Throw _ => JNull
             end
           else JNull in
         response ← multiDocumentRAG toLowerCase splitText numberToString
                      extractEntities env db query documentLimit;
         mret (respond (JObj [(js "response", JStr response);
                              (js "analysisResults", analysisResults);
                              (js "success", JBool true)]))
     | _ => mret (respondWith 400 (errorBody (js "Query parameter is required")))
     end).

Definition rag_POST (body : result Thrown RagBody) : M Response :=
  tryCatch (rag_POST_body body)
    (fun error =>
       mret (respondWith 500
               (errorBody (orElse (message error)
                             (js "An error occurred during multi-document RAG"))))).
End Handlers.

(** *** The documents route: handlers that update the store *)

(** Computations over the store that may throw. *)
Definition DbM (A : Type) : Type := Store -> result Thrown A * Store.

#[global] Instance DbM_ret : MRet DbM := fun A a db => (Ok a, db).
#[global] Instance DbM_bind : MBind DbM := fun A B f x db =>
  match x db with
  | (Ok a, db') => f a db'
  | (Throw e, db') => (Throw e, db')
  end.

Definition dbRead {A} (f : Store -> A) : DbM A := fun db => (Ok (f db), db).
Definition dbWrite (f : Store -> Store) : DbM unit := fun db => (Ok tt, f db).
(** An update that fails leaves the store as it was. *)
Definition dbTry (f : Store -> result Thrown Store) : DbM unit :=
  fun db => match f db with
            | Ok db' => (Ok tt, db')
            | Throw e => (Throw e, db)
            end.
Definition dbCatch {A} (body : DbM A) (handler : Thrown -> DbM A) : DbM A :=
  fun db => match body db with
            | (Ok a, db') => (Ok a, db')
            | (Throw e, db') => handler e db'
            end.

(** The loop [for (const chat of document.chats)] of [DELETE]. *)
Fixpoint deleteMessagesOf (cs : list Chat) : DbM unit :=
  match cs with
  | [] => mret tt
  | chat :: rest =>
      _ ← dbWrite (fun db => message_deleteMany db (chat_id chat));
      deleteMessagesOf rest
  end.

(** [DELETE /api/documents?id=...]: [id] is the value of
    [searchParams.get('id')]. *)
Definition documents_DELETE_body (id : option jsstring) : DbM Response :=
    (match id with
     | Some (c :: i) =>
         let id := c :: i in
         found ← dbRead (fun db => document_findUnique db id);
         match found with
         | None => mret (respondWith 404 (errorBody (js "Document not found")))
         | Some _ =>
             document_chats ← dbRead (fun db => chatsOf db id);
             _ ← match document_chats with
                 | [] => mret tt
                 | _ =>
                     _ ← deleteMessagesOf document_chats;
                     dbTry (fun db => chat_deleteMany db id)
                 end;
             _ ← dbTry (fun db => document_delete db id);
             mret (respond (JObj [(js "success", JBool true);
                                  (js "message", JStr (js "Document deleted successfully"))]))
         end
     | _ => mret (respondWith 400 (errorBody (js "Document ID is required")))
     end).

Definition documents_DELETE (id : option jsstring) : DbM Response :=
  dbCatch (documents_DELETE_body id)
    (fun error =>
       mret (respondWith 500
               (errorBody (js "Failed to delete document: "
                             ++ default (js "undefined") (message error))))).

(** [PATCH /api/documents?id=...&folder=...]: [id] and [folder] are the
    values of [searchParams.get]. *)
Definition documents_PATCH_body (id folder : option jsstring) : DbM Response :=
  match id, folder with
  | Some (c :: i), Some (f :: fs) =>
      found ← dbRead (fun db => document_findUnique db (c :: i));
      match found with
      | None => mret (respondWith 404 (errorBody (js "Document not found")))
      | Some _ =>
          _ ← dbTry (fun db => document_update_folder db (c :: i) (f :: fs));
          mret (respond (JObj [(js "message",
                                JStr (js "Document folder updated successfully"))]))
      end
  | _, _ => mret (respondWith 400 (errorBody (js "Document ID and folder are required")))
  end.

Definition documents_PATCH (id folder : option jsstring) : DbM Response :=
  dbCatch (documents_PATCH_body id folder)
    (fun _ => mret (respondWith 500 (errorBody (js "Failed to update document folder")))).

(** The uploaded file and the libraries that read it, as far as the upload
    handler observes them. *)
Record File : Type := { f_name : jsstring; f_text : jsstring }.

Record UploadEnv : Type :=
  { formData_file : result Thrown (option File);
    mammoth_extractRawText : File -> result Thrown jsstring;
    xlsx_toCsv : File -> result Thrown jsstring;
    convertToMarkdown : File -> jsstring -> result Thrown jsstring;
    extractMetadata : File -> jsstring -> result Thrown (option jsstring);
    cuid : Store -> jsstring }.

Definition documentJson (d : Document) : json :=
  JObj [(js "id", JStr (doc_id d)); (js "title", JStr (doc_title d));
        (js "content", JStr (doc_content d)); (js "markdown", JStr (doc_markdown d));
        (js "metadata", match doc_metadata d with Some m => JStr m | None => JNull end);
        (js "folder", match doc_folder d with Some f => JStr f | None => JNull end);
        (js "isEmbedded", JBool (doc_isEmbedded d))].

Section Upload.
Variable toLowerCase : jsstring -> jsstring.
Variable up : UploadEnv.

(** [file.name.split('.').pop()?.toLowerCase()] *)
Definition fileTypeOf (file : File) : jsstring :=
  toLowerCase (List.last (split (f_name file) (js ".")) []).

(** Text extraction: a failure of the Word or spreadsheet reader falls back
    to [buffer.toString()]. *)
Definition contentOf (file : File) : jsstring :=
  let fileType := fileTypeOf file in
  if str_eqb fileType (js "docx") || str_eqb fileType (js "doc") then
    match mammoth_extractRawText up file with
    | Ok v => v
    | Throw _ => f_text file
    end
  else if str_eqb fileType (js "ods") || str_eqb fileType (js "xlsx")
          || str_eqb fileType (js "xls") then
    match xlsx_toCsv up file with
    | Ok v => v
    | Throw _ => f_text file
    end
  else f_text file.

(** [POST /api/documents] *)
Definition documents_POST_body : DbM Response :=
    (file ← (fun db => (formData_file up, db));
     match file with
     | None => mret (respondWith 400 (errorBody (js "No file provided")))
     | Some file =>
         let content := contentOf file in
         match content with
         | [] =>
             mret (respondWith 400
                     (errorBody (js "File appears to be empty or could not be processed")))
         | _ =>
             markdown ← (fun db => (convertToMarkdown up file content, db));
             metadata ← (fun db => (extractMetadata up file content, db));
             id ← dbRead (cuid up);
             let document :=
               {| doc_id := id; doc_title := f_name file; doc_content := content;
                  doc_markdown := markdown; doc_metadata := metadata;
                  doc_folder := Some (js "Unclassified"); doc_isEmbedded := false |} in
             _ ← dbWrite (fun db =>
                            {| documents := documents db ++ [document];
                               chats := chats db; messages := messages db;
                               chunks := chunks db |});
             mret (respond (JObj [(js "document", documentJson document)]))
         end
     end).

Definition documents_POST : DbM Response :=
  dbCatch documents_POST_body
    (fun _ => mret (respondWith 500 (errorBody (js "Failed to process document")))).
End Upload.

End Routes.
Import Routes.

(** ** Council-tax comparison (councilTaxAnalysis.ts) *)
Module CouncilTax.

Record CouncilTaxData : Type :=
  { authority : jsstring;
    politicalControl : jsstring;
    taxRate : number;
    percentageChange : number;
    year : jsstring;
    authorityType : jsstring }.

Record DebugInfo : Type :=
  { documentsAnalyzed : nat;
    documentTitles : list jsstring;
    politicalControlFound : bool;
    councilTaxDocFound : bool;
    totalEntriesExtracted : nat }.

(** The [debug] field: the record of [analyzeCouncilTaxData], or the one the
    fallback returns with the sample rows. *)
Inductive Debug : Type :=
| AnalysisDebug (info : DebugInfo)
| SampleDebug (usingSampleData : bool) (realDocumentsAnalyzed : nat) (reason : jsstring).

Record Analysis : Type :=
  { labourAverage : number;
    conservativeAverage : number;
    difference : number;
    higherParty : jsstring;
    labourCount : nat;
    conservativeCount : nat;
    councilData : list CouncilTaxData;
    debug : option Debug }.

(** A JavaScript [Map] from strings to strings: the entries in insertion
    order; [set] on a present key replaces the value in place. *)
Definition jsmap : Type := list (jsstring * jsstring).

Fixpoint mapGet (mp : jsmap) (k : jsstring) : option jsstring :=
  match mp with
  | [] => None
  | (k', v) :: mp' => if str_eqb k' k then Some v else mapGet mp' k
  end.

Definition mapHas (mp : jsmap) (k : jsstring) : bool :=
  match mapGet mp k with Some _ => true | None => false end.

Fixpoint mapSet (mp : jsmap) (k v : jsstring) : jsmap :=
  match mp with
  | [] => [(k, v)]
  | (k', v') :: mp' => if str_eqb k' k then (k, v) :: mp' else (k', v') :: mapSet mp' k v
  end.

(** The percentage pattern of line 136: group 1 is a run of [\w], [\s],
    comma, ampersand, apostrophe or hyphen; then a comma or [\s+]; group 2 is
    [\d+(?:\.\d+)?]; then a percent sign. *)
Definition percentageRegex : regex :=
  Seq (Group 1 (Plus (Chr (fun c =>
         isWordChar c || isWhiteSpace c
         || (c =? 44)%N || (c =? 38)%N || (c =? 39)%N || (c =? 45)%N))))
 (Seq (Alt (Lit 44%N) (Plus (Chr isWhiteSpace)))
 (Seq (Group 2 (Seq (Plus (Chr isDigit)) (Opt (Seq (Lit 46%N) (Plus (Chr isDigit))))))
      (Lit 37%N))).

(** [/council|borough|district|county|unitary|metropolitan/gi] *)
Definition authorityWordRegex : regex :=
  Alt (StrI (js "council")) (Alt (StrI (js "borough")) (Alt (StrI (js "district"))
  (Alt (StrI (js "county")) (Alt (StrI (js "unitary")) (StrI (js "metropolitan")))))).

(** The tax-rate pattern of line 179: a pound sign, then group 1,
    [[\d,]+(?:\.\d+)?]. *)
Definition taxRateRegex : regex :=
  Seq (Lit POUND)
      (Group 1 (Seq (Plus (Chr (fun c => isDigit c || (c =? 44)%N)))
                    (Opt (Seq (Lit 46%N) (Plus (Chr isDigit)))))).

#[local] Set Warnings "-inexact-float".
Definition sampleRow (a p : string) (t c : number) (ty : string) : CouncilTaxData :=
  {| authority := js a; politicalControl := js p; taxRate := t; percentageChange := c;
     year := js "2025-2026"; authorityType := js ty |}.

Definition loadSampleCouncilTaxData : list CouncilTaxData :=
  [ sampleRow "Manchester" "Labour" 1850.25 4.99 "Metropolitan District";
    sampleRow "Birmingham" "Labour" 1795.80 4.75 "Metropolitan District";
    sampleRow "Surrey" "Conservative" 2050.40 3.99 "County";
    sampleRow "Buckinghamshire" "Conservative" 1980.15 3.50 "County";
    sampleRow "Oxford" "Labour" 1920.30 4.85 "District";
    sampleRow "Windsor and Maidenhead" "Conservative" 2100.75 3.75 "Unitary" ]%float.
#[local] Set Warnings "inexact-float".

(** [rows.reduce((sum, c) => sum + c.percentageChange, 0) / rows.length], or
    [0] for no rows. *)
Definition averageChange (rows : list CouncilTaxData) : number :=
  match rows with
  | [] => 0%float
  | _ =>
      (fold_left (fun sum c => sum + percentageChange c) rows 0
       / ofBinary (Z.of_nat (length rows)) 0)%float
  end.

Definition isLabour (c : CouncilTaxData) : bool := str_eqb (politicalControl c) (js "Labour").
Definition isConservative (c : CouncilTaxData) : bool :=
  str_eqb (politicalControl c) (js "Conservative").

(** The summary computed from the extracted rows (lines 195-208 and, for the
    sample rows, lines 342-355). *)
Definition summarize (rows : list CouncilTaxData) (dbg : option Debug) : Analysis :=
  let labourCouncils := List.filter isLabour rows in
  let conservativeCouncils := List.filter isConservative rows in
  let labourAverage := averageChange labourCouncils in
  let conservativeAverage := averageChange conservativeCouncils in
  let difference := (labourAverage - conservativeAverage)%float in
  let higherParty := if (0 <? difference)%float then js "Labour" else js "Conservative" in
  {| labourAverage := labourAverage;
     conservativeAverage := conservativeAverage;
     difference := abs difference;
     higherParty := higherParty;
     labourCount := length labourCouncils;
     conservativeCount := length conservativeCouncils;
     councilData := rows;
     debug := dbg |}.

Section Analyze.
Variable toLowerCase : jsstring -> jsstring.

(** One line of the political-control document (lines 87-105). *)
Definition addControlLine (mp : jsmap) (rawLine : jsstring) : jsmap :=
  match trim rawLine with
  | [] => mp
  | line =>
      match List.map trim (split line (js ",")) with
      | authority :: control :: _ =>
          let lc := toLowerCase control in
          if str_eqb lc (js "labour") || str_eqb lc (js "conservative")
             || str_eqb lc (js "tory")
          then mapSet mp (toLowerCase authority)
                 (if str_eqb lc (js "tory") then js "Conservative" else control)
          else mp
      | _ => mp
      end
  end.

Definition politicalControlMapOf (content : jsstring) : jsmap :=
  let lines := split content [NL] in
  let startIndex :=
    if includes (toLowerCase (hd [] lines)) (js "authority") then 1%nat else 0%nat in
  fold_left addControlLine (skipn startIndex lines) [].

(** The partial match of lines 169-175: the first entry, in insertion
    order, whose key contains or is contained in the authority name. *)
Fixpoint partialMatch (entries : jsmap) (name : jsstring) : jsstring :=
  match entries with
  | [] => js "Unknown"
  | (key, value) :: rest =>
      if includes name key || includes key name then value
      else partialMatch rest name
  end.

(** Lines 160-176. *)
Definition findPoliticalControl (politicalControlMap : jsmap) (authority : jsstring)
  : jsstring :=
  if mapHas politicalControlMap (toLowerCase authority)
  then default (js "Unknown") (mapGet politicalControlMap (toLowerCase authority))
  else partialMatch politicalControlMap (toLowerCase authority).

Definition authorityTypeOf (line : jsstring) : jsstring :=
  let l := toLowerCase line in
  if includes l (js "london borough") then js "London Borough"
  else if includes l (js "metropolitan") then js "Metropolitan District"
  else if includes l (js "unitary") then js "Unitary Authority"
  else if includes l (js "county") then js "Shire County"
  else if includes l (js "district") then js "Shire District"
  else js "Unknown".

(** One line of the council-tax document (lines 132-191). *)
Definition extractLine (politicalControlMap : jsmap) (rawLine : jsstring)
  : list CouncilTaxData :=
  match trim rawLine with
  | [] => []
  | line =>
      match exec line percentageRegex 0 with
      | None => []
      | Some pm =>
          let authorityRaw := trim (default [] (group line pm 1)) in
          let percentageChange := parseFloat (default [] (group line pm 2)) in
          let authority := trim (replaceAll authorityRaw authorityWordRegex []) in
          let taxRate :=
            match exec line taxRateRegex 0 with
            | Some tm =>
                parseFloat (replaceAll (default [] (group line tm 1)) (Lit 44%N) [])
            | None => 0%float
            end in
          [ {| authority := authority;
               politicalControl := findPoliticalControl politicalControlMap authority;
               taxRate := taxRate;
               percentageChange := percentageChange;
               year := js "2025-2026";
               authorityType := authorityTypeOf line |} ]
      end
  end.

Definition isPoliticalControlDoc (doc : Document) : bool :=
  includes (toLowerCase (doc_title doc)) (js "political control")
  || includes (toLowerCase (doc_title doc)) (js "council control").

Definition isCouncilTaxDoc (doc : Document) : bool :=
  includes (toLowerCase (doc_title doc)) (js "council tax")
  || includes (toLowerCase (doc_title doc)) (js "tax rate")
  || includes (toLowerCase (doc_title doc)) (js "table_8").

(** [prisma.document.findMany({ where: documentIds ? { id: { in: documentIds } } : {} })] *)
Definition selectDocuments (db : Store) (documentIds : option (list jsstring))
  : list Document :=
  match documentIds with
  | Some ids =>
      List.filter (fun d => existsb (str_eqb (doc_id d)) ids) (document_findMany db)
  | None => document_findMany db
  end.

(** The rows extracted from the selected documents (lines 58-193). *)
Definition extractCouncilTaxData (documents : list Document) : list CouncilTaxData :=
  let politicalControlMap :=
    match List.find isPoliticalControlDoc documents with
    | Some doc => politicalControlMapOf (doc_content doc)
    | None => []
    end in
  match List.find isCouncilTaxDoc documents with
  | Some doc =>
      flat_map (extractLine politicalControlMap) (split (doc_content doc) [NL])
  | None => []
  end.

Definition analyzeCouncilTaxData (db : Store) (documentIds : option (list jsstring))
    (debugMode : bool) : Analysis :=
  let documents := selectDocuments db documentIds in
  let councilTaxData := extractCouncilTaxData documents in
  summarize councilTaxData
    (if debugMode then
       Some (AnalysisDebug
               {| documentsAnalyzed := length documents;
                  documentTitles := List.map doc_title documents;
                  politicalControlFound :=
                    bool_decide (List.find isPoliticalControlDoc documents <> None);
                  councilTaxDocFound :=
                    bool_decide (List.find isCouncilTaxDoc documents <> None);
                  totalEntriesExtracted := length councilTaxData |})
     else None).

Definition analyzeCouncilTaxDataWithFallback (db : Store)
    (documentIds : option (list jsstring)) (useSampleIfEmpty : bool) : Analysis :=
  let result := analyzeCouncilTaxData db documentIds true in
  match councilData result with
  | [] =>
      if useSampleIfEmpty then
        summarize loadSampleCouncilTaxData
          (Some (SampleDebug true
                   match debug result with
                   | Some (AnalysisDebug d) => documentsAnalyzed d
                   | _ => 0%nat
                   end
                   (js "No council tax data found in actual documents")))
      else result
  | _ => result
  end.
End Analyze.

End CouncilTax.
Import CouncilTax.

(** ** Markdown tables (analysisEngine.ts) *)
Module AnalysisEngine.

Section Table.
(** The type of table cells and [String(cell)]. *)
Context {cell : Type} (String_ : cell -> jsstring).

(** [alignments[i] || 'left'], then the four-way branch. *)
Definition alignmentCell (alignments : list jsstring) (i : nat) : jsstring :=
  let align := orElse (nth_error alignments i) (js "left") in
  if str_eqb align (js "left") then js " :--- |"
  else if str_eqb align (js "center") then js " :---: |"
  else if str_eqb align (js "right") then js " ---: |"
  else js " --- |".

Definition rowLine (cells : list jsstring) : jsstring :=
  js "| " ++ join (js " | ") cells ++ js " |" ++ [NL].

Definition generateMarkdownTable (headers : list jsstring) (rows : list (list cell))
    (alignments : list jsstring) : jsstring :=
  match rows with
  | [] => []
  | _ =>
      rowLine headers
      ++ js "|" ++ concat (List.map (alignmentCell alignments) (seq 0 (length headers)))
      ++ [NL]
      ++ concat (List.map (fun row => rowLine (List.map String_ row)) rows)
  end.
End Table.

End AnalysisEngine.
Import AnalysisEngine.

(** ** CSV to markdown ([convertCsvToMarkdown], documentProcessing.ts) *)
Module Convert.

(** ['| ' + cells.join(' | ') + ' |\n'] *)
Definition csvRow (cells : list jsstring) : jsstring :=
  js "| " ++ join (js " | ") cells ++ js " |" ++ [NL].

Definition convertCsvToMarkdown (csvContent : jsstring) : jsstring :=
  match split (trim csvContent) [NL] with
  | [] => []
  | line0 :: rest =>
      let headers := split line0 (js ",") in
      js "# CSV Data" ++ [NL; NL]
      ++ csvRow headers
      ++ csvRow (List.map (fun _ => js "---") headers)
      ++ concat (List.map (fun line => csvRow (split line (js ","))) rest)
  end.

End Convert.
Import Convert.

(** ** Group comparison ([compareGroups], utils/dataAnalysis) *)
Module DataAnalysis.

Record GroupStats : Type :=
  { gs_average : number; gs_count : nat; gs_values : list number }.

(** The [data] object of a comparison; its first two entries are keyed by
    the names of the groups. *)
Record Comparison : Type :=
  { group1Name : jsstring; group1 : GroupStats;
    group2Name : jsstring; group2 : GroupStats;
    cg_difference : number;
    percentageDifference : number;
    higherGroup : jsstring;
    statisticallySignificant : bool }.

(** [data.reduce((sum, val) => sum + val, 0) / data.length], or [0] for an
    empty array. *)
Definition groupAverage (data : list number) : number :=
  match data with
  | [] => 0%float
  | _ =>
      (fold_left (fun sum val => sum + val) data 0
       / ofBinary (Z.of_nat (length data)) 0)%float
  end.

Definition compareGroups (group1Name : jsstring) (group1Data : list number)
    (group2Name : jsstring) (group2Data : list number) : Comparison :=
  let group1Avg := groupAverage group1Data in
  let group2Avg := groupAverage group2Data in
  let difference := (group1Avg - group2Avg)%float in
  let percentageDifference :=
    if (group2Avg =? 0)%float then 0%float else (difference / group2Avg * 100)%float in
  {| group1Name := group1Name;
     group1 := {| gs_average := group1Avg; gs_count := length group1Data;
                  gs_values := group1Data |};
     group2Name := group2Name;
     group2 := {| gs_average := group2Avg; gs_count := length group2Data;
                  gs_values := group2Data |};
     cg_difference := difference;
     percentageDifference := percentageDifference;
     higherGroup := if (0 <? difference)%float then group1Name else group2Name;
     statisticallySignificant :=
       (1 <? abs difference)%float && (3 <=? length group1Data)%nat
       && (3 <=? length group2Data)%nat |}.

End DataAnalysis.
Import DataAnalysis.

(** ** The Gemini client (utils/geminiClient.ts) *)
Module Gemini.

(** What [generateContent] reads of the response: the block reason and,
    for each candidate, the texts of its parts. *)
Record GeminiResponse : Type :=
  { blockReason : option jsstring; candidates : list (list jsstring) }.

(** The outcome of [axios.post]: a response; an axios error that carries a
    response, with its status printed and its data serialized; or any other
    thrown value. *)
Inductive PostOutcome : Type :=
| PostOk (response : GeminiResponse)
| PostAxiosError (status data : jsstring)
| PostThrow (error : Thrown).

Definition noResponseGenerated : jsstring := js "No response generated".
Definition placeholderKey : jsstring := js "your_gemini_api_key_here".

Section Client.
(** [axios.post] for the combined prompt, the temperature and
    [maxOutputTokens]. *)
Variable post : jsstring -> number -> Z -> PostOutcome.

Definition generateContent (systemPrompt userPrompt : jsstring) (temperature : number)
    (maxOutputTokens : Z) : result Thrown jsstring :=
  let combinedPrompt := systemPrompt ++ [NL; NL] ++ userPrompt in
  match post combinedPrompt temperature maxOutputTokens with
  | PostOk response =>
      match blockReason response with
      | Some (c :: reason) =>
          Throw (Error (js "Gemini blocked the request: " ++ c :: reason))
      | _ =>
          match candidates response with
          | parts :: _ => Ok (join [] parts)
          | [] => Ok noResponseGenerated
          end
      end
  | PostAxiosError status data =>
      Throw (Error (js "Gemini API error (" ++ status ++ js "): " ++ data))
  | PostThrow error => Throw error
  end.
End Client.

(** [createGeminiClient()]: no client without a key or with the placeholder;
    the client keeps the trimmed key. *)
Definition createGeminiClient (GEMINI_API_KEY : option jsstring) : option jsstring :=
  match GEMINI_API_KEY with
  | Some (c :: key) =>
      if str_eqb (c :: key) placeholderKey then None else Some (trim (c :: key))
  | _ => None
  end.

#[local] Set Warnings "-inexact-float".
(** The temperature [0.2] that [multiDocumentRAG] passes. *)
Definition ragTemperature : number := 0.2%float.
#[local] Set Warnings "inexact-float".

(** The client as [multiDocumentRAG] uses it: [getGemini()] and the call
    [gemini.generateContent(systemMessage, userMessage, 0.2, 2048)]; the
    request made when the trace has [t] events is answered by [post t]. *)
Definition geminiClientOf (GEMINI_API_KEY : option jsstring)
    (post : nat -> jsstring -> number -> Z -> PostOutcome)
  : option (nat -> jsstring -> jsstring -> result Thrown jsstring) :=
  match createGeminiClient GEMINI_API_KEY with
  | Some _ =>
      Some (fun t systemMessage userMessage =>
              generateContent (post t) systemMessage userMessage ragTemperature 2048)
  | None => None
  end.

End Gemini.
Import Gemini.

(* ===================================================================== *)
(** * Part II: the vocabulary of the properties, and worked data           *)
(* ===================================================================== *)

(** ** Numeric extraction *)

Definition pound10 : jsstring := [POUND] ++ js "10".

Definition pound20 : jsstring := [POUND] ++ js "20".

(** The test's assertions on a list of extracted entries. *)
Definition contextsSeparated {M : Type} (results : list (@NumericalDatum M)) : Prop :=
  length results = 2%nat
  /\ option_map (fun r => includes (context r) pound10) (results !! 0%nat) = Some true
  /\ option_map (fun r => includes (context r) pound20) (results !! 0%nat) = Some false
  /\ option_map (fun r => includes (context r) pound20) (results !! 1%nat) = Some true.

(** [t] occurs in [s] at offset [i]. *)
Definition occursAt (s t : jsstring) (i : nat) : Prop :=
  (i + length t <= length s)%nat /\ firstn (length t) (skipn i s) = t.

(** [i] is the offset of the first occurrence of [t] in [s]. *)
Definition firstOccurrenceAt (s t : jsstring) (i : nat) : Prop :=
  occursAt s t i /\ forall j : nat, (j < i)%nat -> ~ occursAt s t j.

(** [context] is the window of [content] around the occurrence of
    [matchText] at offset [index]: the text itself between the (at most) 100
    code units that precede it and the (at most) 100 that follow it. *)
Definition windowAt (content matchText : jsstring) (index : nat) (context : jsstring)
  : Prop :=
  exists before pre post after : jsstring,
    content = before ++ pre ++ matchText ++ post ++ after
    /\ length (before ++ pre) = index
    /\ length pre = Nat.min 100 index
    /\ length post = Nat.min 100 (length content - index - length matchText)
    /\ context = pre ++ matchText ++ post.

(** The matches of the number pattern in the search results, each with the
    result it was found in. *)
Definition numberMatches {M : Type} (searchResults : list (@SearchHit M))
  : list (@SearchHit M * rmatch) :=
  flat_map
    (fun result => List.map (pair result) (matchAll (sh_content result) numberRegex))
    searchResults.

(** Each entry's context is the window around its own match (the compiled
    module), or around the first occurrence of the matched text (the
    TypeScript source). *)
Definition windowsOfMatches {M : Type} (data : list (@NumericalDatum M))
    (searchResults : list (@SearchHit M)) : Prop :=
  Forall2
    (fun datum rx =>
       windowAt (sh_content (fst rx)) (matched (sh_content (fst rx)) (snd rx))
         (mstart (snd rx)) (context datum))
    data (numberMatches searchResults).

Definition windowsOfFirstOccurrences {M : Type} (data : list (@NumericalDatum M))
    (searchResults : list (@SearchHit M)) : Prop :=
  Forall2
    (fun datum rx =>
       exists j : nat,
         (j <= mstart (snd rx))%nat
         /\ firstOccurrenceAt (sh_content (fst rx)) (matched (sh_content (fst rx)) (snd rx)) j
         /\ windowAt (sh_content (fst rx)) (matched (sh_content (fst rx)) (snd rx)) j
              (context datum))
    data (numberMatches searchResults).

(** ** Markdown tables *)

Definition newlineFree (s : jsstring) : Prop := NL ∉ s.

(** [out] is made of exactly [k] lines, each ended by a newline. *)
Definition isLines (k : nat) (out : jsstring) : Prop :=
  exists ls : list jsstring,
    length ls = k /\ Forall newlineFree ls
    /\ out = concat (List.map (fun l => l ++ [NL]) ls).

Definition countNL (s : jsstring) : nat := length (List.filter (N.eqb NL) s).

Section TableLines.
Context {cell : Type} (String_ : cell -> jsstring).

(** The lines of a table, without their final newlines. *)
Definition tableLines (headers : list jsstring) (rows : list (list cell))
    (alignments : list jsstring) : list jsstring :=
  (js "| " ++ join (js " | ") headers ++ js " |")
    :: (js "|" ++ concat (List.map (alignmentCell alignments) (seq 0 (length headers))))
    :: List.map (fun row => js "| " ++ join (js " | ") (List.map String_ row) ++ js " |") rows.
End TableLines.

(** ** Political control by string containment *)

(** [t] occurs in [s]. *)
Definition isSubstringOf (t s : jsstring) : Prop :=
  exists pre post : jsstring, s = pre ++ t ++ post.

(** The rule as the specification words it: an exact key first; failing
    that the first entry, in insertion order, whose key contains or is
    contained in the name; failing that, "Unknown". *)
Inductive controlBySpec (mp : jsmap) (name : jsstring) : jsstring -> Prop :=
| control_exact (v : jsstring) :
    mapGet mp name = Some v -> controlBySpec mp name v
| control_partial (before after : jsmap) (key value : jsstring) :
    mapGet mp name = None ->
    mp = before ++ (key, value) :: after ->
    (forall k v, In (k, v) before -> ~ (isSubstringOf k name \/ isSubstringOf name k)) ->
    isSubstringOf key name \/ isSubstringOf name key ->
    controlBySpec mp name value
| control_unknown :
    mapGet mp name = None ->
    (forall k v, In (k, v) mp -> ~ (isSubstringOf k name \/ isSubstringOf name k)) ->
    controlBySpec mp name (js "Unknown").

Section ControlMap.
Variable toLowerCase : jsstring -> jsstring.

(** The political-control map that [analyzeCouncilTaxData] builds from the
    selected documents. *)
Definition politicalControlMapFor (documents : list Document) : jsmap :=
  match List.find (isPoliticalControlDoc toLowerCase) documents with
  | Some doc => politicalControlMapOf toLowerCase (doc_content doc)
  | None => []
  end.
End ControlMap.

(** *** A political-control document and a council-tax document *)

Definition mkDoc (id title content : jsstring) : Document :=
  {| doc_id := id; doc_title := title; doc_content := content; doc_markdown := content;
     doc_metadata := None; doc_folder := None; doc_isEmbedded := false |}.

Definition controlDoc : Document :=
  mkDoc (js "d1") (js "Political Control 2025.csv")
    (js "Authority,Control" ++ [NL] ++ js "Manchester,Labour" ++ [NL]
     ++ js "Surrey,Tory" ++ [NL] ++ js "Kent,Conservative" ++ [NL] ++ js "Leeds,Green").

Definition taxDoc : Document :=
  mkDoc (js "d2") (js "Council Tax Table_8")
    (js "Manchester City Council, 4.99%, " ++ [POUND] ++ js "1,850.25" ++ [NL]
     ++ js "Surrey County Council 3.99%" ++ [NL] ++ js "West Kent Borough,5%" ++ [NL]
     ++ js "Leeds 2.5%" ++ [NL] ++ js "no number here").

Definition exampleStore : Store :=
  {| documents := [controlDoc; taxDoc]; chats := []; messages := []; chunks := [] |}.

Definition westKentRow : CouncilTaxData :=
  {| authority := js "West Kent"; politicalControl := js "Conservative";
     taxRate := 0%float; percentageChange := 5%float; year := js "2025-2026";
     authorityType := js "Unknown" |}.

(** ** Deleting a document *)

(** The store after the deletion of document [id]: the document, its chats,
    the messages of those chats and (by cascade) its chunk rows are gone. *)
Definition afterDelete (db : Store) (id : jsstring) : Store :=
  {| documents := List.filter (fun d => negb (str_eqb (doc_id d) id)) (documents db);
     chats := List.filter (fun c => negb (str_eqb (chat_documentId c) id)) (chats db);
     messages :=
       List.filter
         (fun m => negb (existsb (fun c => str_eqb (chat_id c) (msg_chatId m)) (chatsOf db id)))
         (messages db);
     chunks := List.filter (fun k => negb (str_eqb (chunk_documentId k) id)) (chunks db) |}.

Definition deleteSuccess : Response :=
  respond (JObj [(js "success", JBool true);
                 (js "message", JStr (js "Document deleted successfully"))]).

(** ** Labour against Conservative *)

(** A number that is neither [NaN] nor negative: [+0], a positive finite
    value or [Infinity]. *)
Definition nonNegative (x : number) : Prop :=
  match Prim2SF x with
  | S754_zero false | S754_finite false _ _ | S754_infinity false => True
  | _ => False
  end.

(** The sign class of a rounded value that is a number. *)
Definition numberSigned (s : bool) (x : spec_float) : Prop :=
  match x with
  | S754_zero s' | S754_finite s' _ _ | S754_infinity s' => s' = s
  | S754_nan => False
  end.

(** An array has fewer than [2^32] elements. *)
Definition arrayLength {A : Type} (l : list A) : Prop := Z.of_nat (length l) < 2 ^ 32.

(** What the summary promises about the comparison. *)
Definition comparisonHolds (a : Analysis) : Prop :=
  let la := labourAverage a in
  let ca := conservativeAverage a in
  difference a = abs (la - ca)
  /\ (difference a <? 0)%float = false
  /\ (is_nan (difference a) = false -> (0 <=? difference a)%float = true)
  /\ (higherParty a = js "Labour" <-> (ca <? la)%float = true)
  /\ (higherParty a = js "Labour" \/ higherParty a = js "Conservative")
  /\ ((la =? ca)%float = true -> higherParty a = js "Conservative")
  /\ (labourCount a = 0%nat -> conservativeCount a = 0%nat ->
      la = 0%float /\ ca = 0%float /\ higherParty a = js "Conservative")
  /\ (arrayLength (councilData a) ->
      nonNegative la /\ nonNegative ca
      /\ (is_nan (difference a) = true <-> la = infinity /\ ca = infinity)).

Definition emptyStore : Store :=
  {| documents := []; chats := []; messages := []; chunks := [] |}.

(** A percentage of 309 digits, which [parseFloat] reads as [Infinity]. *)
Definition hugePercentage : jsstring := repeat 57%N 309 ++ js "%".

Definition overflowStore : Store :=
  {| documents :=
       [ mkDoc (js "d1") (js "political control")
           (js "A,Labour" ++ [NL] ++ js "B,Conservative");
         mkDoc (js "d2") (js "council tax")
           (js "A " ++ hugePercentage ++ [NL] ++ js "B " ++ hugePercentage) ];
     chats := []; messages := []; chunks := [] |}.

(** ** Sorting by similarity *)

Section Comparator.
Context {A : Type} (key : A -> number).

(** The comparator [(a, b) => b.key - a.key]. *)
Definition descending (a b : A) : number := (key b - key a)%float.

(** [a] may stand before [b]: its key is at least [b]'s. *)
Definition keyGe (a b : A) : Prop := (key b <=? key a)%float = true.

Definition keyScaledGe (a b : A) : Prop := fz (key b) <= fz (key a).
End Comparator.

(** ** Semantic search *)

Section SearchVocabulary.
Variable splitText : jsstring -> list jsstring.
Variable env : Env.
Variable db : Store.

Definition keyConfigured : bool :=
  match OPENAI_API_KEY env with
  | Some (_ :: _) => true
  | _ => false
  end.

Definition logged (w : World) (evs : list Event) : World :=
  {| documentChunks := documentChunks w; trace := trace w ++ evs |}.

(** The chunks [createDocumentChunks] stores for an id. *)
Definition chunksFor (id : jsstring) : list ChunkRec :=
  match document_findUnique db id with
  | Some d => buildChunks id (doc_title d) (splitText (doc_content d))
  | None => []
  end.

(** Each scored chunk carries the cosine similarity between the query
    embedding and an embedding the service returned for its text. *)
Definition scoredBy (qe : list number) (s : Scored) : Prop :=
  exists (t : nat) (emb : list number),
    embeddings_create env t (c_content (s_chunk s)) = Ok emb
    /\ s_similarity s = cosineSimilarity qe emb.

Definition embedEvents (chunks : list ChunkRec) : list Event :=
  List.map (fun c => EvEmbed (c_content c)) chunks.

(** The cache after a search over [docs]: every id without an entry gets
    the chunks of its document; entries that exist are kept. *)
Fixpoint fillCache (docs : list (jsstring * jsstring))
    (cache : gmap jsstring (list ChunkRec)) : gmap jsstring (list ChunkRec) :=
  match docs with
  | [] => cache
  | d :: rest =>
      fillCache rest
        (match cache !! fst d with
         | Some _ => cache
         | None => <[fst d := chunksFor (fst d)]> cache
         end)
  end.

(** The events of a search over [docs], one segment per document: the call
    of [createDocumentChunks] when the id has no entry, then one embedding
    request per chunk. *)
Fixpoint segments (docs : list (jsstring * jsstring))
    (cache : gmap jsstring (list ChunkRec)) : list (list Event) :=
  match docs with
  | [] => []
  | d :: rest =>
      match cache !! fst d with
      | Some chunks => embedEvents chunks :: segments rest cache
      | None =>
          (EvCreateChunks (fst d) :: embedEvents (chunksFor (fst d)))
            :: segments rest (<[fst d := chunksFor (fst d)]> cache)
      end
  end.

Definition allChunks (docs : list (jsstring * jsstring))
    (cache : gmap jsstring (list ChunkRec)) : list ChunkRec :=
  flat_map (fun d => default [] (cache !! fst d)) docs.

(** The texts of the embedding requests among some events. *)
Definition embedRequests (evs : list Event) : list jsstring :=
  flat_map (fun ev => match ev with EvEmbed t => [t] | _ => [] end) evs.

Definition storedDocs : list (jsstring * jsstring) :=
  List.map (fun d => (doc_id d, doc_title d)) (document_findMany db).

(** The comparator passed to [sort]. *)
Definition bySimilarity (a b : Scored) : number :=
  (s_similarity b - s_similarity a)%float.

Definition resultGe (r1 r2 : SearchResult) : Prop :=
  (r_similarity r2 <=? r_similarity r1)%float = true.
End SearchVocabulary.

(** *** Two documents and an embedding service *)

Definition splitLines (s : jsstring) : list jsstring := split s [NL].

(** A stand-in for the embedding service: the vector [(1, length)]. *)
Definition lengthEmbedding (text : jsstring) : list number :=
  [1%float; ofBinary (len text) 0].

Definition searchEnv : Env :=
  {| OPENAI_API_KEY := Some (js "sk-test");
     embeddings_create := fun _ text => Ok (lengthEmbedding text);
     chat_completions_create := fun _ _ => Ok (Some (js "answer"));
     gemini_generateContent := None |}.

Definition docA : Document := mkDoc (js "A") (js "a.txt") (js "alpha").

Definition docB : Document := mkDoc (js "B") (js "b.txt") (js "bravo" ++ [NL] ++ js "charlie!").

Definition searchStore : Store :=
  {| documents := [docA; docB]; chats := []; messages := []; chunks := [] |}.

(** The process after an earlier request chunked document A only. *)
Definition warmWorld : World :=
  {| documentChunks := {[ js "A" := buildChunks (js "A") (js "a.txt") [js "alpha"] ]};
     trace := [] |}.

Definition coldWorld : World := {| documentChunks := ∅; trace := [] |}.

(** The reading of C6 in which every call of [createDocumentChunks] precedes
    every chunk embedding (the first event is the embedding of the query). *)
Definition chunkedBeforeAnyScoring (events : list Event) : Prop :=
  forall (pre post : list Event) (id : jsstring),
    tl events = pre ++ EvCreateChunks id :: post -> embedRequests pre = [].

(** An embedding service that answers the zero vector for one text. *)
Definition zeroEnv : Env :=
  {| OPENAI_API_KEY := Some (js "sk-test");
     embeddings_create :=
       fun _ text => Ok (if str_eqb text (js "alpha") then [0%float; 0%float]
                         else lengthEmbedding text);
     chat_completions_create := fun _ _ => Ok (Some (js "answer"));
     gemini_generateContent := None |}.

(** ** Retry on a token-limit error *)

(** What the outer [catch] of [multiDocumentRAG] makes of an error. *)
Definition outerCatch (error : Thrown) : result Thrown jsstring :=
  if isError error && messageIncludes error (js "429")
  then Ok rateLimitText
  else Throw error.

(** The document sections of a context and the share of the budget that
    [truncateContext] grants to each. *)
Definition sections (context : jsstring) : list jsstring :=
  List.filter (fun d => negb (str_eqb d [])) (split context (js "---")).

Definition share (context : jsstring) (maxTokens : Z) : Z :=
  maxTokens / Z.of_nat (length (sections context)).

(** A section with one excerpt: a header that ends in the first marker
    "Content: " and fits the share, and the content behind it, free of
    further markers. *)
Definition singleExcerpt (avgTokensPerDoc : Z) (doc : jsstring) : Prop :=
  exists p0 content : jsstring,
    split doc (js "Content: ") = [p0; content]
    /\ estimateTokenCount (p0 ++ js "Content: ") <= avgTokensPerDoc.

(** The same as a test. *)
Definition isSingleExcerpt (avgTokensPerDoc : Z) (doc : jsstring) : bool :=
  match split doc (js "Content: ") with
  | [p0; content] => estimateTokenCount (p0 ++ js "Content: ") <=? avgTokensPerDoc
  | _ => false
  end.

(** A section after the truncation: as it was, or its header, the
    beginning of its first excerpt within what the share leaves after the
    header, and the mark of the cut. *)
Definition shortened (avgTokensPerDoc : Z) (doc out : jsstring) : Prop :=
  out = doc
  \/ exists p0 content kept cut : jsstring,
       (exists rest, split doc (js "Content: ") = p0 :: content :: rest)
       /\ content = kept ++ cut
       /\ len kept
          <= Z.max 0 (4 * (avgTokensPerDoc - estimateTokenCount (p0 ++ js "Content: ")))
       /\ out = p0 ++ js "Content: " ++ kept ++ js "... [truncated]".

(** What [truncateContext] achieves for a budget of [maxTokens]: a context
    within the budget is kept; otherwise every section is kept or shortened
    and the sections are joined again, and if each section holds one excerpt
    whose header fits the share, the result keeps within the budget up to
    twenty code units for each section. *)
Definition truncatedTo (maxTokens : Z) (context result : jsstring) : Prop :=
  (estimateTokenCount context <= maxTokens -> result = context)
  /\ (maxTokens < estimateTokenCount context ->
      exists pieces : list jsstring,
        Forall2 (shortened (share context maxTokens)) (sections context) pieces
        /\ result = join (js "---" ++ [NL; NL]) pieces)
  /\ (maxTokens < estimateTokenCount context ->
      Forall (singleExcerpt (share context maxTokens)) (sections context) ->
      len result <= 4 * maxTokens + 20 * Z.of_nat (length (sections context))).

(** The request of the single retry. *)
Definition retryRequest (query systemMessage context : jsstring) : ChatRequest :=
  {| req_system := systemMessage;
     req_user := userMessageOf query (truncateContext context 3500)
                   ++ truncatedExcerptsNote |}.

Section RetryOutcome.
Variable env : Env.

(** The outcome of the chat completion with its one conditional retry, in
    a process whose trace has [t] events. *)
Definition retryOutcome (t : nat) (query systemMessage userMessage context : jsstring)
  : result Thrown jsstring * list Event :=
  let req1 := {| req_system := systemMessage; req_user := userMessage |} in
  match chat_completions_create env t req1 with
  | Ok content => (Ok (orElse content noResponse), [EvChat req1])
  | Throw apiError =>
      if messageIncludes apiError (js "Request too large") then
        let req2 := retryRequest query systemMessage context in
        match chat_completions_create env (S t) req2 with
        | Ok content =>
            (Ok (orElse content noResponse ++ reducedContextNote), [EvChat req1; EvChat req2])
        | Throw e => (Throw e, [EvChat req1; EvChat req2])
        end
      else (Throw apiError, [EvChat req1])
  end.
End RetryOutcome.

(** *** Chat services that fail *)

Definition zeroString (x : number) : jsstring := js "0".

Definition noEntities (text : jsstring) : list Entity := [].

(** The chat service rejects the first request (the seventh event of the run
    below) as too large and answers the retry. *)
Definition tooLargeError : Thrown := Error (js "429 Request too large for gpt-4o").

Definition tooLargeEnv : Env :=
  {| OPENAI_API_KEY := Some (js "sk-test");
     embeddings_create := fun _ text => Ok (lengthEmbedding text);
     chat_completions_create :=
       fun t _ => if (t <=? 6)%nat then Throw tooLargeError else Ok (Some (js "answer"));
     gemini_generateContent := None |}.

Definition runRag (env : Env) : result Thrown jsstring * World :=
  multiDocumentRAG asciiLowerCase splitLines zeroString noEntities env searchStore
    (js "hello") 2 coldWorld.

Definition chatCount (w : World) : nat :=
  length (List.filter (fun ev => match ev with EvChat _ => true | _ => false end) (trace w)).

(** The chat service answers every request with a rate-limit error. *)
Definition rateLimitError : Thrown := Error (js "429 Too Many Requests").

Definition rateLimitedEnv : Env :=
  {| OPENAI_API_KEY := Some (js "sk-test");
     embeddings_create := fun _ text => Ok (lengthEmbedding text);
     chat_completions_create := fun _ _ => Throw rateLimitError;
     gemini_generateContent := None |}.

(** Fifty documents of 300 letters, each in one chunk, and a chat service
    that rejects a user message of more than 15000 code units as too
    large. *)
Definition longDoc (i : nat) : Document :=
  mkDoc (js "L" ++ ofNat i) (js "long.txt") (repeat 97%N 300).

Definition longStore : Store :=
  {| documents := List.map longDoc (seq 0 50); chats := []; messages := []; chunks := [] |}.

Definition sizeLimitedEnv : Env :=
  {| OPENAI_API_KEY := Some (js "sk-test");
     embeddings_create := fun _ text => Ok (lengthEmbedding text);
     chat_completions_create :=
       fun _ req => if 15000 <? len (req_user req) then Throw tooLargeError
                    else Ok (Some (js "answer"));
     gemini_generateContent := None |}.

(** The context rendered from the fifty chunks. *)
Definition longContext : jsstring :=
  join [NL; NL]
    (List.map
       (fun _ : nat =>
          js "Document: long.txt (Chunk 1 of 1)" ++ [NL] ++ js "Content: "
            ++ repeat 97%N 300 ++ [NL] ++ js "---")
       (seq 0 50)).

Definition runLong : result Thrown jsstring * World :=
  multiDocumentRAG asciiLowerCase splitLines zeroString noEntities sizeLimitedEnv longStore
    (js "hello") 50 coldWorld.

(** The contexts of the chat requests of a run: what follows the line
    "Document Excerpts:" in each user message. *)
Definition excerptsOf (userMessage : jsstring) : jsstring :=
  skipn (Z.to_nat (len (userMessageOf (js "hello") []))) userMessage.

Definition chatContexts (w : World) : list jsstring :=
  flat_map (fun ev => match ev with
                      | EvChat req => [excerptsOf (req_user req)]
                      | _ => []
                      end) (trace w).

(** ** Errors at the edge of the handlers *)







(** A failed Word extraction falls back to the raw bytes and the upload
    still answers 200. *)
Definition brokenReader : UploadEnv :=
  {| formData_file := Ok (Some {| f_name := js "report.DOCX"; f_text := js "raw bytes" |});
     mammoth_extractRawText := fun _ => Throw (Error (js "not a zip file"));
     xlsx_toCsv := fun _ => Throw (Error (js "unused"));
     convertToMarkdown := fun _ content => Ok (js "# report" ++ [NL] ++ content);
     extractMetadata := fun _ _ => Ok None;
     cuid := fun db => js "doc" ++ ofNat (length (documents db)) |}.

Definition chatStore : Store :=
  {| documents := [docA; docB];
     chats := [ {| chat_id := js "c1"; chat_documentId := js "A" |};
                {| chat_id := js "c2"; chat_documentId := js "B" |};
                {| chat_id := js "c3"; chat_documentId := js "A" |} ];
     messages := [ {| msg_id := js "m1"; msg_chatId := js "c1"; msg_role := js "user";
                      msg_content := js "hi" |};
                   {| msg_id := js "m2"; msg_chatId := js "c2"; msg_role := js "user";
                      msg_content := js "hello" |};
                   {| msg_id := js "m3"; msg_chatId := js "c3"; msg_role := js "assistant";
                      msg_content := js "yes" |} ];
     chunks := [ {| chunk_id := js "k1"; chunk_documentId := js "A"; chunk_content := js "alpha" |} ] |}.

(** ** Cosine similarity *)

(** One turn of the loop of [cosineSimilarity]. *)
Definition cosineStep (vecA vecB : list number)
  : number * number * number -> nat -> number * number * number :=
  fun '(dotProduct, normA, normB) i =>
    let a := nth i vecA nan in
    let b := nth i vecB nan in
    (dotProduct + a * b, normA + a * a, normB + b * b)%float.

(** ** Failures of the search and of the models *)

(** The error of [getOpenAI]. *)
Definition notConfigured : Thrown := Error (js "OpenAI API key is not configured").

(** The failures of a search whose reads of the store succeed: the key is
    missing, or a request to the embedding service failed. *)
Definition searchFailureCause (env : Env) (error : Thrown) : Prop :=
  (keyConfigured env = false /\ error = notConfigured)
  \/ exists (t : nat) (text : jsstring), embeddings_create env t text = Throw error.

(** The events of [processAllDocuments]. *)
Definition createEvents (docs : list Document) : list Event :=
  List.map (fun d => EvCreateChunks (doc_id d)) docs.

(** What the Gemini branch of [multiDocumentRAG] makes of a failure of the
    service. *)
Definition geminiFailure (geminiError : Thrown) : Thrown :=
  Error (js "Error using Gemini API: " ++ orElse (message geminiError) (js "Unknown error")).

(** The status of an outcome and a field of its JSON body. *)
Definition outcomeStatus (res : result Thrown Response) : option Z :=
  match res with
  | Ok r => Some (status r)
  | Throw _ => None
  end.

Definition jsonField (name : jsstring) (b : json) : option json :=
  match b with
  | JObj fields => option_map snd (List.find (fun f => str_eqb (fst f) name) fields)
  | _ => None
  end.

Definition outcomeField (name : jsstring) (res : result Thrown Response) : option json :=
  match res with
  | Ok r => jsonField name (body r)
  | Throw _ => None
  end.

(** *** Services for the worked runs *)

Definition noKeyEnv : Env :=
  {| OPENAI_API_KEY := None;
     embeddings_create := fun _ text => Ok (lengthEmbedding text);
     chat_completions_create := fun _ _ => Ok (Some (js "answer"));
     gemini_generateContent := None |}.

(** An embedding service that is rate limited. *)
Definition embedLimitedEnv : Env :=
  {| OPENAI_API_KEY := Some (js "sk-test");
     embeddings_create := fun _ _ => Throw (Error (js "429 Too Many Requests"));
     chat_completions_create := fun _ _ => Ok (Some (js "answer"));
     gemini_generateContent := None |}.

(** A Gemini client that answers, one whose API is rate limited, and a
    query of 400000 characters. *)
Definition geminiEnv : Env :=
  {| OPENAI_API_KEY := Some (js "sk-test");
     embeddings_create := fun _ text => Ok (lengthEmbedding text);
     chat_completions_create := fun _ _ => Throw (Error (js "not used"));
     gemini_generateContent := Some (fun _ _ _ => Ok (js "gemini answer")) |}.

Definition limitedPost : nat -> jsstring -> number -> Z -> PostOutcome :=
  fun _ _ _ _ => PostAxiosError (js "429") (js "{}").

Definition limitedGeminiEnv : Env :=
  {| OPENAI_API_KEY := Some (js "sk-test");
     embeddings_create := fun _ text => Ok (lengthEmbedding text);
     chat_completions_create := fun _ _ => Throw (Error (js "not used"));
     gemini_generateContent := geminiClientOf (Some (js "key")) limitedPost |}.

Definition longQuery : jsstring := repeat 97%N (Z.to_nat 400000).

(** ** Numbers found at the first occurrence of their text *)

Definition firstOccurrences (content : jsstring) : Prop :=
  forall x, In x (matchAll content numberRegex) ->
            indexOf content (matched content x) = Z.of_nat (mstart x).

(** ** Newlines inside the cells of a table *)

Definition countNLs (cells : list jsstring) : nat :=
  list_sum (List.map countNL cells).

(** ** The documents route *)

(** The generated id is not empty and no row of the store carries it. *)
Definition freshId (db : Store) (id : jsstring) : Prop :=
  id <> []
  /\ (forall d, In d (documents db) -> doc_id d <> id)
  /\ (forall c, In c (chats db) -> chat_documentId c <> id)
  /\ (forall k, In k (chunks db) -> chunk_documentId k <> id).

(** An upload of a text file. *)
Definition textUpload : UploadEnv :=
  {| formData_file := Ok (Some {| f_name := js "note.txt"; f_text := js "some text" |});
     mammoth_extractRawText := fun _ => Throw (Error (js "unused"));
     xlsx_toCsv := fun _ => Throw (Error (js "unused"));
     convertToMarkdown := fun _ content => Ok (js "# note" ++ [NL] ++ content);
     extractMetadata := fun _ _ => Ok None;
     cuid := fun db => js "doc" ++ ofNat (length (documents db)) |}.

(** ** The values of a political control *)

Definition knownControl (toLowerCase : jsstring -> jsstring) (v : jsstring) : Prop :=
  v = js "Conservative"
  \/ toLowerCase v = js "labour"
  \/ toLowerCase v = js "conservative".

(* ===================================================================== *)
(** * Part III: theorems                                                   *)
(* ===================================================================== *)

(** ** The order of binary64 values *)

Lemma digits2_size (m : positive) : digits2_pos m = Pos.size m.
Proof. induction m; simpl; congruence. Qed.

Lemma digits2_bounds (m : positive) :
  2 ^ (Zpos (digits2_pos m) - 1) <= Zpos m < 2 ^ Zpos (digits2_pos m).
Proof.
  rewrite digits2_size. split.
  - pose proof (Pos.size_le m) as H.
    assert (H' : 2 ^ Zpos (Pos.size m) <= 2 * Zpos m).
    { rewrite <- Pos2Z.inj_pow. change (2 * Zpos m) with (Zpos m~0). apply Pos2Z.pos_le_pos, H. }
    replace (Zpos (Pos.size m)) with (Z.succ (Zpos (Pos.size m) - 1)) in H' by lia.
    rewrite Z.pow_succ_r in H' by lia. lia.
  - rewrite <- Pos2Z.inj_pow. apply Pos2Z.pos_lt_pos, Pos.size_gt.
Qed.

Lemma bounded_facts (m : positive) (e : Z) :
  bounded prec emax m e = true ->
  -1074 <= e <= 971 /\ Zpos (digits2_pos m) <= 53
  /\ (-1074 < e -> Zpos (digits2_pos m) = 53).
Proof.
  unfold bounded, canonical_mantissa, fexp, SpecFloat.emin, prec, emax.
  rewrite andb_true_iff, Z.eqb_eq, Z.leb_le. lia.
Qed.

Lemma finite_magnitude (m : positive) (e : Z) :
  bounded prec emax m e = true ->
  0 < Zpos m * 2 ^ (e + 1074) < 2 ^ 2100.
Proof.
  intros Hb. apply bounded_facts in Hb as (He & Hd & _).
  pose proof (digits2_bounds m) as [_ Hm].
  assert (Hm' : Zpos m < 2 ^ 53).
  { eapply Z.lt_le_trans; [exact Hm |]. apply Z.pow_le_mono_r; lia. }
  assert (Hp : 0 < 2 ^ (e + 1074)) by (apply Z.pow_pos_nonneg; lia).
  assert (Hq : 2 ^ (e + 1074) <= 2 ^ 2045) by (apply Z.pow_le_mono_r; lia).
  split; [lia |].
  replace (2 ^ 2100) with (2 ^ 55 * 2 ^ 2045) by (rewrite <- Z.pow_add_r by lia; reflexivity).
  assert (2 ^ 53 < 2 ^ 55) by (apply Z.pow_lt_mono_r; lia).
  nia.
Qed.

Lemma finite_compare (m1 m2 : positive) (e1 e2 : Z) :
  bounded prec emax m1 e1 = true -> bounded prec emax m2 e2 = true ->
  match e1 ?= e2 with
  | Lt => Lt
  | Gt => Gt
  | Eq => Pos.compare_cont Eq m1 m2
  end = (Zpos m1 * 2 ^ (e1 + 1074) ?= Zpos m2 * 2 ^ (e2 + 1074)).
Proof.
  intros Hb1 Hb2.
  apply bounded_facts in Hb1 as (He1 & Hd1 & Hn1).
  apply bounded_facts in Hb2 as (He2 & Hd2 & Hn2).
  pose proof (digits2_bounds m1) as [Hl1 Hu1].
  pose proof (digits2_bounds m2) as [Hl2 Hu2].
  assert (Hstep : forall (ma mb : positive) (ea eb : Z),
             -1074 <= ea -> ea < eb -> Zpos ma < 2 ^ 53 -> 2 ^ 52 <= Zpos mb ->
             Zpos ma * 2 ^ (ea + 1074) < Zpos mb * 2 ^ (eb + 1074)).
  { intros ma mb ea eb Ha Hab Hma Hmb.
    assert (Hp : 0 < 2 ^ (ea + 1074)) by (apply Z.pow_pos_nonneg; lia).
    assert (Hq : 2 * 2 ^ (ea + 1074) <= 2 ^ (eb + 1074)).
    { rewrite <- Z.pow_succ_r by lia. apply Z.pow_le_mono_r; lia. }
    change (2 ^ 53) with (2 * 2 ^ 52) in Hma. nia. }
  assert (Hu : forall m : positive, Zpos (digits2_pos m) <= 53 ->
                                    Zpos m < 2 ^ Zpos (digits2_pos m) -> Zpos m < 2 ^ 53).
  { intros m Hd Hm. eapply Z.lt_le_trans; [exact Hm |]. apply Z.pow_le_mono_r; lia. }
  destruct (Z.compare_spec e1 e2) as [-> | Hlt | Hgt].
  - rewrite Pos.compare_cont_spec. cbn [Pos.switch_Eq].
    assert (Hp : 0 < 2 ^ (e2 + 1074)) by (apply Z.pow_pos_nonneg; lia).
    symmetry. destruct (Pos.compare_spec m1 m2) as [-> | Hc | Hc].
    + apply Z.compare_refl.
    + apply Z.compare_lt_iff, Z.mul_lt_mono_pos_r; [exact Hp | exact Hc].
    + apply Z.compare_gt_iff, Z.mul_lt_mono_pos_r; [exact Hp | exact Hc].
  - symmetry. apply Z.compare_lt_iff. apply Hstep; try lia; [auto |].
    rewrite Hn2 in Hl2 by lia. exact Hl2.
  - symmetry. apply Z.compare_gt_iff. apply Hstep; try lia; [auto |].
    rewrite Hn1 in Hl1 by lia. exact Hl1.
Qed.

(** On valid non-NaN floats the IEEE comparison is the comparison of the
    scaled values. *)
Lemma SFcompare_scaled (x y : spec_float) :
  valid_binary x = true -> valid_binary y = true ->
  notNaN x = true -> notNaN y = true ->
  SFcompare x y = Some (scaled x ?= scaled y).
Proof.
  intros Hx Hy Nx Ny.
  destruct x as [sx | sx | | sx mx ex]; try discriminate;
    destruct y as [sy | sy | | sy my ey]; try discriminate;
    cbn [SFcompare scaled valid_binary] in *;
    try pose proof (finite_magnitude _ _ Hx) as Mx;
    try pose proof (finite_magnitude _ _ Hy) as My;
    assert (Hbig : 0 < 2 ^ 2100) by (apply Z.pow_pos_nonneg; lia).
  all: try (destruct sx; try destruct sy; cbn [cond_Zopp]; f_equal; symmetry;
            first [ apply Z.compare_eq_iff; lia
                  | apply Z.compare_lt_iff; lia
                  | apply Z.compare_gt_iff; lia ]; fail).
  all: try (destruct sy; cbn [cond_Zopp]; f_equal; symmetry;
            first [ apply Z.compare_eq_iff; lia
                  | apply Z.compare_lt_iff; lia
                  | apply Z.compare_gt_iff; lia ]; fail).
  (* finite, finite *)
  f_equal. destruct sx, sy; cbn [cond_Zopp].
  - rewrite Z.compare_opp, <- (finite_compare my mx ey ex Hy Hx).
    rewrite (Z.compare_antisym ey ex).
    destruct (ey ?= ex); cbn [CompOpp]; try reflexivity.
    rewrite !Pos.compare_cont_spec. cbn [Pos.switch_Eq].
    rewrite (Pos.compare_antisym mx my). destruct (Pos.compare mx my); reflexivity.
  - symmetry. apply Z.compare_lt_iff. lia.
  - symmetry. apply Z.compare_gt_iff. lia.
  - apply finite_compare; assumption.
Qed.

Lemma shr_1_m (mrs : shr_record) :
  0 <= shr_m mrs -> shr_m (shr_1 mrs) = shr_m mrs / 2.
Proof.
  destruct mrs as [m r s]. cbn [shr_m shr_1]. intros Hm.
  destruct m as [| p | p]; [reflexivity | | lia].
  destruct p as [p | p |]; cbn [shr_m].
  - rewrite Pos2Z.inj_xI. apply Z.div_unique with 1; lia.
  - rewrite Pos2Z.inj_xO. apply Z.div_unique with 0; lia.
  - reflexivity.
Qed.

Lemma iter_shr_m (q : positive) (mrs : shr_record) :
  0 <= shr_m mrs ->
  shr_m (iter_pos shr_1 q mrs) = shr_m mrs / 2 ^ Zpos q.
Proof.
  revert mrs. induction q as [q IH | q IH |]; intros mrs Hm; cbn [iter_pos].
  - assert (H1 : 0 <= shr_m (shr_1 mrs)) by (rewrite shr_1_m by lia; apply Z.div_pos; lia).
    assert (H2 : 0 <= shr_m (iter_pos shr_1 q (shr_1 mrs)))
      by (rewrite IH by lia; apply Z.div_pos; [lia | apply Z.pow_pos_nonneg; lia]).
    rewrite IH, IH, shr_1_m by lia.
    rewrite !Z.div_div by (try apply Z.pow_pos_nonneg; lia).
    f_equal. rewrite Pos2Z.inj_xI, <- Z.pow_add_r, <- Z.pow_succ_r by lia. f_equal. lia.
  - assert (H2 : 0 <= shr_m (iter_pos shr_1 q mrs))
      by (rewrite IH by lia; apply Z.div_pos; [lia | apply Z.pow_pos_nonneg; lia]).
    rewrite IH, IH by lia.
    rewrite !Z.div_div by (try apply Z.pow_pos_nonneg; lia).
    f_equal. rewrite Pos2Z.inj_xO, <- Z.pow_add_r by lia. f_equal. lia.
  - rewrite shr_1_m by lia. reflexivity.
Qed.

Lemma shr_record_of_loc_m (m : Z) (l : location) : shr_m (shr_record_of_loc m l) = m.
Proof. destruct l as [| []]; reflexivity. Qed.

(** Shifting a positive mantissa to its canonical exponent leaves it
    positive when the exponent is at least [emin]. *)
Lemma shr_fexp_pos (p : positive) (e : Z) (l : location) :
  -1074 <= e ->
  0 < shr_m (fst (shr_fexp prec emax (Zpos p) e l))
  /\ -1074 <= snd (shr_fexp prec emax (Zpos p) e l).
Proof.
  intros He. unfold shr_fexp, shr, fexp, SpecFloat.emin, prec, emax. cbn [Zdigits2].
  pose proof (digits2_bounds p) as [Hl Hu].
  destruct (Z.max (Zpos (digits2_pos p) + e - 53) (3 - 1024 - 53) - e) as [| n | n] eqn:Hn;
    cbn [fst snd]; rewrite ?shr_record_of_loc_m; try lia.
  rewrite iter_shr_m by (rewrite shr_record_of_loc_m; lia).
  rewrite shr_record_of_loc_m. split; [| lia].
  assert (Hn' : Zpos n <= Zpos (digits2_pos p) - 1) by lia.
  apply Z.div_str_pos. split; [apply Z.pow_pos_nonneg; lia |].
  eapply Z.le_trans; [| exact Hl]. apply Z.pow_le_mono_r; lia.
Qed.

Lemma round_nearest_even_pos (m : Z) (l : location) : 0 < m -> 0 < round_nearest_even m l.
Proof.
  intros Hm. destruct l as [| []]; cbn [round_nearest_even]; try lia.
  destruct (Z.even m); lia.
Qed.

Lemma binary_round_aux_weak (s : bool) (m e : Z) (l : location) :
  weaklySigned s (binary_round_aux prec emax s m e l).
Proof.
  unfold binary_round_aux.
  destruct (shr_fexp prec emax m e l) as [mrs' e'].
  destruct (shr_fexp prec emax _ e' loc_Exact) as [mrs'' e''].
  destruct (shr_m mrs'') as [| q | q]; [reflexivity | | exact I].
  destruct (e'' <=? emax - prec); reflexivity.
Qed.

Lemma binary_round_aux_signed (s : bool) (p : positive) (e : Z) (l : location) :
  -1074 <= e -> signed s (binary_round_aux prec emax s (Zpos p) e l).
Proof.
  intros He. unfold binary_round_aux.
  pose proof (shr_fexp_pos p e l He) as [H1 H1e].
  destruct (shr_fexp prec emax (Zpos p) e l) as [mrs' e']. cbn [fst snd] in H1, H1e.
  pose proof (round_nearest_even_pos (shr_m mrs') (loc_of_shr_record mrs') H1) as Hr.
  destruct (round_nearest_even (shr_m mrs') (loc_of_shr_record mrs')) as [| p2 | p2]; try lia.
  pose proof (shr_fexp_pos p2 e' loc_Exact H1e) as [H2 _].
  destruct (shr_fexp prec emax (Zpos p2) e' loc_Exact) as [mrs'' e'']. cbn [fst] in H2.
  destruct (shr_m mrs'') as [| q | q]; try lia.
  destruct (e'' <=? emax - prec); reflexivity.
Qed.

Lemma shl_align_fst (m : positive) (e e' : Z) :
  e' <= e -> Zpos (fst (shl_align m e e')) = Zpos m * 2 ^ (e - e').
Proof.
  intros Hle. unfold shl_align.
  destruct (e' - e) as [| d | d] eqn:Hd; cbn [fst]; try lia.
  - replace (e - e') with 0 by lia. lia.
  - replace (e - e') with (Zpos d) by lia.
    change (Pos.iter xO m d) with (shift_pos d m).
    rewrite shift_pos_correct, Z.pow_pos_fold. lia.
Qed.

Lemma binary_round_weak (s : bool) (p : positive) (e : Z) :
  weaklySigned s (binary_round prec emax s p e).
Proof.
  unfold binary_round. destruct (shl_align p e _) as [mz ez]. apply binary_round_aux_weak.
Qed.

Lemma binary_round_signed (s : bool) (p : positive) (e : Z) :
  -1074 <= e -> signed s (binary_round prec emax s p e).
Proof.
  intros He. unfold binary_round.
  destruct (shl_align p e _) as [mz ez] eqn:Hal.
  apply binary_round_aux_signed.
  unfold shl_align, fexp, SpecFloat.emin, prec, emax in Hal.
  destruct (Z.max (Zpos (digits2_pos p) + e - 53) (3 - 1024 - 53) - e) eqn:Hd;
    injection Hal as _ <-; lia.
Qed.

Lemma SFltb_zero_signed (x : spec_float) :
  signed false x -> SFltb (S754_zero false) x = true.
Proof. destruct x as [| s | | s m e]; cbn; try tauto; intros ->; reflexivity. Qed.

Lemma SFltb_zero_weak (x : spec_float) :
  weaklySigned true x -> SFltb (S754_zero false) x = false.
Proof. destruct x as [s | s | | s m e]; cbn; try tauto; intros ->; reflexivity. Qed.

Lemma binary_normalize_sign (m e : Z) :
  -1074 <= e ->
  SFltb (S754_zero false) (binary_normalize prec emax m e false) = (0 <? m).
Proof.
  intros He. destruct m as [| p | p]; cbn [binary_normalize].
  - reflexivity.
  - apply SFltb_zero_signed, binary_round_signed, He.
  - apply SFltb_zero_weak, binary_round_weak.
Qed.

(** The sign of a difference: [x - y] is positive exactly when [y] is below
    [x]; no difference of two distinct floats rounds to zero. *)
Lemma SFsub_sign (x y : spec_float) :
  valid_binary x = true -> valid_binary y = true ->
  notNaN x = true -> notNaN y = true ->
  SFltb (S754_zero false) (SFsub prec emax x y) = (scaled y <? scaled x).
Proof.
  intros Hx Hy Nx Ny.
  assert (Hbig : 0 < 2 ^ 2100) by (apply Z.pow_pos_nonneg; lia).
  destruct x as [sx | sx | | sx mx ex]; try discriminate;
    destruct y as [sy | sy | | sy my ey]; try discriminate;
    cbn [SFsub scaled valid_binary] in *;
    try pose proof (finite_magnitude _ _ Hx) as Mx;
    try pose proof (finite_magnitude _ _ Hy) as My.
  all: try (destruct sx; try destruct sy; cbn [cond_Zopp SFltb SFcompare negb]; symmetry;
            first [ apply Z.ltb_lt; lia | apply Z.ltb_ge; lia ]; fail).
  all: try (destruct sy; cbn [cond_Zopp SFltb SFcompare negb]; symmetry;
            first [ apply Z.ltb_lt; lia | apply Z.ltb_ge; lia ]; fail).
  (* finite, finite *)
  pose proof (bounded_facts _ _ Hx) as (Hex & _).
  pose proof (bounded_facts _ _ Hy) as (Hey & _).
  rewrite binary_normalize_sign by lia.
  rewrite !shl_align_fst by lia.
  set (ez := Z.min ex ey).
  assert (Hp : 0 < 2 ^ (ez + 1074)) by (apply Z.pow_pos_nonneg; lia).
  assert (Ex : Zpos mx * 2 ^ (ex + 1074) = Zpos mx * 2 ^ (ex - ez) * 2 ^ (ez + 1074)).
  { rewrite <- Z.mul_assoc, <- Z.pow_add_r by lia. do 2 f_equal. lia. }
  assert (Ey : Zpos my * 2 ^ (ey + 1074) = Zpos my * 2 ^ (ey - ez) * 2 ^ (ez + 1074)).
  { rewrite <- Z.mul_assoc, <- Z.pow_add_r by lia. do 2 f_equal. lia. }
  rewrite Ex, Ey.
  generalize (Zpos mx * 2 ^ (ex - ez)) (Zpos my * 2 ^ (ey - ez)). intros a b.
  destruct sx, sy; cbn [cond_Zopp];
    destruct (Z.ltb_spec 0 (- a - - b)), (Z.ltb_spec (- b * 2 ^ (ez + 1074)) (- a * 2 ^ (ez + 1074)));
    try reflexivity; try nia.
  all: destruct (Z.ltb_spec 0 (a - - b)), (Z.ltb_spec (- b * 2 ^ (ez + 1074)) (a * 2 ^ (ez + 1074)));
    try reflexivity; try nia.
  all: destruct (Z.ltb_spec 0 (- a - b)), (Z.ltb_spec (b * 2 ^ (ez + 1074)) (- a * 2 ^ (ez + 1074)));
    try reflexivity; try nia.
  all: destruct (Z.ltb_spec 0 (a - b)), (Z.ltb_spec (b * 2 ^ (ez + 1074)) (a * 2 ^ (ez + 1074)));
    try reflexivity; try nia.
Qed.

(** *** Primitive floats *)

Lemma Prim2SF_notNaN (x : float) : notNaN (Prim2SF x) = negb (is_nan x).
Proof.
  unfold Prim2SF. destruct (is_nan x); [reflexivity |]. cbn [negb].
  destruct (is_zero x); [reflexivity |]. destruct (is_infinity x); [reflexivity |].
  destruct (Z.frexp x) as [r ex].
  destruct (shr_fexp _ _ _ _ _) as [sh e']. destruct (shr_m sh); reflexivity.
Qed.

Lemma Prim2SF_nan (x : float) : is_nan x = true -> Prim2SF x = S754_nan.
Proof. intros H. unfold Prim2SF. rewrite H. reflexivity. Qed.

Lemma SFcompare_nan_r (x : spec_float) : SFcompare x S754_nan = None.
Proof. destruct x; reflexivity. Qed.

Lemma ltb_fz (x y : float) :
  is_nan x = false -> is_nan y = false -> (x <? y)%float = (fz x <? fz y).
Proof.
  intros Nx Ny. rewrite ltb_spec. unfold SFltb, fz.
  rewrite SFcompare_scaled
    by (try apply Prim2SF_valid; rewrite Prim2SF_notNaN, ?Nx, ?Ny; reflexivity).
  unfold Z.ltb. destruct (scaled (Prim2SF x) ?= scaled (Prim2SF y)); reflexivity.
Qed.

Lemma leb_fz (x y : float) :
  is_nan x = false -> is_nan y = false -> (x <=? y)%float = (fz x <=? fz y).
Proof.
  intros Nx Ny. rewrite leb_spec. unfold SFleb, fz.
  rewrite SFcompare_scaled
    by (try apply Prim2SF_valid; rewrite Prim2SF_notNaN, ?Nx, ?Ny; reflexivity).
  unfold Z.leb. destruct (scaled (Prim2SF x) ?= scaled (Prim2SF y)); reflexivity.
Qed.

Lemma ltb_nan_l (x y : float) : is_nan x = true -> (x <? y)%float = false.
Proof. intros H. rewrite ltb_spec, (Prim2SF_nan x H). reflexivity. Qed.

Lemma ltb_nan_r (x y : float) : is_nan y = true -> (x <? y)%float = false.
Proof.
  intros H. rewrite ltb_spec, (Prim2SF_nan y H). unfold SFltb.
  rewrite SFcompare_nan_r. reflexivity.
Qed.

Lemma SFsub_nan_r (x : spec_float) : SFsub prec emax x S754_nan = S754_nan.
Proof. destruct x; reflexivity. Qed.

(** [x - y > 0] holds exactly when [x > y], for all binary64 values. *)
Lemma sub_pos_iff_gt (x y : float) : (0 <? x - y)%float = (y <? x)%float.
Proof.
  destruct (is_nan x) eqn:Nx; [| destruct (is_nan y) eqn:Ny].
  - rewrite (ltb_nan_r y x Nx), ltb_spec, sub_spec, (Prim2SF_nan x Nx). reflexivity.
  - rewrite (ltb_nan_l y x Ny), ltb_spec, sub_spec, (Prim2SF_nan y Ny).
    unfold SF64sub. rewrite SFsub_nan_r. unfold SFltb. rewrite SFcompare_nan_r. reflexivity.
  - rewrite (ltb_fz y x Ny Nx), ltb_spec, sub_spec. unfold fz.
    change (Prim2SF 0) with (S754_zero false).
    apply SFsub_sign; try apply Prim2SF_valid; rewrite Prim2SF_notNaN, ?Nx, ?Ny; reflexivity.
Qed.

Lemma abs_nonneg (x : float) : is_nan x = false -> (0 <=? abs x)%float = true.
Proof.
  intros Nx. rewrite leb_spec, abs_spec. change (Prim2SF 0) with (S754_zero false).
  pose proof (Prim2SF_notNaN x) as Hn. rewrite Nx in Hn.
  destruct (Prim2SF x) as [s | s | | s m e]; try discriminate; reflexivity.
Qed.

Lemma abs_not_negative (x : float) : (abs x <? 0)%float = false.
Proof.
  rewrite ltb_spec, abs_spec. change (Prim2SF 0) with (S754_zero false).
  destruct (Prim2SF x) as [s | s | | s m e]; reflexivity.
Qed.

(** *** Numbers that are not negative *)

Lemma shr_nonneg (mrs : shr_record) (e n : Z) :
  0 <= shr_m mrs -> 0 <= shr_m (fst (shr mrs e n)) <= shr_m mrs.
Proof.
  intros Hm. unfold shr. destruct n as [| p | p]; cbn [fst]; try lia.
  rewrite iter_shr_m by exact Hm.
  assert (Hp : 0 < 2 ^ Zpos p) by (apply Z.pow_pos_nonneg; lia).
  split; [apply Z.div_pos; lia |]. apply Z.div_le_upper_bound; nia.
Qed.

Lemma shr_fexp_nonneg (m e : Z) (l : location) :
  0 <= m -> 0 <= shr_m (fst (shr_fexp prec emax m e l)) <= m.
Proof.
  intros Hm. unfold shr_fexp.
  pose proof (shr_nonneg (shr_record_of_loc m l) e
                (fexp prec emax (Zdigits2 m + e) - e)) as H.
  rewrite shr_record_of_loc_m in H. auto.
Qed.

Lemma round_nearest_even_bounds (m : Z) (l : location) :
  0 <= m -> m <= round_nearest_even m l <= m + 1.
Proof.
  intros Hm. destruct l as [| []]; cbn [round_nearest_even]; try lia.
  destruct (Z.even m); lia.
Qed.

Lemma binary_round_aux_number (s : bool) (m e : Z) (l : location) :
  0 <= m -> numberSigned s (binary_round_aux prec emax s m e l).
Proof.
  intros Hm. unfold binary_round_aux.
  pose proof (shr_fexp_nonneg m e l Hm) as H1.
  destruct (shr_fexp prec emax m e l) as [mrs' e']. cbn [fst] in H1.
  pose proof (round_nearest_even_bounds (shr_m mrs') (loc_of_shr_record mrs')
                ltac:(lia)) as Hr.
  pose proof (shr_fexp_nonneg (round_nearest_even (shr_m mrs') (loc_of_shr_record mrs'))
                e' loc_Exact ltac:(lia)) as H2.
  destruct (shr_fexp prec emax _ e' loc_Exact) as [mrs'' e'']. cbn [fst] in H2.
  destruct (shr_m mrs'') as [| q | q]; [reflexivity | | lia].
  destruct (e'' <=? emax - prec); reflexivity.
Qed.

Lemma binary_round_number (s : bool) (p : positive) (e : Z) :
  numberSigned s (binary_round prec emax s p e).
Proof.
  unfold binary_round. destruct (shl_align p e _) as [mz ez].
  apply binary_round_aux_number. lia.
Qed.

Lemma binary_normalize_number (m e : Z) :
  0 <= m -> numberSigned false (binary_normalize prec emax m e false).
Proof.
  intros Hm. destruct m as [| p | p]; cbn [binary_normalize]; [reflexivity | | lia].
  apply binary_round_number.
Qed.

Lemma binary_normalize_notNaN (m e : Z) :
  notNaN (binary_normalize prec emax m e false) = true.
Proof.
  destruct m as [| p | p]; cbn [binary_normalize]; [reflexivity | |].
  - pose proof (binary_round_number false p e) as H.
    destruct (binary_round prec emax false p e); [reflexivity .. | destruct H | reflexivity].
  - pose proof (binary_round_number true p e) as H.
    destruct (binary_round prec emax true p e); [reflexivity .. | destruct H | reflexivity].
Qed.

Lemma nonNegative_numberSigned (x : number) :
  nonNegative x <-> numberSigned false (Prim2SF x).
Proof.
  unfold nonNegative. destruct (Prim2SF x) as [[] | [] | | [] m e]; cbn; intuition congruence.
Qed.

(** The value of [SF2Prim] on a rounded non-negative number. *)
Lemma SF2Prim_nonNegative (y : spec_float) :
  numberSigned false y -> nonNegative (SF2Prim y).
Proof.
  intros Hy. apply nonNegative_numberSigned.
  destruct y as [s | s | | s m e]; cbn in Hy; try subst s; try destruct Hy;
    [reflexivity | reflexivity |].
  cbn [SF2Prim]. rewrite Z_ldexp_spec, of_uint63_spec.
  pose proof (Uint63.to_Z_bounded (Uint63Axioms.of_Z (Zpos m))) as Hb.
  pose proof (binary_normalize_number (Uint63Axioms.to_Z (Uint63Axioms.of_Z (Zpos m))) 0
                ltac:(lia)) as Hn.
  destruct (binary_normalize prec emax _ 0 false) as [s | s | | s m' e'];
    cbn in Hn |- *; try exact Hn.
  subst s. apply binary_round_number.
Qed.

Lemma ofBinary_nonNegative (m e : Z) : 0 <= m -> nonNegative (ofBinary m e).
Proof. intros Hm. apply SF2Prim_nonNegative, binary_normalize_number, Hm. Qed.

Lemma add_nonNegative (x y : number) :
  nonNegative x -> nonNegative y -> nonNegative (x + y)%float.
Proof.
  rewrite !nonNegative_numberSigned, add_spec. unfold SF64add.
  destruct (Prim2SF x) as [sx | sx | | sx mx ex]; cbn [numberSigned]; intros Hx;
    try contradiction; subst sx;
    destruct (Prim2SF y) as [sy | sy | | sy my ey]; cbn [numberSigned]; intros Hy;
    try contradiction; subst sy;
    cbn [SFadd numberSigned]; try reflexivity.
  cbn [cond_Zopp]. apply binary_normalize_number. lia.
Qed.

Lemma div_nonNegative (x y : number) (my : positive) (ey : Z) :
  nonNegative x -> Prim2SF y = S754_finite false my ey -> nonNegative (x / y)%float.
Proof.
  rewrite !nonNegative_numberSigned, div_spec. unfold SF64div. intros Hx ->.
  destruct (Prim2SF x) as [sx | sx | | sx mx ex]; cbn [numberSigned] in Hx;
    try contradiction; subst sx;
    cbn [SFdiv numberSigned xorb]; try reflexivity.
  unfold SFdiv_core_binary.
  set (m' := match _ with 0 => Zpos mx | Zpos _ => _ | Zneg _ => 0 end).
  assert (Hm : 0 <= m').
  { subst m'. destruct (ex - ey - _); [lia | | lia]. apply Z.shiftl_nonneg. lia. }
  pose proof (Z_div_mod m' (Zpos my) ltac:(lia)) as Hd.
  destruct (Z.div_eucl m' (Zpos my)) as [q r].
  apply binary_round_aux_number. nia.
Qed.

Lemma shr_fexp_snd (m e : Z) (l : location) :
  snd (shr_fexp prec emax m e l) = Z.max e (fexp prec emax (Zdigits2 m + e)).
Proof.
  unfold shr_fexp, shr.
  destruct (fexp prec emax (Zdigits2 m + e) - e) as [| p | p] eqn:Hn; cbn [snd]; lia.
Qed.

Lemma Zdigits2_le (m k : Z) : 0 <= m < 2 ^ k -> 0 <= k -> Zdigits2 m <= k.
Proof.
  intros Hm Hk. destruct m as [| p | p]; cbn [Zdigits2]; [lia | | lia].
  pose proof (digits2_bounds p) as [Hl _].
  assert (H : 2 ^ (Zpos (digits2_pos p) - 1) < 2 ^ k) by lia.
  apply Z.pow_lt_mono_r_iff in H; lia.
Qed.

(** An integer below [2^63] rounds to a finite value. *)
Lemma binary_round_integer (p : positive) :
  Zpos p < 2 ^ 63 ->
  exists (m : positive) (e : Z), binary_round prec emax false p 0 = S754_finite false m e.
Proof.
  intros Hp.
  pose proof (binary_round_signed false p 0 ltac:(lia)) as Hs.
  unfold binary_round in Hs |- *.
  pose proof (Zdigits2_le (Zpos p) 63 ltac:(lia) ltac:(lia)) as Hdp. cbn [Zdigits2] in Hdp.
  pose proof (digits2_bounds p) as [_ Hup].
  assert (Hal : Zpos (fst (shl_align p 0 (fexp prec emax (Zpos (digits2_pos p) + 0)))) < 2 ^ 63
                /\ -52 <= snd (shl_align p 0 (fexp prec emax (Zpos (digits2_pos p) + 0))) <= 0).
  { unfold shl_align, fexp, SpecFloat.emin, prec, emax.
    destruct (Z.max (Zpos (digits2_pos p) + 0 - 53) (3 - 1024 - 53) - 0) as [| d | d] eqn:Hd;
      cbn [fst snd]; try lia.
    change (Pos.iter xO p d) with (shift_pos d p).
    rewrite shift_pos_correct, Z.pow_pos_fold. split; [| lia].
    assert (H53 : Zpos p * 2 ^ Zpos d < 2 ^ Zpos (digits2_pos p) * 2 ^ Zpos d).
    { apply Z.mul_lt_mono_pos_r; [apply Z.pow_pos_nonneg; lia | exact Hup]. }
    rewrite <- Z.pow_add_r in H53 by lia.
    rewrite Z.mul_comm.
    eapply Z.lt_le_trans; [exact H53 |]. apply Z.pow_le_mono_r; lia. }
  destruct (shl_align p 0 _) as [mz ez]. cbn [fst snd] in Hal. destruct Hal as [Hmz Hez].
  unfold binary_round_aux in Hs |- *.
  pose proof (shr_fexp_nonneg (Zpos mz) ez loc_Exact ltac:(lia)) as H1.
  pose proof (shr_fexp_snd (Zpos mz) ez loc_Exact) as E1.
  destruct (shr_fexp prec emax (Zpos mz) ez loc_Exact) as [mrs' e']. cbn [fst snd] in H1, E1.
  pose proof (round_nearest_even_bounds (shr_m mrs') (loc_of_shr_record mrs')
                ltac:(lia)) as Hr.
  set (m2 := round_nearest_even (shr_m mrs') (loc_of_shr_record mrs')) in *.
  pose proof (shr_fexp_snd m2 e' loc_Exact) as E2.
  destruct (shr_fexp prec emax m2 e' loc_Exact) as [mrs'' e'']. cbn [snd] in E2.
  pose proof (Zdigits2_le (Zpos mz) 63 ltac:(lia) ltac:(lia)) as D1.
  assert (D2 : Zdigits2 m2 <= 64).
  { apply Zdigits2_le; [| lia]. change (2 ^ 64) with (2 * 2 ^ 63). lia. }
  assert (He : e'' <= emax - prec).
  { unfold fexp, SpecFloat.emin, prec, emax in *. lia. }
  destruct (shr_m mrs'') as [| q | q]; cbn in Hs; try contradiction.
  apply Z.leb_le in He. rewrite He. eauto.
Qed.

(** The number of elements of an array, as a divisor: a finite positive
    value. *)
Lemma ofBinary_count (n : Z) :
  1 <= n < 2 ^ 63 ->
  exists (m : positive) (e : Z), Prim2SF (ofBinary n 0) = S754_finite false m e.
Proof.
  intros Hn. unfold ofBinary.
  assert (Hz : Uint63Axioms.to_Z (Uint63Axioms.of_Z n) = n).
  { rewrite Uint63.of_Z_spec. apply Z.mod_small. change Uint63.wB with (2 ^ 63). lia. }
  replace (binary_normalize prec emax n 0 false)
    with (Prim2SF (of_uint63 (Uint63Axioms.of_Z n)))
    by (rewrite of_uint63_spec, Hz; reflexivity).
  rewrite SF2Prim_Prim2SF, of_uint63_spec, Hz.
  destruct n as [| p | p]; try lia. cbn [binary_normalize].
  apply binary_round_integer. lia.
Qed.

(** ** Regular expressions *)

Section MatcherFacts.
Variable s : jsstring.

(** The matcher returns only what its continuation returned, and the
    continuation is called at an offset that is not before the start and not
    beyond the end of the string. *)
Lemma m_through (r : regex) :
  forall (i : nat) (c : caps) (k : cont) (res : nat * caps),
    m s r i c k = Some res ->
    exists (j : nat) (c' : caps),
      (i <= j)%nat /\ ((i <= length s)%nat -> (j <= length s)%nat) /\ k j c' = Some res.
Proof.
  induction r as [| p | r1 IH1 r2 IH2 | r1 IH1 r2 IH2 | r' IH | n r' IH |];
    intros i c k res H; cbn [m] in H.
  - exists i, c. auto.
  - destruct (nth_error s i) as [ch |] eqn:Hn; [| discriminate].
    destruct (p ch); [| discriminate].
    exists (S i), c. split; [lia |]. split; [| exact H].
    intros _. apply Nat.le_succ_l. apply nth_error_Some. rewrite Hn. discriminate.
  - apply IH1 in H as (j1 & c1 & L1 & B1 & H).
    apply IH2 in H as (j2 & c2 & L2 & B2 & H).
    exists j2, c2. split; [lia |]. split; [auto | exact H].
  - destruct (m s r1 i c k) as [x |] eqn:H1.
    + injection H as <-. apply IH1 in H1. exact H1.
    + apply IH2 in H. exact H.
  - assert (Hloop : forall (fuel j : nat) (c1 : caps),
               (fix loop (fuel : nat) (i : nat) (c : caps) {struct fuel}
                  : option (nat * caps) :=
                  match fuel with
                  | O => k i c
                  | S fuel' =>
                      match m s r' i (clearCaps (groupsOf r') c)
                              (fun j c' => if Nat.eqb j i then None else loop fuel' j c') with
                      | Some x => Some x
                      | None => k i c
                      end
                  end) fuel j c1 = Some res ->
               exists (j' : nat) (c' : caps),
                 (j <= j')%nat /\ ((j <= length s)%nat -> (j' <= length s)%nat)
                 /\ k j' c' = Some res).
    { induction fuel as [| fuel IHf]; intros j c1 Hl.
      - exists j, c1. auto.
      - match type of Hl with
        | match ?body with _ => _ end = _ => destruct body as [x |] eqn:Hb
        end.
        + injection Hl as <-. apply IH in Hb as (j1 & c2 & L1 & B1 & Hb).
          destruct (Nat.eqb j1 j); [discriminate |].
          apply IHf in Hb as (j2 & c3 & L2 & B2 & Hb).
          exists j2, c3. split; [lia |]. split; [auto | exact Hb].
        + exists j, c1. auto. }
    exact (Hloop (S (length s - i)) i c H).
  - apply IH in H as (j & c' & L & B & H). eauto.
  - destruct (xorb _ _); [| discriminate]. exists i, c. auto.
Qed.

Lemma matchAt_bounds (r : regex) (i : nat) (x : rmatch) :
  matchAt s r i = Some x ->
  mstart x = i /\ (i <= mstop x)%nat /\ ((i <= length s)%nat -> (mstop x <= length s)%nat).
Proof.
  unfold matchAt. intros H.
  destruct (m s r i [] _) as [[j c] |] eqn:Hm; [| discriminate].
  injection H as <-. cbn [mstart mstop].
  apply m_through in Hm as (j' & c' & L & B & Hk). injection Hk as <- <-. auto.
Qed.

Lemma searchFrom_matchAt (r : regex) (fuel i : nat) (x : rmatch) :
  searchFrom s fuel r i = Some x ->
  exists j, (i <= j <= i + fuel)%nat /\ matchAt s r j = Some x.
Proof.
  revert i. induction fuel as [| fuel IH]; intros i H; cbn [searchFrom] in H.
  - destruct (matchAt s r i) eqn:Hm; [| discriminate]. injection H as <-.
    exists i. split; [lia | exact Hm].
  - destruct (matchAt s r i) eqn:Hm.
    + injection H as <-. exists i. split; [lia | exact Hm].
    + apply IH in H as (j & Hj & H). exists j. split; [lia | exact H].
Qed.

Lemma exec_matchAt (r : regex) (lastIndex : nat) (x : rmatch) :
  exec s r lastIndex = Some x ->
  exists j, (lastIndex <= j <= length s)%nat /\ matchAt s r j = Some x.
Proof.
  unfold exec. destruct (Nat.ltb_spec (length s) lastIndex); [discriminate |].
  intros Hs. apply searchFrom_matchAt in Hs as (j & Hj & Hs).
  exists j. split; [lia | exact Hs].
Qed.

Lemma exec_bounds (r : regex) (lastIndex : nat) (x : rmatch) :
  exec s r lastIndex = Some x ->
  (lastIndex <= mstart x <= mstop x)%nat /\ (mstop x <= length s)%nat.
Proof.
  intros H. apply exec_matchAt in H as (j & Hj & H).
  apply matchAt_bounds in H as (-> & L & B). lia.
Qed.

Lemma execAll_bounds (r : regex) (fuel lastIndex : nat) (x : rmatch) :
  In x (execAll s fuel r lastIndex) ->
  (lastIndex <= mstart x <= mstop x)%nat /\ (mstop x <= length s)%nat.
Proof.
  revert lastIndex. induction fuel as [| fuel IH]; intros lastIndex H; [destruct H |].
  cbn [execAll] in H. destruct (exec s r lastIndex) as [y |] eqn:He; [| destruct H].
  pose proof (exec_bounds _ _ _ He) as Hy.
  destruct H as [<- | H]; [exact Hy |].
  apply IH in H. destruct (Nat.eqb (mstop y) (mstart y)); lia.
Qed.

Lemma matchAll_bounds (r : regex) (x : rmatch) :
  In x (matchAll s r) -> (mstart x <= mstop x)%nat /\ (mstop x <= length s)%nat.
Proof. intros H. apply execAll_bounds in H. lia. Qed.
End MatcherFacts.

(** ** Numeric extraction *)

Lemma startsWith_firstn (s t : jsstring) :
  startsWith s t = true <-> firstn (length t) s = t.
Proof.
  revert s. induction t as [| b t IH]; intros s; cbn [startsWith length firstn].
  - destruct s; tauto.
  - destruct s as [| a s]; [split; discriminate |]. cbn [startsWith firstn].
    rewrite andb_true_iff, N.eqb_eq, IH. split.
    + intros [-> ->]. reflexivity.
    + intros H. injection H as -> H. rewrite H. auto.
Qed.

Lemma occursAt_startsWith (s t : jsstring) : occursAt s t 0 <-> startsWith s t = true.
Proof.
  unfold occursAt. rewrite startsWith_firstn. cbn [skipn Nat.add]. split; [tauto |].
  intros H. split; [| exact H]. rewrite <- H at 1. rewrite length_firstn. lia.
Qed.

Lemma occursAt_cons (c : N) (s t : jsstring) (i : nat) :
  occursAt (c :: s) t (S i) <-> occursAt s t i.
Proof. unfold occursAt. cbn [length skipn]. split; intros [H1 H2]; split; try lia; exact H2. Qed.

(** [indexOf] returns the offset of the first occurrence. *)
Lemma indexOf_from_first (s t : jsstring) (base : Z) (p : nat) :
  occursAt s t p ->
  exists j : nat,
    (j <= p)%nat /\ indexOf_from s t base = base + Z.of_nat j /\ firstOccurrenceAt s t j.
Proof.
  revert base p. induction s as [| c s IH]; intros base p Hp.
  - assert (p = 0%nat) by (destruct Hp as [Hp _]; cbn [length] in Hp; lia). subst p.
    exists 0%nat. cbn [indexOf_from]. rewrite (proj1 (occursAt_startsWith [] t) Hp).
    split; [lia |]. split; [lia |]. split; [exact Hp | intros j Hj; lia].
  - cbn [indexOf_from]. destruct (startsWith (c :: s) t) eqn:Hs.
    + exists 0%nat. split; [lia |]. split; [lia |].
      split; [apply occursAt_startsWith, Hs | intros j Hj; lia].
    + destruct p as [| p].
      { apply occursAt_startsWith in Hp. congruence. }
      apply occursAt_cons in Hp.
      destruct (IH (base + 1) p Hp) as (j & Hj & Hi & Hocc & Hmin).
      exists (S j). split; [lia |]. split; [lia |]. split; [apply occursAt_cons, Hocc |].
      intros [| j'] Hlt.
      * intros H0. apply occursAt_startsWith in H0. congruence.
      * rewrite occursAt_cons. apply Hmin. lia.
Qed.

Lemma matched_occursAt (s : jsstring) (x : rmatch) :
  (mstart x <= mstop x)%nat -> (mstop x <= length s)%nat ->
  occursAt s (matched s x) (mstart x)
  /\ length (matched s x) = (mstop x - mstart x)%nat.
Proof.
  intros H1 H2. unfold matched, occursAt.
  assert (Hl : length (firstn (mstop x - mstart x) (skipn (mstart x) s))
               = (mstop x - mstart x)%nat).
  { rewrite length_firstn, length_skipn. lia. }
  rewrite Hl. split; [| reflexivity]. split; [lia | reflexivity].
Qed.

Lemma firstn_skipn_middle {A : Type} (a b c : list A) :
  firstn (length b) (skipn (length a) (a ++ b ++ c)) = b.
Proof. rewrite drop_app_length, take_app_length. reflexivity. Qed.

(** The context computed by [datumOf] around an occurrence of the matched
    text is its window. *)
Lemma substring_window (content t : jsstring) (j : nat) :
  occursAt content t j ->
  windowAt content t j
    (substring content (Z.max 0 (Z.of_nat j - 100))
       (Z.min (len content) (Z.of_nat j + len t + 100))).
Proof.
  intros [Hlen Hocc].
  set (rest := skipn (j + length t) content).
  exists (firstn (j - 100) content), (firstn (Nat.min 100 j) (skipn (j - 100) content)),
         (firstn 100 rest), (skipn 100 rest).
  assert (Hsplit : content = firstn (j - 100) content
                             ++ firstn (Nat.min 100 j) (skipn (j - 100) content)
                             ++ t ++ firstn 100 rest ++ skipn 100 rest).
  { rewrite firstn_skipn. subst rest.
    rewrite <- (firstn_skipn (j - 100) content) at 1. f_equal.
    rewrite <- (firstn_skipn (Nat.min 100 j) (skipn (j - 100) content)) at 1. f_equal.
    rewrite skipn_skipn.
    replace (Nat.min 100 j + (j - 100))%nat with j by lia.
    rewrite <- (firstn_skipn (length t) (skipn j content)) at 1. rewrite Hocc. f_equal.
    rewrite skipn_skipn. f_equal. lia. }
  assert (Lpre : length (firstn (Nat.min 100 j) (skipn (j - 100) content)) = Nat.min 100 j).
  { rewrite length_firstn, length_skipn. lia. }
  assert (Lbefore : length (firstn (j - 100) content) = (j - 100)%nat).
  { rewrite length_firstn. lia. }
  assert (Lpost : length (firstn 100 rest) = Nat.min 100 (length content - j - length t)).
  { subst rest. rewrite length_firstn, length_skipn. lia. }
  split; [exact Hsplit |].
  split; [rewrite length_app, Lbefore, Lpre; lia |].
  split; [exact Lpre |]. split; [exact Lpost |].
  set (before := firstn (j - 100) content) in *.
  set (pre := firstn (Nat.min 100 j) (skipn (j - 100) content)) in *.
  set (post := firstn 100 rest) in *.
  set (after := skipn 100 rest) in *.
  unfold substring, len.
  replace (Z.to_nat (Z.min (Z.min (Z.max (Z.max 0 (Z.of_nat j - 100)) 0)
                              (Z.of_nat (length content)))
                       (Z.min (Z.max (Z.min (Z.of_nat (length content))
                                        (Z.of_nat j + Z.of_nat (length t) + 100)) 0)
                          (Z.of_nat (length content)))))
    with (length before) by lia.
  replace (Z.to_nat _) with (length (pre ++ t ++ post)) by (rewrite !length_app; lia).
  rewrite Hsplit.
  pose proof (firstn_skipn_middle before (pre ++ t ++ post) after) as H.
  rewrite <- !app_assoc in H. exact H.
Qed.

Lemma Forall2_map_both {A B C : Type} (P : B -> C -> Prop) (f : A -> B) (g : A -> C)
    (l : list A) :
  (forall x, In x l -> P (f x) (g x)) -> Forall2 P (List.map f l) (List.map g l).
Proof.
  induction l as [| x l IH]; intros H; cbn [List.map]; constructor.
  - apply H. left. reflexivity.
  - apply IH. intros y Hy. apply H. right. exact Hy.
Qed.

Section ExtractWindows.
Variable toLowerCase : jsstring -> jsstring.
Context {M : Type}.

Lemma extractNumericalData_dist_windows (searchResults : list (@SearchHit M)) :
  windowsOfMatches (extractNumericalData_dist toLowerCase searchResults) searchResults.
Proof.
  unfold windowsOfMatches, extractNumericalData_dist, numberMatches.
  induction searchResults as [| result rest IH]; [constructor |].
  cbn [flat_map]. apply Forall2_app; [| exact IH].
  apply Forall2_map_both. intros x Hx. cbn [fst snd].
  apply matchAll_bounds in Hx as [H1 H2].
  unfold datumOf. cbn [context].
  apply substring_window, matched_occursAt; assumption.
Qed.

Lemma extractNumericalData_windows (searchResults : list (@SearchHit M)) :
  windowsOfFirstOccurrences (extractNumericalData toLowerCase searchResults) searchResults.
Proof.
  unfold windowsOfFirstOccurrences, extractNumericalData, numberMatches.
  induction searchResults as [| result rest IH]; [constructor |].
  cbn [flat_map]. apply Forall2_app; [| exact IH].
  unfold matchGlobal.
  destruct (matchAll (sh_content result) numberRegex) as [| x0 l] eqn:Hm; [constructor |].
  rewrite <- Hm, map_map. apply Forall2_map_both. intros x Hx. cbn [fst snd].
  apply matchAll_bounds in Hx as [H1 H2].
  destruct (matched_occursAt _ _ H1 H2) as [Hocc _].
  destruct (indexOf_from_first _ _ 0 _ Hocc) as (j & Hj & Hi & Hfirst).
  exists j. split; [exact Hj |]. split; [exact Hfirst |].
  unfold datumOf. cbn [context]. unfold indexOf. rewrite Hi, Z.add_0_l.
  apply substring_window, Hfirst.
Qed.
End ExtractWindows.

(** C1: on the single search result whose content is "Cost was £10.", 150
    letters a, "Later cost became £20.", [extractNumericalData] returns exactly
    two entries; the first context contains "£10" and not "£20", the second
    contains "£20": the contexts are the first 112 code units of the content
    and the content from offset 81 on.  This holds for the TypeScript source
    and for the compiled module the test loads, whatever the case mapping.
    It is an instance of the rule for all search results: each entry's
    context is the matched text between the (at most) 100 code units before
    it and the (at most) 100 after it, taken around the match itself in the
    compiled module and around the first occurrence of the matched text in
    the source. *)
Theorem extractNumericalData_context_separation (toLowerCase : jsstring -> jsstring) :
  (contextsSeparated (extractNumericalData toLowerCase [buildResult testContent])
   /\ List.map context (extractNumericalData toLowerCase [buildResult testContent])
      = [firstn 112 testContent; skipn 81 testContent])
  /\ (contextsSeparated (extractNumericalData_dist toLowerCase [buildResult testContent])
      /\ List.map context (extractNumericalData_dist toLowerCase [buildResult testContent])
         = [firstn 112 testContent; skipn 81 testContent])
  /\ (forall (M : Type) (searchResults : list (@SearchHit M)),
         windowsOfFirstOccurrences (extractNumericalData toLowerCase searchResults)
           searchResults
         /\ windowsOfMatches (extractNumericalData_dist toLowerCase searchResults)
              searchResults).
Proof.
  split; [| split].
  - split; [repeat split; vm_compute; reflexivity | vm_compute; reflexivity].
  - split; [repeat split; vm_compute; reflexivity | vm_compute; reflexivity].
  - intros M searchResults. split.
    + apply extractNumericalData_windows.
    + apply extractNumericalData_dist_windows.
Qed.

(** ** Context truncation *)

(** [estimateTokenCount] is the ceiling of a quarter of the length. *)
Lemma estimateTokenCount_ceiling (text : jsstring) :
  4 * (estimateTokenCount text - 1) < len text <= 4 * estimateTokenCount text.
Proof.
  unfold estimateTokenCount, ceilDiv, len.
  pose proof (Z.div_mod (Z.of_nat (length text) + 4 - 1) 4 ltac:(lia)) as Hdm.
  pose proof (Z.mod_pos_bound (Z.of_nat (length text) + 4 - 1) 4 ltac:(lia)) as Hb.
  lia.
Qed.

(** C9: a context whose estimated token count is within the budget is
    returned unchanged. *)
Theorem truncateContext_within_budget (context : jsstring) (maxTokens : Z) :
  estimateTokenCount context <= maxTokens ->
  truncateContext context maxTokens = context.
Proof.
  intros Hle. unfold truncateContext.
  destruct (Z.leb_spec (estimateTokenCount context) maxTokens) as [_ | Hgt].
  - reflexivity.
  - lia.
Qed.

(** Five characters are two tokens. *)
Lemma truncateContext_within_budget_witness :
  estimateTokenCount (js "abcde") <= 2
  /\ truncateContext (js "abcde") 2 = js "abcde".
Proof.
  split.
  - vm_compute. discriminate.
  - apply (truncateContext_within_budget (js "abcde") 2). vm_compute. discriminate.
Defined.

(** Over budget the function does rewrite its input. *)
Example truncateContext_over_budget :
  truncateContext (js "Document: A" ++ [NL] ++ js "Content: 0123456789abcdefghij" ++ [NL] ++ js "---") 7
  = js "Document: A" ++ [NL] ++ js "Content: 0123... [truncated]".
Proof. vm_compute. reflexivity. Qed.

(** *** The budget of a truncated context *)

Lemma split_go_nonempty (fuel : nat) (sep s cur : jsstring) :
  split_go fuel sep s cur <> [].
Proof.
  destruct fuel as [| fuel]; cbn [split_go]; [discriminate |].
  destruct s as [| c s]; [discriminate |].
  destruct (startsWith (c :: s) sep); [discriminate |].
  revert s c cur. induction fuel as [| fuel IH]; intros s c cur; cbn [split_go];
    [discriminate |].
  destruct s as [| c' s]; [discriminate |].
  destruct (startsWith (c' :: s) sep); [discriminate | apply IH].
Qed.

Lemma startsWith_app (s sep : jsstring) :
  startsWith s sep = true -> s = sep ++ skipn (length sep) s.
Proof.
  intros H. apply startsWith_firstn in H.
  rewrite <- (firstn_skipn (length sep) s) at 1. rewrite H. reflexivity.
Qed.

Lemma join_cons (sep x : jsstring) (l : list jsstring) :
  l <> [] -> join sep (x :: l) = x ++ sep ++ join sep l.
Proof. destruct l; [congruence | reflexivity]. Qed.

(** Joining the pieces of a split with the separator gives the string
    back. *)
Lemma join_split_go (sep : jsstring) (fuel : nat) (s cur : jsstring) :
  sep <> [] -> (length s < fuel)%nat ->
  join sep (split_go fuel sep s cur) = rev cur ++ s.
Proof.
  intros Hsep. revert s cur. induction fuel as [| fuel IH]; intros s cur Hfuel; [lia |].
  cbn [split_go]. destruct s as [| c s]; [cbn [join]; rewrite app_nil_r; reflexivity |].
  destruct (startsWith (c :: s) sep) eqn:Hs.
  - rewrite join_cons by apply split_go_nonempty.
    rewrite IH.
    + cbn [rev app]. rewrite <- (startsWith_app _ _ Hs). reflexivity.
    + rewrite length_skipn. destruct sep; [congruence |]. cbn [length] in *. lia.
  - rewrite IH by (cbn [length] in Hfuel; lia).
    cbn [rev]. rewrite <- app_assoc. reflexivity.
Qed.

Lemma join_split (s sep : jsstring) : sep <> [] -> join sep (split s sep) = s.
Proof.
  intros Hsep. unfold split. destruct sep as [| c sep]; [congruence |].
  rewrite join_split_go by (try discriminate; lia). reflexivity.
Qed.

Lemma join_length_le (sep : jsstring) (bound : Z) (l : list jsstring) :
  0 <= bound ->
  Forall (fun x => len x <= bound) l ->
  len (join sep l) <= (bound + len sep) * Z.of_nat (length l).
Proof.
  intros Hb Hl. induction Hl as [| x l Hx Hl IH]; [unfold len; cbn [join length]; lia |].
  destruct l as [| y l].
  - cbn [join length]. unfold len in *. lia.
  - rewrite join_cons by discriminate. unfold len in *.
    rewrite !length_app. cbn [length] in *. nia.
Qed.

Lemma substring_prefix_length (s : jsstring) (k : Z) :
  0 <= k -> len (substring s 0 k) <= k.
Proof.
  intros Hk. unfold substring, len. rewrite length_firstn. lia.
Qed.

Lemma isSingleExcerpt_spec (avgTokensPerDoc : Z) (docs : list jsstring) :
  forallb (isSingleExcerpt avgTokensPerDoc) docs = true ->
  Forall (singleExcerpt avgTokensPerDoc) docs.
Proof.
  intros H. apply Forall_forall. intros doc Hdoc.
  apply (proj1 (forallb_forall _ _) H) in Hdoc. unfold isSingleExcerpt in Hdoc.
  destruct (split doc (js "Content: ")) as [| p0 [| content [| x l]]] eqn:Hs; try discriminate.
  exists p0, content. split; [exact Hs | apply Z.leb_le, Hdoc].
Qed.

(** One section after the truncation. *)
Lemma truncateContext_section (avgTokensPerDoc : Z) (doc : jsstring) :
  singleExcerpt avgTokensPerDoc doc ->
  len match split doc (js "Content: ") with
      | p0 :: content :: _ =>
          if avgTokensPerDoc - estimateTokenCount (p0 ++ js "Content: ")
             <? estimateTokenCount content
          then (p0 ++ js "Content: ")
                 ++ substring content 0
                      ((avgTokensPerDoc - estimateTokenCount (p0 ++ js "Content: ")) * 4)
                 ++ js "... [truncated]"
          else doc
      | _ => doc
      end
  <= 4 * avgTokensPerDoc + 15.
Proof.
  intros (p0 & content & Hsplit & Hfit).
  assert (Hdoc : doc = p0 ++ js "Content: " ++ content).
  { rewrite <- (join_split doc (js "Content: ")) at 1 by discriminate.
    rewrite Hsplit. reflexivity. }
  rewrite Hsplit.
  pose proof (estimateTokenCount_ceiling (p0 ++ js "Content: ")) as Hh.
  pose proof (estimateTokenCount_ceiling content) as Hc.
  destruct (Z.ltb_spec (avgTokensPerDoc - estimateTokenCount (p0 ++ js "Content: "))
              (estimateTokenCount content)) as [Hlt | Hge].
  - pose proof (substring_prefix_length content
                  ((avgTokensPerDoc - estimateTokenCount (p0 ++ js "Content: ")) * 4)
                  ltac:(lia)) as Hs.
    assert (Hlen : forall a b c : jsstring, len (a ++ b ++ c) = len a + len b + len c)
      by (intros; unfold len; rewrite !length_app; lia).
    rewrite Hlen. change (len (js "... [truncated]")) with 15. lia.
  - assert (Hlen : len doc = len (p0 ++ js "Content: ") + len content)
      by (rewrite Hdoc, app_assoc; unfold len; rewrite length_app; lia).
    lia.
Qed.

Lemma substring_prefix (s : jsstring) (k : Z) :
  exists cut, s = substring s 0 k ++ cut /\ len (substring s 0 k) <= Z.max 0 k.
Proof.
  unfold substring, len. cbn [skipn Z.to_nat].
  replace (Z.min (Z.min (Z.max 0 0) (Z.of_nat (length s)))
             (Z.min (Z.max k 0) (Z.of_nat (length s)))) with 0 by lia.
  cbn [Z.to_nat skipn]. eexists. split; [symmetry; apply firstn_skipn |].
  rewrite length_firstn. lia.
Qed.

Lemma truncateContext_shortened (avgTokensPerDoc : Z) (doc : jsstring) :
  shortened avgTokensPerDoc doc
    match split doc (js "Content: ") with
    | p0 :: content :: _ =>
        if avgTokensPerDoc - estimateTokenCount (p0 ++ js "Content: ")
           <? estimateTokenCount content
        then (p0 ++ js "Content: ")
               ++ substring content 0
                    ((avgTokensPerDoc - estimateTokenCount (p0 ++ js "Content: ")) * 4)
               ++ js "... [truncated]"
        else doc
    | _ => doc
    end.
Proof.
  destruct (split doc (js "Content: ")) as [| p0 [| content rest]] eqn:Hs;
    [left; reflexivity | left; reflexivity |].
  destruct (_ <? _); [| left; reflexivity].
  right.
  destruct (substring_prefix content
              ((avgTokensPerDoc - estimateTokenCount (p0 ++ js "Content: ")) * 4))
    as (cut & Hcut & Hlen).
  exists p0, content, (substring content 0
                         ((avgTokensPerDoc - estimateTokenCount (p0 ++ js "Content: ")) * 4)),
         cut.
  split; [eauto |]. split; [exact Hcut |]. split; [lia |].
  rewrite <- app_assoc. reflexivity.
Qed.

Lemma Forall2_map_right {A B : Type} (P : A -> B -> Prop) (f : A -> B) (l : list A) :
  (forall x, P x (f x)) -> Forall2 P l (List.map f l).
Proof. intros H. induction l; cbn [List.map]; constructor; auto. Qed.

(** The truncated context keeps within the budget, up to twenty code units
    for each section. *)
Lemma truncateContext_truncatedTo (context : jsstring) (maxTokens : Z) :
  0 <= maxTokens ->
  truncatedTo maxTokens context (truncateContext context maxTokens).
Proof.
  intros Hmax. unfold truncatedTo, truncateContext. split; [| split].
  - intros Hle. apply Z.leb_le in Hle. rewrite Hle. reflexivity.
  - intros Hgt. apply Z.leb_gt in Hgt. rewrite Hgt.
    fold (sections context). fold (share context maxTokens).
    eexists. split; [| reflexivity].
    apply Forall2_map_right. intros doc. apply truncateContext_shortened.
  - intros Hgt Hall. apply Z.leb_gt in Hgt. rewrite Hgt.
    unfold share in *. fold (sections context) in *.
    set (docs := sections context) in *. clearbody docs.
    set (avg := maxTokens / Z.of_nat (length docs)) in *.
    assert (Havg : docs <> [] -> 0 <= avg /\ avg * Z.of_nat (length docs) <= maxTokens).
    { intros Hne. assert (0 < Z.of_nat (length docs)) by (destruct docs; [congruence | cbn [length]; lia]).
      subst avg. split; [apply Z.div_pos; lia |].
      rewrite Z.mul_comm. apply Z.mul_div_le. lia. }
    clearbody avg.
    destruct docs as [| d docs']; [unfold len; cbn [List.map join length]; lia |].
    destruct (Havg ltac:(discriminate)) as [Hpos Hmul].
    eapply Z.le_trans.
    + apply (join_length_le _ (4 * avg + 15)); [lia |].
      apply Forall_map. eapply Forall_impl; [| exact Hall].
      intros doc Hdoc. cbv beta. apply truncateContext_section, Hdoc.
    + rewrite length_map. change (len (js "---" ++ [NL; NL])) with 5. nia.
Qed.

(** ** Markdown tables *)

Lemma countNL_app (s t : jsstring) : countNL (s ++ t) = (countNL s + countNL t)%nat.
Proof. unfold countNL. rewrite List.filter_app, length_app. reflexivity. Qed.

Lemma countNL_free (s : jsstring) : newlineFree s -> countNL s = 0%nat.
Proof.
  unfold newlineFree, countNL. induction s as [| c s IH]; intros Hfree; [reflexivity |].
  cbn [List.filter]. destruct (N.eqb NL c) eqn:Heq.
  - apply N.eqb_eq in Heq. exfalso. apply Hfree. rewrite Heq. left.
  - apply IH. intros Hin. apply Hfree. right. exact Hin.
Qed.

Lemma isLines_countNL (k : nat) (out : jsstring) : isLines k out -> countNL out = k.
Proof.
  intros (ls & <- & Hfree & ->). induction Hfree as [| l ls Hl _ IH]; [reflexivity |].
  cbn [List.map concat length]. rewrite !countNL_app, IH, (countNL_free l Hl).
  reflexivity.
Qed.

Lemma newlineFree_app (s t : jsstring) :
  newlineFree s -> newlineFree t -> newlineFree (s ++ t).
Proof. unfold newlineFree. intros Hs Ht Hin. apply elem_of_app in Hin. tauto. Qed.

Lemma newlineFree_js_join (sep : jsstring) (cells : list jsstring) :
  newlineFree sep -> Forall newlineFree cells -> newlineFree (join sep cells).
Proof.
  intros Hsep Hcells. induction Hcells as [| c cells Hc Hrest IH].
  - intros Hin. inversion Hin.
  - destruct cells as [| c' cells']; [exact Hc |].
    change (newlineFree (c ++ sep ++ join sep (c' :: cells'))).
    auto using newlineFree_app.
Qed.

Lemma newlineFree_literal (s : jsstring) :
  forallb (fun c => negb (N.eqb NL c)) s = true -> newlineFree s.
Proof.
  unfold newlineFree. induction s as [| c s IH]; cbn [forallb]; intros Hall Hin.
  - inversion Hin.
  - apply andb_prop in Hall as [Hc Hs]. apply elem_of_cons in Hin as [Heq | Hin].
    + rewrite <- Heq, N.eqb_refl in Hc. discriminate.
    + exact (IH Hs Hin).
Qed.

Lemma newlineFree_alignmentCell (alignments : list jsstring) (i : nat) :
  newlineFree (alignmentCell alignments i).
Proof.
  unfold alignmentCell.
  repeat match goal with |- context [if ?b then _ else _] => destruct b end;
    apply newlineFree_literal; reflexivity.
Qed.

Lemma newlineFree_concat (ls : list jsstring) :
  Forall newlineFree ls -> newlineFree (concat ls).
Proof.
  induction 1 as [| l ls Hl _ IH]; simpl.
  - intros Hin. inversion Hin.
  - auto using newlineFree_app.
Qed.

Section TableFacts.
Context {cell : Type} (String_ : cell -> jsstring).
#[local] Abbreviation tableLines := (tableLines String_).

Lemma generateMarkdownTable_tableLines headers rows alignments :
  rows <> [] ->
  generateMarkdownTable String_ headers rows alignments
  = concat (List.map (fun l => l ++ [NL]) (tableLines headers rows alignments)).
Proof.
  intros Hrows. unfold generateMarkdownTable, tableLines, rowLine.
  assert (Hbody : forall rs : list (list cell),
             concat (List.map (fun row => js "| " ++ join (js " | ") (List.map String_ row)
                                            ++ js " |" ++ [NL]) rs)
             = concat (List.map (fun l => l ++ [NL])
                         (List.map (fun row => js "| " ++ join (js " | ") (List.map String_ row)
                                                 ++ js " |") rs))).
  { induction rs as [| r rs IH]; [reflexivity |].
    cbn [List.map concat]. rewrite IH, <- !app_assoc. reflexivity. }
  destruct rows as [| row rows]; [congruence |].
  cbn [List.map concat]. rewrite Hbody, <- !app_assoc. reflexivity.
Qed.

(** C10, as amended: for all headers, rows and alignments the table is empty
    exactly when there are no rows; with rows, and no newline inside a header
    or a rendered cell, it consists of exactly [2 + length rows]
    newline-terminated lines. *)
Theorem generateMarkdownTable_line_count headers rows alignments :
  (generateMarkdownTable String_ headers rows alignments = [] <-> rows = [])
  /\ (rows <> [] ->
      Forall newlineFree headers ->
      Forall (Forall (fun c => newlineFree (String_ c))) rows ->
      isLines (2 + length rows) (generateMarkdownTable String_ headers rows alignments)).
Proof.
  split.
  - split; [| intros ->; reflexivity].
    destruct rows; [reflexivity |]. unfold generateMarkdownTable, rowLine. discriminate.
  - intros Hrows Hheaders Hcells. exists (tableLines headers rows alignments). split; [| split].
    + unfold tableLines. cbn [length]. rewrite length_map. reflexivity.
    + unfold tableLines. repeat apply Forall_cons_2.
      * repeat apply newlineFree_app; try (apply newlineFree_literal; reflexivity).
        apply newlineFree_js_join; [apply newlineFree_literal; reflexivity | exact Hheaders].
      * apply newlineFree_app; [apply newlineFree_literal; reflexivity |].
        apply newlineFree_concat, Forall_forall. intros x Hx.
        apply in_map_iff in Hx as (i & <- & _).
        apply newlineFree_alignmentCell.
      * apply Forall_forall. intros x Hx.
        apply in_map_iff in Hx as (row & <- & Hrow).
        repeat apply newlineFree_app; try (apply newlineFree_literal; reflexivity).
        apply newlineFree_js_join; [apply newlineFree_literal; reflexivity |].
        rewrite Forall_forall in Hcells. specialize (Hcells row Hrow).
        apply Forall_forall. intros y Hy.
        apply in_map_iff in Hy as (c & <- & Hc).
        rewrite Forall_forall in Hcells. apply Hcells, Hc.
    + apply generateMarkdownTable_tableLines, Hrows.
Qed.
End TableFacts.

(** A table of two columns and two rows has four lines. *)
Lemma generateMarkdownTable_line_count_witness :
  let headers := [js "Party"; js "Average"] in
  let rows := [[js "Labour"; js "4.86"]; [js "Conservative"; js "3.75"]] in
  Forall newlineFree headers
  /\ Forall (Forall (fun c => newlineFree (id c))) rows
  /\ isLines 4 (generateMarkdownTable id headers rows [js "left"; js "right"]).
Proof.
  assert (Hh : Forall newlineFree [js "Party"; js "Average"])
    by (repeat constructor; apply newlineFree_literal; reflexivity).
  assert (Hr : Forall (Forall (fun c => newlineFree (id c)))
                 [[js "Labour"; js "4.86"]; [js "Conservative"; js "3.75"]])
    by (repeat constructor; apply newlineFree_literal; reflexivity).
  split; [exact Hh | split; [exact Hr |]].
  apply (proj2 (generateMarkdownTable_line_count id [js "Party"; js "Average"]
                  [[js "Labour"; js "4.86"]; [js "Conservative"; js "3.75"]]
                  [js "left"; js "right"]));
    [discriminate | exact Hh | exact Hr].
Defined.

Example generateMarkdownTable_example :
  generateMarkdownTable id [js "Party"; js "Average"]
    [[js "Labour"; js "4.86"]; [js "Conservative"; js "3.75"]] [js "left"; js "right"]
  = js "| Party | Average |" ++ [NL] ++ js "| :--- | ---: |" ++ [NL]
    ++ js "| Labour | 4.86 |" ++ [NL] ++ js "| Conservative | 3.75 |" ++ [NL].
Proof. vm_compute. reflexivity. Qed.

(** A header that contains a newline adds a line: the table for one such
    header and one row has four newline-terminated lines, not three. *)
Lemma generateMarkdownTable_newline_counterexample :
  ~ isLines (2 + length [[js "x"]])
      (generateMarkdownTable id [js "a" ++ [NL] ++ js "b"] [[js "x"]] []).
Proof.
  intros H. apply isLines_countNL in H. vm_compute in H. discriminate.
Qed.

(** ** Political control by string containment *)

Lemma startsWith_spec (s t : jsstring) :
  startsWith s t = true <-> exists post, s = t ++ post.
Proof.
  revert s. induction t as [| b t IH]; intros s.
  - destruct s; simpl; split; eauto.
  - destruct s as [| a s]; cbn [startsWith].
    + split; [discriminate | intros (post & Hpost); discriminate].
    + rewrite andb_true_iff, N.eqb_eq, IH. split.
      * intros (-> & post & ->). exists post. reflexivity.
      * intros (post & Hpost). injection Hpost as -> ->. eauto.
Qed.

Lemma indexOf_from_found (s t : jsstring) (i : Z) :
  0 <= i -> (indexOf_from s t i <> -1 <-> isSubstringOf t s).
Proof.
  revert i. induction s as [| a s IH]; intros i Hi; cbn [indexOf_from].
  - destruct (startsWith [] t) eqn:Hsw.
    + split; [intros _ | lia]. apply startsWith_spec in Hsw as (post & Hpost).
      exists [], post. exact Hpost.
    + split; [congruence |]. intros (pre & post & Heq). exfalso.
      destruct pre; [| discriminate].
      assert (startsWith [] t = true) by (apply startsWith_spec; eauto). congruence.
  - destruct (startsWith (a :: s) t) eqn:Hsw.
    + split; [intros _ | lia]. apply startsWith_spec in Hsw as (post & Hpost).
      exists [], post. exact Hpost.
    + rewrite (IH (i + 1)) by lia. split.
      * intros (pre & post & ->). exists (a :: pre), post. reflexivity.
      * intros (pre & post & Heq). destruct pre as [| a' pre].
        -- exfalso. assert (startsWith (a :: s) t = true) by (apply startsWith_spec; eauto).
           congruence.
        -- injection Heq as -> ->. exists pre, post. reflexivity.
Qed.

Lemma includes_spec (s t : jsstring) : includes s t = true <-> isSubstringOf t s.
Proof.
  unfold includes, indexOf. rewrite <- (indexOf_from_found s t 0) by lia.
  rewrite negb_true_iff, Z.eqb_neq. reflexivity.
Qed.

Lemma partialMatch_spec (entries : jsmap) (name : jsstring) :
  (exists before after key,
      entries = before ++ (key, partialMatch entries name) :: after
      /\ (forall k v, In (k, v) before -> ~ (isSubstringOf k name \/ isSubstringOf name k))
      /\ (isSubstringOf key name \/ isSubstringOf name key))
  \/ (partialMatch entries name = js "Unknown"
      /\ forall k v, In (k, v) entries -> ~ (isSubstringOf k name \/ isSubstringOf name k)).
Proof.
  induction entries as [| [key value] rest IH]; cbn [partialMatch].
  - right. split; [reflexivity | intros k v []].
  - destruct (includes name key || includes key name) eqn:Hrel.
    + left. exists [], rest, key. split; [reflexivity | split; [intros k v [] |]].
      apply orb_true_iff in Hrel. rewrite !includes_spec in Hrel. exact Hrel.
    + assert (Hnot : ~ (isSubstringOf key name \/ isSubstringOf name key)).
      { rewrite <- !includes_spec, <- orb_true_iff, Hrel. discriminate. }
      destruct IH as [(before & after & k' & Heq & Hbefore & Hk') | [Hunk Hall]].
      * left. exists ((key, value) :: before), after, k'. split; [| split; [| exact Hk']].
        -- cbn [app]. f_equal. exact Heq.
        -- intros k v [Hin | Hin]; [injection Hin as <- <-; exact Hnot | eauto].
      * right. split; [exact Hunk |].
        intros k v [Hin | Hin]; [injection Hin as <- <-; exact Hnot | eauto].
Qed.

Section ControlFacts.
Variable toLowerCase : jsstring -> jsstring.
#[local] Abbreviation politicalControlMapFor := (politicalControlMapFor toLowerCase).

Lemma findPoliticalControl_spec (mp : jsmap) (authority : jsstring) :
  controlBySpec mp (toLowerCase authority) (findPoliticalControl toLowerCase mp authority).
Proof.
  unfold findPoliticalControl, mapHas.
  destruct (mapGet mp (toLowerCase authority)) as [v |] eqn:Hget.
  - apply control_exact. exact Hget.
  - destruct (partialMatch_spec mp (toLowerCase authority))
      as [(before & after & key & Heq & Hbefore & Hkey) | [-> Hall]].
    + eapply control_partial; eauto.
    + apply control_unknown; assumption.
Qed.

(** C5: in the result of [analyzeCouncilTaxData], the political control of
    every extracted authority follows the containment rule on the
    lower-cased authority name. *)
Theorem analyzeCouncilTaxData_control_by_containment
    (db : Store) (documentIds : option (list jsstring)) (debugMode : bool)
    (c : CouncilTaxData) :
  In c (councilData (analyzeCouncilTaxData toLowerCase db documentIds debugMode)) ->
  controlBySpec (politicalControlMapFor (selectDocuments db documentIds))
    (toLowerCase (authority c)) (politicalControl c).
Proof.
  unfold analyzeCouncilTaxData, summarize, extractCouncilTaxData, politicalControlMapFor.
  cbn [councilData].
  set (mp := match List.find (isPoliticalControlDoc toLowerCase) _ with
             | Some doc => _ | None => _ end).
  destruct (List.find (isCouncilTaxDoc toLowerCase) _) as [doc |]; [| intros []].
  intros Hin. apply in_flat_map in Hin as (rawLine & _ & Hrow).
  unfold extractLine in Hrow.
  destruct (trim rawLine) as [| ch line]; [destruct Hrow |].
  destruct (exec (ch :: line) percentageRegex 0) as [pm |]; [| destruct Hrow].
  destruct Hrow as [<- | []]. cbn [authority politicalControl].
  apply findPoliticalControl_spec.
Qed.
End ControlFacts.

(** *** A worked example *)

Example politicalControlMap_example :
  politicalControlMapFor asciiLowerCase (documents exampleStore)
  = [(js "manchester", js "Labour"); (js "surrey", js "Conservative");
     (js "kent", js "Conservative")].
Proof. vm_compute. reflexivity. Qed.

Example analyzeCouncilTaxData_example :
  List.map (fun c => (authority c, politicalControl c))
    (councilData (analyzeCouncilTaxData asciiLowerCase exampleStore None true))
  = [(js "Manchester City ,", js "Labour"); (js "Surrey", js "Conservative");
     (js "West Kent", js "Conservative"); (js "Leeds", js "Unknown")].
Proof. vm_compute. reflexivity. Qed.

(** "West Kent" has no entry of its own; the key "kent" is contained in it. *)
Lemma analyzeCouncilTaxData_control_by_containment_witness :
  In westKentRow (councilData (analyzeCouncilTaxData asciiLowerCase exampleStore None true))
  /\ controlBySpec (politicalControlMapFor asciiLowerCase (selectDocuments exampleStore None))
       (asciiLowerCase (authority westKentRow)) (politicalControl westKentRow).
Proof.
  assert (Hin : In westKentRow
                  (councilData (analyzeCouncilTaxData asciiLowerCase exampleStore None true)))
    by (vm_compute; right; right; left; reflexivity).
  split; [exact Hin |].
  exact (analyzeCouncilTaxData_control_by_containment asciiLowerCase exampleStore None true
           westKentRow Hin).
Defined.

(** ** Deleting a document *)

Lemma str_eqb_eq (s t : jsstring) : str_eqb s t = true <-> s = t.
Proof. unfold str_eqb. apply bool_decide_eq_true. Qed.

Lemma str_eqb_neq (s t : jsstring) : str_eqb s t = false <-> s <> t.
Proof. unfold str_eqb. apply bool_decide_eq_false. Qed.

Lemma str_eqb_sym (s t : jsstring) : str_eqb s t = str_eqb t s.
Proof. unfold str_eqb. apply bool_decide_ext. split; congruence. Qed.

Lemma filter_all {A} (f : A -> bool) (l : list A) :
  (forall x, In x l -> f x = true) -> List.filter f l = l.
Proof.
  induction l as [| a l IH]; intros Hall; [reflexivity |]. cbn [List.filter].
  rewrite (Hall a (or_introl eq_refl)), IH; [reflexivity |].
  intros x Hx. apply Hall. right. exact Hx.
Qed.

Lemma filter_filter_and {A} (f g : A -> bool) (l : list A) :
  List.filter f (List.filter g l) = List.filter (fun x => g x && f x) l.
Proof.
  induction l as [| a l IH]; [reflexivity |]. cbn [List.filter].
  destruct (g a); cbn [List.filter andb]; [destruct (f a) |]; rewrite IH; reflexivity.
Qed.

(** The message loop removes exactly the messages of the listed chats and
    touches no other table. *)
Lemma deleteMessagesOf_run (cs : list Chat) (db : Store) :
  deleteMessagesOf cs db
  = (Ok tt,
     {| documents := documents db;
        chats := chats db;
        messages :=
          List.filter (fun m => negb (existsb (fun c => str_eqb (chat_id c) (msg_chatId m)) cs))
            (messages db);
        chunks := chunks db |}).
Proof.
  revert db. induction cs as [| chat rest IH]; intros db.
  - cbn. rewrite filter_all by reflexivity. destruct db; reflexivity.
  - cbn [deleteMessagesOf]. unfold mbind, DbM_bind, dbWrite. rewrite IH.
    unfold message_deleteMany. cbn [documents chats messages chunks].
    rewrite filter_filter_and. do 2 f_equal.
    apply filter_ext. intros m. cbn [existsb].
    rewrite negb_orb, (str_eqb_sym (msg_chatId m)). reflexivity.
Qed.

Lemma chatsOf_nil_filter (db : Store) (id : jsstring) :
  chatsOf db id = [] ->
  List.filter (fun c => negb (str_eqb (chat_documentId c) id)) (chats db) = chats db.
Proof.
  unfold chatsOf. intros Hnil. apply filter_all. intros c Hc.
  destruct (str_eqb (chat_documentId c) id) eqn:Heq; [| reflexivity].
  assert (Hin : In c (List.filter (fun c => str_eqb (chat_documentId c) id) (chats db)))
    by (apply filter_In; auto).
  rewrite Hnil in Hin. destruct Hin.
Qed.

Lemma chatsOf_after_filter (l : list Chat) (id : jsstring) :
  List.filter (fun c => str_eqb (chat_documentId c) id)
    (List.filter (fun c => negb (str_eqb (chat_documentId c) id)) l) = [].
Proof.
  rewrite filter_filter_and. induction l as [| c l IH]; [reflexivity |].
  cbn [List.filter]. destruct (str_eqb (chat_documentId c) id); cbn; exact IH.
Qed.

Lemma existsb_filter_negb {A} (f : A -> bool) (l : list A) :
  existsb f (List.filter (fun x => negb (f x)) l) = false.
Proof.
  induction l as [| a l IH]; [reflexivity |]. cbn [List.filter].
  destruct (f a) eqn:Hf; cbn [negb existsb]; [| rewrite Hf]; exact IH.
Qed.

(** A found document is deleted with its chats and their messages; the
    handler answers 200. *)
Lemma documents_DELETE_found (db : Store) (c : N) (i : jsstring) (d : Document) :
  document_findUnique db (c :: i) = Some d ->
  documents_DELETE (Some (c :: i)) db = (Ok deleteSuccess, afterDelete db (c :: i)).
Proof.
  intros Hfound.
  unfold documents_DELETE, documents_DELETE_body, dbCatch, mbind, DbM_bind, dbRead, mret, DbM_ret.
  cbv beta iota. rewrite Hfound.
  destruct (chatsOf db (c :: i)) as [| chat0 others] eqn:Hchats.
  - unfold dbTry, document_delete. rewrite Hfound, Hchats.
    unfold afterDelete. rewrite Hchats, chatsOf_nil_filter by exact Hchats.
    cbn [existsb negb]. rewrite (filter_all (fun _ => true)) by reflexivity.
    reflexivity.
  - rewrite deleteMessagesOf_run. unfold dbTry, chat_deleteMany.
    unfold chatsOf at 1. cbn [chats messages documents chunks]. fold (chatsOf db (c :: i)).
    rewrite Hchats, existsb_filter_negb. unfold document_delete, document_findUnique, chatsOf.
    cbn [chats messages documents chunks]. fold (document_findUnique db (c :: i)).
    rewrite Hfound, chatsOf_after_filter. unfold afterDelete. rewrite Hchats. reflexivity.
Qed.

(** An id that names no document gives 404 and no change. *)
Lemma documents_DELETE_missing (db : Store) (c : N) (i : jsstring) :
  document_findUnique db (c :: i) = None ->
  documents_DELETE (Some (c :: i)) db
  = (Ok (respondWith 404 (errorBody (js "Document not found"))), db).
Proof.
  intros Hnone.
  unfold documents_DELETE, documents_DELETE_body, dbCatch, mbind, DbM_bind, dbRead, mret, DbM_ret.
  rewrite Hnone. reflexivity.
Qed.

(** An absent or empty id gives 400 and no change. *)
Lemma documents_DELETE_no_id (db : Store) (id : option jsstring) :
  id = None \/ id = Some [] ->
  documents_DELETE id db
  = (Ok (respondWith 400 (errorBody (js "Document ID is required"))), db).
Proof. intros [-> | ->]; reflexivity. Qed.

(** C7, as amended: for a non-empty id, a found document is removed together
    with its chats and the messages of those chats, every other document, chat
    and message stays (in the same order), and the answer is 200; a non-empty
    id with no stored document gives 404 and the store is unchanged; an empty
    or missing id gives 400, also without change. *)
Theorem documents_DELETE_cascade (db : Store) (id : jsstring) :
  (id <> [] ->
   match document_findUnique db id with
   | Some _ =>
       exists db',
         documents_DELETE (Some id) db = (Ok deleteSuccess, db')
         /\ documents db' = List.filter (fun d => negb (str_eqb (doc_id d) id)) (documents db)
         /\ chats db' = List.filter (fun c => negb (str_eqb (chat_documentId c) id)) (chats db)
         /\ (forall d, In d (documents db') <-> In d (documents db) /\ doc_id d <> id)
         /\ (forall c, In c (chats db') <-> In c (chats db) /\ chat_documentId c <> id)
         /\ (forall m, In m (messages db') <->
                       In m (messages db)
                       /\ ~ exists c, In c (chats db) /\ chat_documentId c = id
                                      /\ chat_id c = msg_chatId m)
         /\ exists keep, messages db' = List.filter keep (messages db)
   | None =>
       documents_DELETE (Some id) db
       = (Ok (respondWith 404 (errorBody (js "Document not found"))), db)
   end)
  /\ (forall absent : option jsstring,
        absent = None \/ absent = Some [] ->
        documents_DELETE absent db
        = (Ok (respondWith 400 (errorBody (js "Document ID is required"))), db)).
Proof.
  split; [| apply documents_DELETE_no_id].
  intros Hid. destruct id as [| c i]; [congruence |].
  destruct (document_findUnique db (c :: i)) as [d |] eqn:Hfind.
  - exists (afterDelete db (c :: i)). split; [eapply documents_DELETE_found; eauto |].
    unfold afterDelete. cbn [documents chats messages chunks].
    split; [reflexivity | split; [reflexivity |]].
    split; [| split; [| split]].
    + intros x. rewrite filter_In, negb_true_iff, str_eqb_neq. reflexivity.
    + intros x. rewrite filter_In, negb_true_iff, str_eqb_neq. reflexivity.
    + intros m. rewrite filter_In, negb_true_iff, <- not_true_iff_false, existsb_exists.
      unfold chatsOf. split; intros [Hm Hno]; (split; [exact Hm |]).
      * intros (x & Hx & Hdoc & Hchat). apply Hno. exists x.
        rewrite filter_In, !str_eqb_eq. auto.
      * intros (x & Hx & Hchat). apply Hno. exists x.
        rewrite filter_In, !str_eqb_eq in *. tauto.
    + eexists. reflexivity.
  - apply documents_DELETE_missing, Hfind.
Qed.

(** ** Labour against Conservative *)

Lemma eqb_true_fz (x y : float) :
  (x =? y)%float = true -> is_nan x = false /\ is_nan y = false /\ fz x = fz y.
Proof.
  rewrite eqb_spec. unfold SFeqb. intros H.
  destruct (is_nan x) eqn:Nx.
  { rewrite (Prim2SF_nan x Nx) in H. discriminate. }
  destruct (is_nan y) eqn:Ny.
  { rewrite (Prim2SF_nan y Ny), SFcompare_nan_r in H. discriminate. }
  rewrite SFcompare_scaled in H
    by (try apply Prim2SF_valid; rewrite Prim2SF_notNaN, ?Nx, ?Ny; reflexivity).
  repeat split. unfold fz.
  destruct (scaled (Prim2SF x) ?= scaled (Prim2SF y)) eqn:Hc; try discriminate.
  apply Z.compare_eq_iff, Hc.
Qed.

Lemma is_nan_abs (x : float) : is_nan (abs x) = is_nan x.
Proof.
  pose proof (Prim2SF_notNaN (abs x)) as Ha. pose proof (Prim2SF_notNaN x) as Hx.
  rewrite abs_spec in Ha.
  destruct (Prim2SF x); cbn in Ha, Hx;
    destruct (is_nan (abs x)), (is_nan x); cbn in Ha, Hx; congruence.
Qed.

(** *** Averages of percentages *)

Lemma fold_nonNegative (rows : list CouncilTaxData) (acc : number) :
  nonNegative acc ->
  Forall (fun c => nonNegative (percentageChange c)) rows ->
  nonNegative (fold_left (fun sum c => sum + percentageChange c)%float rows acc).
Proof.
  intros Hacc Hrows. revert acc Hacc.
  induction Hrows as [| c rows Hc _ IH]; intros acc Hacc; [exact Hacc |].
  cbn [fold_left]. apply IH, add_nonNegative; assumption.
Qed.

Lemma averageChange_nonNegative (rows : list CouncilTaxData) :
  Forall (fun c => nonNegative (percentageChange c)) rows ->
  Z.of_nat (length rows) < 2 ^ 63 ->
  nonNegative (averageChange rows).
Proof.
  intros Hrows Hlen. unfold averageChange.
  destruct rows as [| c rows]; [exact I |].
  destruct (ofBinary_count (Z.of_nat (length (c :: rows)))) as (m & e & Hd).
  { cbn [length] in *. lia. }
  apply (div_nonNegative _ _ m e); [| exact Hd].
  apply fold_nonNegative; [exact I | exact Hrows].
Qed.

Lemma nonNegative_number (x : number) :
  nonNegative x -> is_nan x = false /\ (x <? 0)%float = false.
Proof.
  unfold nonNegative. intros H.
  pose proof (Prim2SF_notNaN x) as Hn. rewrite ltb_spec.
  change (Prim2SF 0) with (S754_zero false).
  destruct (Prim2SF x) as [[] | [] | | [] m e]; try contradiction;
    destruct (is_nan x); cbn in Hn; try discriminate; split; reflexivity.
Qed.

(** The difference of two numbers that are not negative is [NaN] exactly
    when both are [Infinity]. *)
Lemma sub_nan_nonNegative (x y : number) :
  nonNegative x -> nonNegative y ->
  (is_nan (x - y) = true <-> x = infinity /\ y = infinity).
Proof.
  intros Hx Hy.
  pose proof (Prim2SF_notNaN (x - y)) as Hn. rewrite sub_spec in Hn.
  assert (Hinf : forall z : number, Prim2SF z = S754_infinity false -> z = infinity).
  { intros z Hz. apply Prim2SF_inj. rewrite Hz. reflexivity. }
  split.
  - intros Hnan. rewrite Hnan in Hn. unfold nonNegative in Hx, Hy. unfold SF64sub in Hn.
    destruct (Prim2SF x) as [[] | [] | | [] mx ex] eqn:Ex; try contradiction;
      destruct (Prim2SF y) as [[] | [] | | [] my ey] eqn:Ey; try contradiction;
      cbn [SFsub notNaN negb] in Hn; try discriminate.
    + split; apply Hinf; assumption.
    + rewrite binary_normalize_notNaN in Hn. discriminate.
  - intros [-> ->]. reflexivity.
Qed.

(** *** Decimal digits *)

Lemma isDigit_range (d : N) : isDigit d = true <-> (48 <= d <= 57)%N.
Proof. unfold isDigit. rewrite andb_true_iff, !N.leb_le. tauto. Qed.

Lemma isDigit_not_space (d : N) : isDigit d = true -> isWhiteSpace d = false.
Proof.
  rewrite isDigit_range. intros Hd.
  assert (H : (d = 48 \/ d = 49 \/ d = 50 \/ d = 51 \/ d = 52 \/ d = 53 \/ d = 54
               \/ d = 55 \/ d = 56 \/ d = 57)%N) by lia.
  repeat (destruct H as [-> | H]; [reflexivity |]). subst d. reflexivity.
Qed.

Lemma takeSign_plain (c : N) (s : jsstring) :
  c <> 45%N -> c <> 43%N -> takeSign (c :: s) = (false, c :: s).
Proof.
  intros H45 H43. unfold takeSign.
  destruct c as [| p]; [reflexivity |].
  do 6 (destruct p as [p | p |]; try reflexivity); congruence.
Qed.

Lemma takeDigits_digits (s : jsstring) : Forall (fun c => isDigit c = true) (fst (takeDigits s)).
Proof.
  induction s as [| c s IH]; cbn [takeDigits]; [constructor |].
  destruct (isDigit c) eqn:Hc; [| constructor].
  destruct (takeDigits s) as [d rest]. cbn [fst] in *. constructor; assumption.
Qed.

Lemma digitsValue_nonneg (d : jsstring) :
  Forall (fun c => isDigit c = true) d -> 0 <= digitsValue d.
Proof.
  unfold digitsValue. intros Hd.
  assert (H : forall acc, 0 <= acc ->
                          0 <= fold_left (fun acc c => 10 * acc + (Z.of_N c - 48)) d acc).
  { induction Hd as [| c d Hc _ IH]; intros acc Hacc; [exact Hacc |].
    cbn [fold_left]. apply IH. apply isDigit_range in Hc. lia. }
  apply H. lia.
Qed.

Lemma ofDecimal_nonNegative (n e10 : Z) : 0 <= n -> nonNegative (ofDecimal n e10).
Proof.
  intros Hn. unfold ofDecimal. destruct (e10 >=? 0) eqn:He.
  - apply ofBinary_nonNegative. apply Z.mul_nonneg_nonneg; [exact Hn |].
    apply Z.pow_nonneg. lia.
  - apply ofBinary_nonNegative.
    assert (Hd : 0 < 10 ^ (- e10)) by (apply Z.pow_pos_nonneg; lia).
    assert (Hq : 0 <= n * 2 ^ Z.max 0 (66 + Z.log2 (10 ^ (- e10)) - Z.log2 n) / 10 ^ (- e10)).
    { apply Z.div_pos; [| exact Hd]. apply Z.mul_nonneg_nonneg; [exact Hn |].
      apply Z.pow_nonneg. lia. }
    destruct (_ =? 0); lia.
Qed.

(** [parseFloat] of a text that begins with a digit is a number that is not
    negative. *)
Lemma parseFloat_digit (d : N) (t : jsstring) :
  isDigit d = true -> nonNegative (parseFloat (d :: t)).
Proof.
  intros Hd. pose proof (proj1 (isDigit_range d) Hd) as Hr.
  unfold parseFloat. cbn [trimStart]. rewrite (isDigit_not_space d Hd).
  rewrite takeSign_plain by lia.
  replace (startsWith (d :: t) (js "Infinity")) with false.
  2:{ change (js "Infinity") with (73%N :: js "nfinity"). cbn [startsWith].
      destruct (N.eqb_spec d 73); [lia | reflexivity]. }
  cbn [takeDigits]. rewrite Hd.
  pose proof (takeDigits_digits t) as Hip.
  destruct (takeDigits t) as [ip s2]. cbn [fst] in Hip.
  assert (Hfp : forall s, Forall (fun c => isDigit c = true)
                            (fst (match s with
                                  | 46%N :: s2' => takeDigits s2'
                                  | _ => ([], s)
                                  end))).
  { intros s. destruct s as [| c s']; [constructor |].
    destruct (N.eqb_spec c 46) as [-> | Hne]; [apply takeDigits_digits |].
    replace (match c with 46%N => takeDigits s' | _ => ([], c :: s') end)
      with (@pair jsstring jsstring [] (c :: s')); [constructor |].
    destruct c as [| p]; [reflexivity |].
    do 6 (destruct p as [p | p |]; try reflexivity); congruence. }
  specialize (Hfp s2).
  destruct (match s2 with 46%N :: s2' => takeDigits s2' | _ => ([], s2) end) as [fp s3].
  cbn [fst] in Hfp.
  apply ofDecimal_nonNegative, digitsValue_nonneg.
  apply Forall_app. split; [constructor; assumption | exact Hfp].
Qed.

(** *** The percentage of a council-tax line *)

Lemma skipn_nth_error {A : Type} (l : list A) (i : nat) (x : A) :
  nth_error l i = Some x -> exists rest, skipn i l = x :: rest.
Proof.
  revert i. induction l as [| y l IH]; intros [| i] H; try discriminate.
  - injection H as ->. exists l. reflexivity.
  - apply IH in H. exact H.
Qed.

(** Group 2 of the percentage pattern begins with a digit. *)
Lemma percentage_group (line : jsstring) (pm : rmatch) :
  exec line percentageRegex 0 = Some pm ->
  exists (d : N) (t : jsstring), group line pm 2 = Some (d :: t) /\ isDigit d = true.
Proof.
  intros He. apply exec_matchAt in He as (j & _ & He).
  unfold matchAt in He.
  destruct (m line percentageRegex j [] _) as [[j' c] |] eqn:Hm; [| discriminate].
  injection He as <-. unfold group. cbn [mcaps].
  unfold percentageRegex in Hm.
  match type of Hm with
  | m _ (Seq ?g1 (Seq ?a (Seq (Group 2 (Seq (Plus ?dg) ?o)) ?l))) _ _ ?kf = _ =>
      change (m line g1 j []
                (fun j1 c1 =>
                   m line a j1 c1
                     (fun j2 c2 =>
                        match nth_error line j2 with
                        | Some ch =>
                            if isDigit ch
                            then m line (Star dg) (S j2) c2
                                   (fun j4 c4 =>
                                      m line o j4 c4
                                        (fun j5 c5 =>
                                           match nth_error line j5 with
                                           | Some ch5 =>
                                               if N.eqb 37 ch5
                                               then kf (S j5) ((2%nat, (j2, j5)) :: c5)
                                               else None
                                           | None => None
                                           end))
                            else None
                        | None => None
                        end)) = Some (j', c)) in Hm
  end.
  apply m_through in Hm as (j1 & c1 & _ & _ & Hm).
  apply m_through in Hm as (j2 & c2 & _ & _ & Hm).
  destruct (nth_error line j2) as [ch |] eqn:Hch; [| discriminate].
  destruct (isDigit ch) eqn:Hd; [| discriminate].
  apply m_through in Hm as (j4 & c4 & L4 & _ & Hm).
  apply m_through in Hm as (j5 & c5 & L5 & _ & Hm).
  destruct (nth_error line j5) as [ch5 |]; [| discriminate].
  destruct (N.eqb 37 ch5); [| discriminate].
  injection Hm as _ <-. cbn [getCap Nat.eqb].
  apply skipn_nth_error in Hch as (rest & ->).
  destruct (j5 - j2)%nat as [| n] eqn:Hn; [lia |].
  cbn [firstn]. eauto.
Qed.

Section Rows.
Variable toLowerCase : jsstring -> jsstring.

Lemma extractLine_nonNegative (politicalControlMap : jsmap) (rawLine : jsstring) :
  Forall (fun c => nonNegative (percentageChange c))
    (extractLine toLowerCase politicalControlMap rawLine).
Proof.
  unfold extractLine. destruct (trim rawLine) as [| ch line]; [constructor |].
  destruct (exec (ch :: line) percentageRegex 0) as [pm |] eqn:He; [| constructor].
  destruct (percentage_group _ _ He) as (d & t & -> & Hd).
  constructor; [| constructor]. cbn [percentageChange default]. apply parseFloat_digit, Hd.
Qed.

Lemma extractCouncilTaxData_nonNegative (documents : list Document) :
  Forall (fun c => nonNegative (percentageChange c))
    (extractCouncilTaxData toLowerCase documents).
Proof.
  unfold extractCouncilTaxData.
  destruct (List.find (isCouncilTaxDoc toLowerCase) documents) as [doc |]; [| constructor].
  apply Forall_flat_map, Forall_forall. intros line _. apply extractLine_nonNegative.
Qed.
End Rows.

Lemma loadSampleCouncilTaxData_nonNegative :
  Forall (fun c => nonNegative (percentageChange c)) loadSampleCouncilTaxData.
Proof. repeat constructor; vm_compute; exact I. Qed.

Lemma filter_nonNegative (f : CouncilTaxData -> bool) (rows : list CouncilTaxData) :
  Forall (fun c => nonNegative (percentageChange c)) rows ->
  arrayLength rows ->
  nonNegative (averageChange (List.filter f rows)).
Proof.
  intros Hrows Hlen. apply averageChange_nonNegative.
  - rewrite Forall_forall in Hrows |- *. intros c Hc. apply Hrows.
    apply filter_In in Hc. apply Hc.
  - pose proof (filter_length_le f rows) as Hle. unfold arrayLength in Hlen.
    assert (2 ^ 32 < 2 ^ 63) by (apply Z.pow_lt_mono_r; lia). lia.
Qed.

Lemma summarize_comparison (rows : list CouncilTaxData) (dbg : option Debug) :
  Forall (fun c => nonNegative (percentageChange c)) rows ->
  comparisonHolds (summarize rows dbg).
Proof.
  intros Hrows. unfold comparisonHolds, summarize.
  cbn [labourAverage conservativeAverage difference higherParty labourCount conservativeCount
       councilData].
  set (la := averageChange (List.filter isLabour rows)).
  set (ca := averageChange (List.filter isConservative rows)).
  rewrite (sub_pos_iff_gt la ca).
  split; [reflexivity |]. split; [apply abs_not_negative |].
  split; [intros Hn; apply abs_nonneg; rewrite is_nan_abs in Hn; exact Hn |].
  split; [| split; [| split; [| split]]].
  - destruct (ca <? la)%float; split; intros H; try reflexivity; discriminate.
  - destruct (ca <? la)%float; [left | right]; reflexivity.
  - intros Heq. apply eqb_true_fz in Heq as (Nl & Nc & Hz).
    rewrite (ltb_fz ca la Nc Nl), Hz, Z.ltb_irrefl. reflexivity.
  - subst la ca. intros Hl Hc.
    destruct (List.filter isLabour rows); [| discriminate].
    destruct (List.filter isConservative rows); [| discriminate].
    repeat split.
  - intros Hlen.
    assert (Hla : nonNegative la) by (apply filter_nonNegative; assumption).
    assert (Hca : nonNegative ca) by (apply filter_nonNegative; assumption).
    split; [exact Hla |]. split; [exact Hca |].
    rewrite is_nan_abs. apply sub_nan_nonNegative; assumption.
Qed.

(** C8, as amended: for every input, the results of [analyzeCouncilTaxData]
    and [analyzeCouncilTaxDataWithFallback] have [difference] equal to
    [|labourAverage - conservativeAverage|], never negative and at least zero
    whenever it is a number; the two averages are numbers and not negative,
    and [difference] is [NaN] exactly when both averages are [Infinity] (the
    rows being an array, fewer than [2^32]); [higherParty] is "Labour" exactly
    when [labourAverage] strictly exceeds [conservativeAverage], hence
    "Conservative" on a tie and when there is no data (both averages [0]). *)
Theorem analyzeCouncilTaxData_comparison
    (toLowerCase : jsstring -> jsstring) (db : Store)
    (documentIds : option (list jsstring)) (debugMode useSampleIfEmpty : bool) :
  comparisonHolds (analyzeCouncilTaxData toLowerCase db documentIds debugMode)
  /\ comparisonHolds
       (analyzeCouncilTaxDataWithFallback toLowerCase db documentIds useSampleIfEmpty).
Proof.
  split; [apply summarize_comparison, extractCouncilTaxData_nonNegative |].
  unfold analyzeCouncilTaxDataWithFallback.
  destruct (councilData _); [destruct useSampleIfEmpty |];
    first [ apply summarize_comparison, loadSampleCouncilTaxData_nonNegative
          | apply summarize_comparison, extractCouncilTaxData_nonNegative ].
Qed.


Example analyzeCouncilTaxData_no_data :
  let a := analyzeCouncilTaxData asciiLowerCase emptyStore None true in
  labourAverage a = 0%float /\ conservativeAverage a = 0%float
  /\ difference a = 0%float /\ higherParty a = js "Conservative".
Proof. vm_compute. repeat split. Qed.

Example analyzeCouncilTaxDataWithFallback_sample :
  let a := analyzeCouncilTaxDataWithFallback asciiLowerCase emptyStore None true in
  labourAverage a = ofBinary 5475626546944628 (-50)
  /\ conservativeAverage a = ofBinary 8436743301940729 (-51)
  /\ difference a = ofBinary 5029019583897054 (-52)
  /\ higherParty a = js "Labour".
Proof. vm_compute. repeat split. Qed.

(** Two percentages of 309 digits, one on a Labour row and one on a
    Conservative row: both averages are [Infinity] and the difference is
    [NaN], which is not at least zero. *)
Lemma analyzeCouncilTaxData_overflow_counterexample :
  let a := analyzeCouncilTaxData asciiLowerCase overflowStore None true in
  labourAverage a = infinity /\ conservativeAverage a = infinity
  /\ is_nan (difference a) = true
  /\ (0 <=? difference a)%float = false.
Proof. vm_compute. repeat split. Qed.

(** Two rows whose percentages overflow: the difference is [NaN] and both
    averages are [Infinity]. *)
Lemma analyzeCouncilTaxData_comparison_witness :
  let a := analyzeCouncilTaxData asciiLowerCase overflowStore None true in
  arrayLength (councilData a)
  /\ is_nan (difference a) = true
  /\ labourAverage a = infinity /\ conservativeAverage a = infinity.
Proof.
  intros a.
  assert (Hlen : arrayLength (councilData a)) by (vm_compute; reflexivity).
  assert (Hnan : is_nan (difference a) = true) by (vm_compute; reflexivity).
  split; [exact Hlen |]. split; [exact Hnan |].
  pose proof (proj1 (analyzeCouncilTaxData_comparison asciiLowerCase overflowStore None true
                       false)) as H.
  destruct H as (_ & _ & _ & _ & _ & _ & _ & H).
  exact (proj1 (proj2 (proj2 (H Hlen))) Hnan).
Defined.

(** ** Sorting by similarity *)

Section SortFacts.
Context {A : Type} (key : A -> number).
#[local] Abbreviation descending := (descending key).
#[local] Abbreviation keyGe := (keyGe key).
#[local] Abbreviation keyScaledGe := (keyScaledGe key).

Lemma insertSorted_perm (cmp : A -> A -> number) (a : A) (l : list A) :
  Permutation (insertSorted cmp a l) (a :: l).
Proof.
  induction l as [| b l IH]; cbn [insertSorted]; [reflexivity |].
  destruct (0 <? cmp a b)%float; [| reflexivity].
  rewrite IH. apply perm_swap.
Qed.

Lemma sort_perm (cmp : A -> A -> number) (l : list A) : Permutation (sort cmp l) l.
Proof.
  induction l as [| a l IH]; cbn [sort]; [reflexivity |].
  rewrite insertSorted_perm, IH. reflexivity.
Qed.

Lemma sort_length (cmp : A -> A -> number) (l : list A) :
  length (sort cmp l) = length l.
Proof. apply Permutation_length, sort_perm. Qed.

Lemma insertSorted_sorted (a : A) (l : list A) :
  is_nan (key a) = false -> Forall (fun b => is_nan (key b) = false) l ->
  StronglySorted keyScaledGe l ->
  StronglySorted keyScaledGe (insertSorted descending a l).
Proof.
  intros Na Nl Hs. induction Hs as [| b l Hs IH Hb]; cbn [insertSorted].
  - constructor; constructor.
  - inversion Nl as [| ? ? Nb Nl']; subst.
    unfold descending at 1. rewrite sub_pos_iff_gt, (ltb_fz _ _ Na Nb).
    destruct (Z.ltb_spec (fz (key a)) (fz (key b))) as [Hlt | Hge].
    + constructor; [apply IH, Nl' |].
      apply (Permutation_Forall (Permutation_sym (insertSorted_perm _ a l))).
      constructor; [unfold keyScaledGe; lia | exact Hb].
    + constructor; [constructor; assumption |].
      constructor; [exact Hge |].
      eapply Forall_impl; [| exact Hb]. unfold keyScaledGe. intros x Hx. cbn in Hx. lia.
Qed.

Lemma sort_sorted_scaled (l : list A) :
  Forall (fun b => is_nan (key b) = false) l ->
  StronglySorted keyScaledGe (sort descending l).
Proof.
  induction 1 as [| a l Na Nl IH]; cbn [sort]; [constructor |].
  apply insertSorted_sorted; [exact Na | | exact IH].
  apply (Permutation_Forall (Permutation_sym (sort_perm _ l))). exact Nl.
Qed.

Lemma StronglySorted_weaken (P Q : A -> A -> Prop) (ok : A -> Prop) (l : list A) :
  (forall a b, ok a -> ok b -> P a b -> Q a b) ->
  Forall ok l -> StronglySorted P l -> StronglySorted Q l.
Proof.
  intros Himp Hok Hs. induction Hs as [| a l Hs IH Ha]; [constructor |].
  inversion Hok as [| ? ? Oa Ol]; subst. constructor; [apply IH, Ol |].
  rewrite Forall_forall in *. intros b Hb. apply Himp; auto.
Qed.

(** Without [NaN] keys the result of [sort] is in non-increasing order of
    the keys, as IEEE compares them. *)
Lemma sort_descending (l : list A) :
  Forall (fun b => is_nan (key b) = false) l ->
  StronglySorted keyGe (sort descending l).
Proof.
  intros Nl.
  apply (StronglySorted_weaken keyScaledGe keyGe (fun b => is_nan (key b) = false)).
  - intros a b Na Nb Hab. unfold keyGe. rewrite (leb_fz _ _ Nb Na). apply Z.leb_le, Hab.
  - apply (Permutation_Forall (Permutation_sym (sort_perm _ l))). exact Nl.
  - apply sort_sorted_scaled, Nl.
Qed.
End SortFacts.

Lemma sliceTo_nonneg {A} (l : list A) (limit : Z) :
  0 <= limit -> sliceTo l limit = firstn (Z.to_nat limit) l.
Proof.
  intros Hl. unfold sliceTo. destruct (Z.ltb_spec limit 0); [lia |].
  destruct (Z.le_ge_cases limit (Z.of_nat (length l))).
  - rewrite Z.min_l by lia. reflexivity.
  - rewrite Z.min_r by lia. rewrite Nat2Z.id.
    rewrite !firstn_all2 by lia. reflexivity.
Qed.

(** ** Semantic search *)

Section SearchFacts.
Variable splitText : jsstring -> list jsstring.
Variable env : Env.
Variable db : Store.
#[local] Abbreviation keyConfigured := (keyConfigured env).
#[local] Abbreviation chunksFor := (chunksFor splitText db).
#[local] Abbreviation scoredBy := (scoredBy env).
#[local] Abbreviation fillCache := (fillCache splitText db).
#[local] Abbreviation segments := (segments splitText db).
#[local] Abbreviation storedDocs := (storedDocs db).

Lemma logged_nil (w : World) : logged w [] = w.
Proof. unfold logged. rewrite app_nil_r. destruct w; reflexivity. Qed.

Lemma logged_logged (w : World) (e1 e2 : list Event) :
  logged (logged w e1) e2 = logged w (e1 ++ e2).
Proof. unfold logged. cbn [documentChunks trace]. rewrite <- app_assoc. reflexivity. Qed.

Lemma getEmbedding_run (text : jsstring) (w : World) :
  getEmbedding env text w
  = if keyConfigured
    then (embeddings_create env (length (trace w)) text, logged w [EvEmbed text])
    else (Throw (Error (js "OpenAI API key is not configured")), w).
Proof.
  unfold getEmbedding, getOpenAI, keyConfigured.
  destruct (OPENAI_API_KEY env) as [[| c k] |]; reflexivity.
Qed.

Lemma createDocumentChunks_run (id : jsstring) (w : World) :
  createDocumentChunks splitText db id w
  = match document_findUnique db id with
    | Some d =>
        (Ok (length (splitText (doc_content d))),
         {| documentChunks := <[id := chunksFor id]> (documentChunks w);
            trace := trace w ++ [EvCreateChunks id] |})
    | None =>
        (Throw (Error (js "Document with ID " ++ id ++ js " not found")),
         logged w [EvCreateChunks id])
    end.
Proof.
  unfold createDocumentChunks, chunksFor.
  destruct (document_findUnique db id) as [d |]; reflexivity.
Qed.

Lemma scoreChunks_run (qe : list number) (doc : jsstring * jsstring)
    (chunks : list ChunkRec) (w : World) :
  match scoreChunks env qe doc chunks w with
  | (Ok results, w') =>
      w' = logged w (embedEvents chunks)
      /\ List.map s_chunk results = chunks
      /\ Forall (scoredBy qe) results
  | (Throw _, w') => documentChunks w' = documentChunks w
  end.
Proof.
  revert w. induction chunks as [| chunk rest IH]; intros w.
  - cbn. rewrite logged_nil. auto.
  - cbn [scoreChunks]. unfold mbind, M_bind at 1. rewrite getEmbedding_run.
    destruct keyConfigured; [| reflexivity].
    destruct (embeddings_create env (length (trace w)) (c_content chunk)) as [emb | e] eqn:Hemb;
      [| reflexivity].
    unfold M_bind. specialize (IH (logged w [EvEmbed (c_content chunk)])).
    destruct (scoreChunks env qe doc rest _) as [[results | e] w'].
    + destruct IH as (-> & Hchunks & Hscored). cbn [mret M_ret].
      rewrite logged_logged. split; [reflexivity |]. split.
      * cbn [List.map s_chunk]. rewrite Hchunks. reflexivity.
      * constructor; [| exact Hscored]. exists (length (trace w)), emb. auto.
    + exact IH.
Qed.

Lemma fillCache_preserves (docs : list (jsstring * jsstring))
    (cache : gmap jsstring (list ChunkRec)) (id : jsstring) (v : list ChunkRec) :
  cache !! id = Some v -> fillCache docs cache !! id = Some v.
Proof.
  revert cache. induction docs as [| d rest IH]; intros cache Hv; [exact Hv |].
  cbn [fillCache]. apply IH. destruct (cache !! fst d) eqn:Hd; [exact Hv |].
  rewrite lookup_insert_ne; [exact Hv |]. intros Heq. rewrite Heq in Hd. congruence.
Qed.

Lemma fillCache_covers (docs : list (jsstring * jsstring))
    (cache : gmap jsstring (list ChunkRec)) (d : jsstring * jsstring) :
  In d docs -> is_Some (fillCache docs cache !! fst d).
Proof.
  revert cache. induction docs as [| d0 rest IH]; intros cache Hin; [destruct Hin |].
  destruct Hin as [Heq | Hin]; [subst d0 |].
  - cbn [fillCache]. destruct (cache !! fst d) eqn:Hd.
    + exists l. apply fillCache_preserves, Hd.
    + exists (chunksFor (fst d)). apply fillCache_preserves, lookup_insert_eq.
  - cbn [fillCache]. apply IH, Hin.
Qed.

Lemma scoreDocuments_run (qe : list number) (docs : list (jsstring * jsstring))
    (w : World) :
  match scoreDocuments splitText env db qe docs w with
  | (Ok results, w') =>
      documentChunks w' = fillCache docs (documentChunks w)
      /\ trace w' = trace w ++ concat (segments docs (documentChunks w))
      /\ List.map s_chunk results = allChunks docs (fillCache docs (documentChunks w))
      /\ Forall (scoredBy qe) results
  | (Throw _, w') =>
      forall id v, documentChunks w !! id = Some v -> documentChunks w' !! id = Some v
  end.
Proof.
  revert w. induction docs as [| d rest IH]; intros w.
  - cbn. rewrite app_nil_r. auto.
  - cbn [scoreDocuments fillCache segments]. unfold mbind, M_bind at 1, cacheGet.
    unfold M_bind at 1.
    (* the chunks of [d], and the world in which they are scored *)
    set (cache1 := match documentChunks w !! fst d with
                   | Some _ => documentChunks w
                   | None => <[fst d := chunksFor (fst d)]> (documentChunks w)
                   end).
    assert (Hmono : forall id v, documentChunks w !! id = Some v -> cache1 !! id = Some v).
    { intros id v Hv. subst cache1. destruct (documentChunks w !! fst d) eqn:Hd; [exact Hv |].
      rewrite lookup_insert_ne; [exact Hv |]. intros Heq. rewrite Heq in Hd. congruence. }
    destruct (documentChunks w !! fst d) as [chunks |] eqn:Hd.
    + cbn [mret M_ret]. unfold M_bind at 1.
      pose proof (scoreChunks_run qe d chunks w) as Hc.
      destruct (scoreChunks env qe d chunks w) as [[here | e] w1].
      2:{ intros id v Hv. rewrite Hc. exact Hv. }
      destruct Hc as (-> & Hhere & Hsc). unfold M_bind at 1.
      specialize (IH (logged w (embedEvents chunks))).
      destruct (scoreDocuments splitText env db qe rest _) as [[others | e] w2].
      2:{ exact IH. }
      cbn [logged documentChunks trace] in IH. destruct IH as (Hcache & Htrace & Hothers & Hso).
      cbn [mret M_ret concat]. subst cache1.
      split; [exact Hcache |]. split; [rewrite Htrace, <- app_assoc; reflexivity |].
      split; [| apply Forall_app; auto].
      rewrite List.map_app, Hhere, Hothers. unfold allChunks. cbn [flat_map].
      rewrite (fillCache_preserves rest _ _ _ Hd). reflexivity.
    + unfold M_bind at 1. rewrite createDocumentChunks_run.
      destruct (document_findUnique db (fst d)) as [doc |] eqn:Hfind.
      2:{ intros id v Hv. exact Hv. }
      unfold M_bind at 1, cacheGet. cbn [documentChunks mret M_ret].
      rewrite lookup_insert_eq. cbn [default from_option].
      change (id (chunksFor (fst d))) with (chunksFor (fst d)). unfold M_bind at 1.
      set (w0 := {| documentChunks := <[fst d := chunksFor (fst d)]> (documentChunks w);
                    trace := trace w ++ [EvCreateChunks (fst d)] |}).
      pose proof (scoreChunks_run qe d (chunksFor (fst d)) w0) as Hc.
      destruct (scoreChunks env qe d (chunksFor (fst d)) w0) as [[here | e] w1].
      2:{ intros id v Hv. rewrite Hc. exact (Hmono id v Hv). }
      destruct Hc as (-> & Hhere & Hsc). unfold M_bind at 1.
      specialize (IH (logged w0 (embedEvents (chunksFor (fst d))))).
      destruct (scoreDocuments splitText env db qe rest _) as [[others | e] w2].
      2:{ intros id v Hv. apply IH. exact (Hmono id v Hv). }
      cbn [logged documentChunks trace w0] in IH. destruct IH as (Hcache & Htrace & Hothers & Hso).
      cbn [mret M_ret concat]. subst cache1.
      split; [exact Hcache |].
      split; [rewrite Htrace, <- !app_assoc; reflexivity |].
      split; [| apply Forall_app; auto].
      rewrite List.map_app, Hhere, Hothers. unfold allChunks. cbn [flat_map].
      rewrite (fillCache_preserves rest _ (fst d) (chunksFor (fst d))) by apply lookup_insert_eq.
      reflexivity.
Qed.

Lemma embedRequests_app (e1 e2 : list Event) :
  embedRequests (e1 ++ e2) = embedRequests e1 ++ embedRequests e2.
Proof. apply flat_map_app. Qed.

Lemma embedRequests_embedEvents (chunks : list ChunkRec) :
  embedRequests (embedEvents chunks) = List.map c_content chunks.
Proof.
  induction chunks as [| c chunks IH]; [reflexivity |].
  cbn [embedEvents List.map embedRequests flat_map app]. f_equal. exact IH.
Qed.

Lemma embedRequests_segments (docs : list (jsstring * jsstring))
    (cache : gmap jsstring (list ChunkRec)) :
  embedRequests (concat (segments docs cache))
  = List.map c_content (allChunks docs (fillCache docs cache)).
Proof.
  revert cache. induction docs as [| d rest IH]; intros cache; [reflexivity |].
  cbn [segments fillCache]. unfold allChunks. cbn [flat_map].
  destruct (cache !! fst d) as [chunks |] eqn:Hd; cbn [concat].
  - rewrite embedRequests_app, embedRequests_embedEvents, IH, List.map_app.
    rewrite (fillCache_preserves rest _ _ _ Hd). reflexivity.
  - change (EvCreateChunks (fst d) :: embedEvents (chunksFor (fst d)))
      with ([EvCreateChunks (fst d)] ++ embedEvents (chunksFor (fst d))).
    rewrite !embedRequests_app, embedRequests_embedEvents, IH, List.map_app.
    rewrite (fillCache_preserves rest _ (fst d) (chunksFor (fst d)))
      by apply lookup_insert_eq.
    reflexivity.
Qed.

Lemma fillCache_cold (docs : list (jsstring * jsstring))
    (cache : gmap jsstring (list ChunkRec)) (id : jsstring) :
  cache !! id = None -> In id (List.map fst docs) ->
  fillCache docs cache !! id = Some (chunksFor id).
Proof.
  revert cache. induction docs as [| d rest IH]; intros cache Hnone Hin; [destruct Hin |].
  cbn [fillCache]. destruct (decide (fst d = id)) as [Heq | Hne].
  - rewrite Heq, Hnone. apply fillCache_preserves, lookup_insert_eq.
  - destruct Hin as [Hin | Hin]; [congruence |]. apply IH; [| exact Hin].
    destruct (cache !! fst d); [exact Hnone |]. rewrite lookup_insert_ne; auto.
Qed.

Lemma embedEvents_no_create (chunks : list ChunkRec) (id : jsstring) :
  ~ In (EvCreateChunks id) (embedEvents chunks).
Proof.
  unfold embedEvents. rewrite in_map_iff. intros (c & Hc & _). discriminate.
Qed.

(** A document that has an entry is not chunked again. *)
Lemma segments_warm (docs : list (jsstring * jsstring))
    (cache : gmap jsstring (list ChunkRec)) (id : jsstring) :
  is_Some (cache !! id) -> ~ In (EvCreateChunks id) (concat (segments docs cache)).
Proof.
  revert cache. induction docs as [| d rest IH]; intros cache Hsome; cbn [segments];
    [intros [] |].
  destruct (cache !! fst d) as [chunks |] eqn:Hd; cbn [concat].
  - rewrite in_app_iff.
    intros [H | H]; [exact (embedEvents_no_create _ _ H) | exact (IH cache Hsome H)].
  - assert (fst d <> id) as Hne.
    { intros Heq. rewrite Heq in Hd. rewrite Hd in Hsome. destruct Hsome; discriminate. }
    cbn [app In]. rewrite in_app_iff. intros [H | [H | H]].
    + congruence.
    + exact (embedEvents_no_create _ _ H).
    + apply (IH (<[fst d := chunksFor (fst d)]> cache)); [| exact H].
      rewrite lookup_insert_ne; auto.
Qed.

(** A document without an entry is chunked exactly once, just before the
    embedding requests for its own chunks. *)
Lemma segments_cold (docs : list (jsstring * jsstring))
    (cache : gmap jsstring (list ChunkRec)) (id : jsstring) :
  cache !! id = None -> In id (List.map fst docs) ->
  exists pre post : list Event,
    concat (segments docs cache)
    = pre ++ EvCreateChunks id :: embedEvents (chunksFor id) ++ post
    /\ ~ In (EvCreateChunks id) pre
    /\ ~ In (EvCreateChunks id) post.
Proof.
  revert cache. induction docs as [| d rest IH]; intros cache Hnone Hin; [destruct Hin |].
  cbn [segments]. destruct (decide (fst d = id)) as [Heq | Hne].
  - rewrite Heq, Hnone. cbn [concat]. exists [], (concat (segments rest (<[id := chunksFor id]> cache))).
    split; [reflexivity |]. split; [intros [] |].
    apply segments_warm. rewrite lookup_insert_eq. eexists; reflexivity.
  - destruct Hin as [Hin | Hin]; [congruence |].
    destruct (cache !! fst d) as [chunks |] eqn:Hd; cbn [concat].
    + destruct (IH cache Hnone Hin) as (pre & post & -> & Hpre & Hpost).
      exists (embedEvents chunks ++ pre), post. split; [rewrite <- app_assoc; reflexivity |].
      split; [| exact Hpost].
      rewrite in_app_iff. intros [H | H]; [exact (embedEvents_no_create _ _ H) | auto].
    + destruct (IH (<[fst d := chunksFor (fst d)]> cache)) as (pre & post & -> & Hpre & Hpost);
        [rewrite lookup_insert_ne; auto | exact Hin |].
      exists (EvCreateChunks (fst d) :: embedEvents (chunksFor (fst d)) ++ pre), post.
      split; [cbn [app]; rewrite <- app_assoc; reflexivity |].
      split; [| exact Hpost].
      cbn [In]. rewrite in_app_iff. intros [H | [H | H]]; [congruence | | auto].
      exact (embedEvents_no_create _ _ H).
Qed.

Lemma findUnique_stored (d : Document) :
  In d (documents db) ->
  exists d', document_findUnique db (doc_id d) = Some d' /\ doc_id d' = doc_id d.
Proof.
  unfold document_findUnique. intros Hin.
  destruct (List.find _ (documents db)) as [d' |] eqn:Hfind.
  - exists d'. split; [reflexivity |]. apply find_some in Hfind as [_ Heq].
    apply str_eqb_eq, Heq.
  - exfalso. pose proof (find_none _ _ Hfind d Hin) as Hno. cbn in Hno.
    apply str_eqb_neq in Hno. congruence.
Qed.

(** The run of [semanticSearch]: the query embedding, the scored chunks of
    every stored document, the cache and the trace it leaves. *)
Lemma semanticSearch_run (query : jsstring) (limit : Z) (w : World) :
  match semanticSearch splitText env db query limit w with
  | (Ok rs, w') =>
      exists (qe : list number) (scored : list Scored),
        embeddings_create env (length (trace w)) query = Ok qe
        /\ documentChunks w' = fillCache storedDocs (documentChunks w)
        /\ trace w' = trace w ++ EvEmbed query :: concat (segments storedDocs (documentChunks w))
        /\ List.map s_chunk scored = allChunks storedDocs (documentChunks w')
        /\ Forall (scoredBy qe) scored
        /\ rs = List.map formatResult (sliceTo (sort bySimilarity scored) limit)
  | (Throw _, w') =>
      forall id v, documentChunks w !! id = Some v -> documentChunks w' !! id = Some v
  end.
Proof.
  unfold semanticSearch. unfold mbind, M_bind at 1. rewrite getEmbedding_run.
  destruct keyConfigured; [| auto].
  destruct (embeddings_create env (length (trace w)) query) as [qe | e] eqn:Hq; [| auto].
  unfold M_bind at 1. fold storedDocs.
  pose proof (scoreDocuments_run qe storedDocs (logged w [EvEmbed query])) as Hrun.
  destruct (scoreDocuments splitText env db qe storedDocs _) as [[scored | e] w'].
  - cbn [logged documentChunks trace] in Hrun. destruct Hrun as (Hc & Ht & Hm & Hs).
    cbn [mret M_ret]. exists qe, scored. rewrite Hc.
    repeat split; auto. rewrite Ht, <- app_assoc. reflexivity.
  - exact Hrun.
Qed.

Lemma storedDocs_ids (d : Document) :
  In d (documents db) -> In (doc_id d) (List.map fst storedDocs).
Proof.
  intros Hin. unfold storedDocs, document_findMany. rewrite List.map_map. cbn [fst].
  apply in_map, Hin.
Qed.

(** C6, as amended: a search never removes or replaces an entry of
    [documentChunks]; after a successful search every stored document has one;
    a document that had none was split by [createDocumentChunks], which stored
    its chunks, and that call comes exactly once, immediately before the
    embedding requests (hence the similarities) of that document's own
    chunks. *)
Theorem semanticSearch_cache_fill (query : jsstring) (limit : Z) (w : World) :
  match semanticSearch splitText env db query limit w with
  | (res, w') =>
      (forall id v, documentChunks w !! id = Some v -> documentChunks w' !! id = Some v)
      /\ match res with
         | Ok _ =>
             (forall d, In d (documents db) -> is_Some (documentChunks w' !! doc_id d))
             /\ (forall d, In d (documents db) -> documentChunks w !! doc_id d = None ->
                   (exists d', document_findUnique db (doc_id d) = Some d'
                               /\ doc_id d' = doc_id d
                               /\ documentChunks w' !! doc_id d
                                  = Some (buildChunks (doc_id d) (doc_title d')
                                            (splitText (doc_content d'))))
                   /\ exists pre post : list Event,
                        trace w'
                        = trace w ++ EvEmbed query :: pre
                            ++ EvCreateChunks (doc_id d)
                            :: embedEvents (chunksFor (doc_id d)) ++ post
                        /\ ~ In (EvCreateChunks (doc_id d)) pre
                        /\ ~ In (EvCreateChunks (doc_id d)) post)
         | Throw _ => True
         end
  end.
Proof.
  pose proof (semanticSearch_run query limit w) as Hrun.
  destruct (semanticSearch splitText env db query limit w) as [[rs | e] w'].
  - destruct Hrun as (qe & scored & Hq & Hcache & Htrace & _).
    split; [| split].
    + intros id v Hv. rewrite Hcache. apply fillCache_preserves, Hv.
    + intros d Hd. rewrite Hcache.
      apply (fillCache_covers storedDocs _ (doc_id d, doc_title d)).
      unfold storedDocs, document_findMany.
      apply (in_map (fun d => (doc_id d, doc_title d))), Hd.
    + intros d Hd Hnone. split.
      * destruct (findUnique_stored d Hd) as (d' & Hfind & Hid). exists d'.
        split; [exact Hfind | split; [exact Hid |]].
        rewrite Hcache, (fillCache_cold _ _ _ Hnone (storedDocs_ids d Hd)).
        unfold chunksFor. rewrite Hfind. reflexivity.
      * destruct (segments_cold storedDocs _ _ Hnone (storedDocs_ids d Hd))
          as (pre & post & Hseg & Hpre & Hpost).
        exists pre, post. split; [| exact (conj Hpre Hpost)].
        rewrite Htrace, Hseg. reflexivity.
  - split; [exact Hrun | exact I].
Qed.

Lemma StronglySorted_formatResult (l : list Scored) :
  StronglySorted (keyGe s_similarity) l ->
  StronglySorted resultGe (List.map formatResult l).
Proof.
  induction 1 as [| a l Hs IH Ha]; cbn [List.map]; constructor; [exact IH |].
  rewrite Forall_forall in *. intros r Hr.
  apply in_map_iff in Hr as (b & <- & Hb). exact (Ha b Hb).
Qed.

(** C2, as amended: a successful search requests the embedding of the query
    and then of every chunk of every stored document, whatever the state it
    starts from (nothing is cached between calls); each chunk is scored by
    the cosine similarity of the two embeddings; for a limit of at least zero
    the answer has [min limit n] entries, at most [limit]; and when no
    similarity is [NaN] the answer lists, in non-increasing order of
    similarity, chunks that no chunk left out exceeds. *)
Theorem semanticSearch_ranking (query : jsstring) (limit : Z) (w : World) :
  match semanticSearch splitText env db query limit w with
  | (Ok rs, w') =>
      exists (qe : list number) (scored : list Scored) (events : list Event),
        embeddings_create env (length (trace w)) query = Ok qe
        /\ trace w' = trace w ++ events
        /\ embedRequests events
           = query :: List.map c_content (allChunks storedDocs (documentChunks w'))
        /\ List.map s_chunk scored = allChunks storedDocs (documentChunks w')
        /\ Forall (scoredBy qe) scored
        /\ rs = List.map formatResult (sliceTo (sort bySimilarity scored) limit)
        /\ (0 <= limit ->
            Z.of_nat (length rs) <= limit
            /\ length rs = Nat.min (Z.to_nat limit) (length scored))
        /\ (0 <= limit ->
            Forall (fun s => is_nan (s_similarity s) = false) scored ->
            exists rest : list SearchResult,
              Permutation (List.map formatResult scored) (rs ++ rest)
              /\ StronglySorted resultGe (rs ++ rest))
  | (Throw _, _) => True
  end.
Proof.
  pose proof (semanticSearch_run query limit w) as Hrun.
  destruct (semanticSearch splitText env db query limit w) as [[rs | e] w']; [| exact I].
  destruct Hrun as (qe & scored & Hq & Hcache & Htrace & Hchunks & Hscored & Hrs).
  exists qe, scored, (EvEmbed query :: concat (segments storedDocs (documentChunks w))).
  split; [exact Hq |]. split; [exact Htrace |]. split.
  { change (EvEmbed query :: ?l) with ([EvEmbed query] ++ l).
    rewrite embedRequests_app, embedRequests_segments, Hcache. reflexivity. }
  split; [exact Hchunks |]. split; [exact Hscored |]. split; [exact Hrs |].
  assert (Hslice : 0 <= limit ->
            rs = List.map formatResult (firstn (Z.to_nat limit) (sort bySimilarity scored))).
  { intros Hl. rewrite Hrs, sliceTo_nonneg by exact Hl. reflexivity. }
  split.
  - intros Hl. rewrite (Hslice Hl), length_map, length_firstn, sort_length. split; [lia | reflexivity].
  - intros Hl Hnan.
    exists (List.map formatResult (skipn (Z.to_nat limit) (sort bySimilarity scored))).
    rewrite (Hslice Hl), <- List.map_app, firstn_skipn. split.
    + apply Permutation_map, Permutation_sym, sort_perm.
    + apply StronglySorted_formatResult. apply (sort_descending s_similarity), Hnan.
Qed.
End SearchFacts.

(** *** A worked search *)

Example semanticSearch_example :
  let '(res, w') := semanticSearch splitLines searchEnv searchStore (js "hello") 2 coldWorld in
  match res with
  | Ok rs => List.map r_content rs = [js "alpha"; js "bravo"]
  | Throw _ => False
  end
  /\ trace w' = [EvEmbed (js "hello"); EvCreateChunks (js "A"); EvEmbed (js "alpha");
                 EvCreateChunks (js "B"); EvEmbed (js "bravo"); EvEmbed (js "charlie!")].
Proof. vm_compute. split; reflexivity. Qed.

(** The second search repeats every embedding request: nothing but the
    chunk texts is kept between calls. *)
Example semanticSearch_twice :
  let '(_, w1) := semanticSearch splitLines searchEnv searchStore (js "hello") 2 coldWorld in
  let '(_, w2) := semanticSearch splitLines searchEnv searchStore (js "hello") 2 w1 in
  skipn (length (trace w1)) (trace w2)
  = [EvEmbed (js "hello"); EvEmbed (js "alpha"); EvEmbed (js "bravo"); EvEmbed (js "charlie!")].
Proof. vm_compute. reflexivity. Qed.

(** With document A already chunked and B not, B is chunked after the
    chunk of A has been embedded and scored. *)
Lemma semanticSearch_interleaving_counterexample :
  let '(res, w') := semanticSearch splitLines searchEnv searchStore (js "hello") 2 warmWorld in
  (exists rs, res = Ok rs)
  /\ documentChunks warmWorld !! js "B" = None
  /\ trace w' = [EvEmbed (js "hello"); EvEmbed (js "alpha"); EvCreateChunks (js "B");
                 EvEmbed (js "bravo"); EvEmbed (js "charlie!")]
  /\ ~ chunkedBeforeAnyScoring (trace w').
Proof.
  vm_compute. split; [eexists; reflexivity |]. split; [reflexivity |]. split; [reflexivity |].
  intros H. specialize (H [EvEmbed (js "alpha")] [EvEmbed (js "bravo"); EvEmbed (js "charlie!")]
                          (js "B") eq_refl).
  discriminate H.
Qed.

(** A negative limit counts from the end: with three chunks, [-1] returns two
    results.  And a [NaN] similarity (a zero embedding) is never moved by the
    sort: with limit 1 the answer is the [NaN] chunk, not the best one. *)
Lemma semanticSearch_limit_counterexample :
  (let '(res, _) := semanticSearch splitLines searchEnv searchStore (js "hello") (-1) coldWorld in
   exists rs, res = Ok rs /\ length rs = 2%nat /\ ~ Z.of_nat (length rs) <= -1)
  /\ (let '(res, _) := semanticSearch splitLines zeroEnv searchStore (js "hello") 1 coldWorld in
      exists r, res = Ok [r] /\ r_content r = js "alpha" /\ is_nan (r_similarity r) = true).
Proof.
  split; vm_compute.
  - eexists. split; [reflexivity |]. split; [reflexivity |]. intros H. apply H. reflexivity.
  - eexists. split; [reflexivity |]. split; reflexivity.
Qed.

(** ** Retry on a token-limit error *)

Section RagFacts.
Variable toLowerCase : jsstring -> jsstring.
Variable splitText : jsstring -> list jsstring.
Variable numberToString : number -> jsstring.
Variable extractEntities : jsstring -> list Entity.
Variable env : Env.
Variable db : Store.
#[local] Abbreviation keyConfigured := (keyConfigured env).
#[local] Abbreviation retryOutcome := (retryOutcome env).

Lemma completeWithRetry_run (query systemMessage userMessage context : jsstring)
    (w : World) :
  completeWithRetry env query systemMessage userMessage context w
  = (fst (retryOutcome (length (trace w)) query systemMessage userMessage context),
     logged w (snd (retryOutcome (length (trace w)) query systemMessage userMessage context))).
Proof.
  unfold completeWithRetry, retryOutcome, tryCatch, chat, mbind, M_bind, now, emit, lift.
  cbn [trace documentChunks].
  destruct (chat_completions_create env (length (trace w)) _) as [content | apiError];
    [reflexivity |].
  destruct (messageIncludes apiError (js "Request too large")); [| reflexivity].
  cbn [trace documentChunks]. rewrite length_app, Nat.add_1_r.
  unfold retryRequest. change (7000 / 2) with 3500.
  destruct (chat_completions_create env (S (length (trace w))) _) as [content | e];
    unfold logged; cbn [trace documentChunks mret M_ret]; rewrite <- app_assoc; reflexivity.
Qed.

Lemma semanticSearch_ok_key (query : jsstring) (limit : Z) (w w1 : World)
    (rs : list SearchResult) :
  semanticSearch splitText env db query limit w = (Ok rs, w1) ->
  getOpenAI env w1 = (Ok tt, w1).
Proof.
  unfold semanticSearch, mbind, M_bind at 1. rewrite getEmbedding_run.
  unfold keyConfigured, getOpenAI.
  destruct (OPENAI_API_KEY env) as [[| c k] |]; try discriminate. reflexivity.
Qed.

(** The run of [multiDocumentRAG] on the OpenAI path. *)
Lemma multiDocumentRAG_run (query : jsstring) (limit : Z) (w w1 : World)
    (searchResults : list SearchResult) :
  semanticSearch splitText env db query limit w = (Ok searchResults, w1) ->
  totalTokens toLowerCase numberToString extractEntities query searchResults <= 100000 ->
  let outcome :=
    retryOutcome (length (trace w1)) query
      (systemMessage toLowerCase query)
      (userMessage toLowerCase numberToString extractEntities query searchResults)
      (truncatedContext toLowerCase numberToString extractEntities query searchResults) in
  multiDocumentRAG toLowerCase splitText numberToString extractEntities env db query limit w
  = (match fst outcome with
     | Ok text => Ok text
     | Throw error => outerCatch error
     end,
     logged w1 (snd outcome)).
Proof.
  intros Hsearch Htokens outcome.
  unfold multiDocumentRAG, tryCatch, multiDocumentRAG_body, mbind, M_bind at 1.
  rewrite Hsearch.
  destruct (Z.ltb_spec 100000
              (totalTokens toLowerCase numberToString extractEntities query searchResults));
    [lia |].
  unfold M_bind. rewrite (semanticSearch_ok_key _ _ _ _ _ Hsearch), completeWithRetry_run.
  fold outcome. unfold outerCatch.
  destruct (fst outcome) as [text | error]; [reflexivity |].
  destruct (isError error && messageIncludes error (js "429")); reflexivity.
Qed.

(** C3, as amended: in [multiDocumentRAG], when the chat completion fails
    with a message containing "Request too large", the handler of lines
    998-1028 makes exactly one retry and appends a note to the text the retry
    returns.  The context of the retry is the context of the first request
    truncated to 3500 tokens (half of the 7000-token budget): unchanged when
    it is estimated at no more than 3500 tokens; otherwise its sections, each
    kept or cut to its share and marked, joined again, and, when each
    section holds one excerpt whose header fits the share, at most 14000 code
    units and twenty more for each section.  An error without that text is
    rethrown by the handler with no retry.  What the handler throws, at once
    or from the retry, meets the outer handler of the function
    ([outerCatch]), which answers an [Error] whose message contains "429"
    with a text and throws the rest to the caller. *)
Theorem multiDocumentRAG_single_retry (query : jsstring) (limit : Z) (w w1 : World)
    (searchResults : list SearchResult) (apiError : Thrown) :
  let sys := systemMessage toLowerCase query in
  let user := userMessage toLowerCase numberToString extractEntities query searchResults in
  let context :=
    truncatedContext toLowerCase numberToString extractEntities query searchResults in
  let furtherTruncatedContext := truncateContext context (7000 / 2) in
  let req1 := {| req_system := sys; req_user := user |} in
  let req2 :=
    {| req_system := sys;
       req_user := userMessageOf query furtherTruncatedContext ++ truncatedExcerptsNote |} in
  let inner := completeWithRetry env query sys user context w1 in
  semanticSearch splitText env db query limit w = (Ok searchResults, w1) ->
  totalTokens toLowerCase numberToString extractEntities query searchResults <= 100000 ->
  chat_completions_create env (length (trace w1)) req1 = Throw apiError ->
  inner
  = (if messageIncludes apiError (js "Request too large")
     then (match chat_completions_create env (S (length (trace w1))) req2 with
           | Ok content => Ok (orElse content noResponse ++ reducedContextNote)
           | Throw error => Throw error
           end,
           logged w1 [EvChat req1; EvChat req2])
     else (Throw apiError, logged w1 [EvChat req1]))
  /\ truncatedTo 3500 context furtherTruncatedContext
  /\ multiDocumentRAG toLowerCase splitText numberToString extractEntities env db
       query limit w
     = (match fst inner with
        | Ok text => Ok text
        | Throw error => outerCatch error
        end,
        snd inner).
Proof.
  intros sys user context furtherTruncatedContext req1 req2 inner Hsearch Htokens Hfail.
  assert (Hinner : inner
                   = (fst (retryOutcome (length (trace w1)) query sys user context),
                      logged w1 (snd (retryOutcome (length (trace w1)) query sys user context))))
    by apply completeWithRetry_run.
  split; [| split].
  - rewrite Hinner. unfold retryOutcome. fold req1. rewrite Hfail.
    unfold retryRequest. fold furtherTruncatedContext.
    change (truncateContext context 3500) with furtherTruncatedContext. fold req2.
    destruct (messageIncludes apiError (js "Request too large")); [| reflexivity].
    destruct (chat_completions_create env (S (length (trace w1))) req2); reflexivity.
  - apply truncateContext_truncatedTo. lia.
  - rewrite Hinner. cbn [fst snd].
    apply (multiDocumentRAG_run query limit w w1 searchResults Hsearch Htokens).
Qed.

(** X1: when the first chat completion succeeds, [multiDocumentRAG]
    makes that one request and returns its content, or "No response
    generated" when the content is absent or empty. *)
Lemma multiDocumentRAG_first_try (query : jsstring) (limit : Z) (w w1 : World)
    (searchResults : list SearchResult) (content : option jsstring) :
  let req1 :=
    {| req_system := systemMessage toLowerCase query;
       req_user := userMessage toLowerCase numberToString extractEntities query
                     searchResults |} in
  semanticSearch splitText env db query limit w = (Ok searchResults, w1) ->
  totalTokens toLowerCase numberToString extractEntities query searchResults <= 100000 ->
  chat_completions_create env (length (trace w1)) req1 = Ok content ->
  multiDocumentRAG toLowerCase splitText numberToString extractEntities env db query limit w
  = (Ok (orElse content noResponse), logged w1 [EvChat req1]).
Proof.
  intros req1 Hsearch Htokens Hok.
  rewrite (multiDocumentRAG_run query limit w w1 searchResults Hsearch Htokens).
  unfold retryOutcome. fold req1. rewrite Hok. reflexivity.
Qed.
End RagFacts.

(** *** Worked runs *)

(** The first request carries 17448 code units of context, in fifty
    sections, and is rejected as too large; the retry carries 14847 and is
    answered:
    the run makes two chat requests and returns the answer of the second with
    the note. *)
Lemma multiDocumentRAG_single_retry_witness :
  messageIncludes tooLargeError (js "Request too large") = true
  /\ fst runLong = Ok (js "answer" ++ reducedContextNote)
  /\ List.map len (chatContexts (snd runLong)) = [17448; 14847 + len truncatedExcerptsNote].
Proof.
  set (out := semanticSearch splitLines sizeLimitedEnv longStore (js "hello") 50 coldWorld).
  assert (Hsearch : out = (Ok (match fst out with Ok rs => rs | Throw _ => [] end), snd out))
    by (vm_compute; reflexivity).
  pose proof (multiDocumentRAG_single_retry asciiLowerCase splitLines zeroString noEntities
                sizeLimitedEnv longStore (js "hello") 50 coldWorld (snd out)
                (match fst out with Ok rs => rs | Throw _ => [] end) tooLargeError) as Hrun.
  cbv zeta in Hrun.
  specialize (Hrun Hsearch ltac:(vm_compute; discriminate) ltac:(vm_compute; reflexivity)).
  destruct Hrun as (Hinner & _ & Hrun).
  fold runLong in Hrun. rewrite Hrun, Hinner.
  split; [vm_compute; reflexivity |]. split; vm_compute; reflexivity.
Defined.

(** A context within the 3500 tokens is sent again as it is: the chat
    service rejects the first request of the run on the two small documents
    and answers the second. *)
Example multiDocumentRAG_retry_unchanged :
  fst (runRag tooLargeEnv) = Ok (js "answer" ++ reducedContextNote)
  /\ chatCount (snd (runRag tooLargeEnv)) = 2%nat
  /\ match chatContexts (snd (runRag tooLargeEnv)) with
     | [first; second] => second = first ++ truncatedExcerptsNote
     | _ => False
     end.
Proof. vm_compute. repeat split. Qed.

(** The context of that first request: fifty sections of one excerpt, cut
    to 70 tokens each. *)
Example truncateContext_sections :
  estimateTokenCount longContext = 4362
  /\ length (sections longContext) = 50%nat
  /\ Forall (singleExcerpt (share longContext 3500)) (sections longContext)
  /\ len (truncateContext longContext 3500) <= 15000.
Proof.
  assert (Hall : Forall (singleExcerpt (share longContext 3500)) (sections longContext)).
  { apply isSingleExcerpt_spec. vm_compute. reflexivity. }
  split; [vm_compute; reflexivity |]. split; [vm_compute; reflexivity |].
  split; [exact Hall |].
  pose proof (proj2 (proj2 (truncateContext_truncatedTo longContext 3500 ltac:(lia)))
                ltac:(vm_compute; reflexivity) Hall) as Hbound.
  replace (length (sections longContext)) with 50%nat in Hbound by (vm_compute; reflexivity).
  exact Hbound.
Qed.

(** Every chat completion fails with a rate-limit error, which does not
    contain the token-limit text: one request is made and the error is not
    thrown to the caller, who receives a text. *)
Lemma multiDocumentRAG_rethrow_counterexample :
  messageIncludes rateLimitError (js "Request too large") = false
  /\ chatCount (snd (runRag rateLimitedEnv)) = 1%nat
  /\ fst (runRag rateLimitedEnv) = Ok rateLimitText
  /\ fst (runRag rateLimitedEnv) <> Throw rateLimitError.
Proof. vm_compute. repeat split. discriminate. Qed.

(** ** Errors at the edge of the handlers *)






(** The body of the RAG route throws exactly what [multiDocumentRAG] throws;
    what that function absorbs comes back as a 200 response. *)
Lemma rag_POST_body_run
    (toLowerCase : jsstring -> jsstring) (splitText : jsstring -> list jsstring)
    (numberToString : number -> jsstring) (extractEntities : jsstring -> list Entity)
    (extractAndAnalyzeData : list Document -> result Thrown json)
    (env : Env) (db : Store) (c : N) (q : jsstring) (limit : option Z) (analyse : bool)
    (w : World) :
  exists (documentLimit : Z) (analysisResults : json),
    rag_POST_body toLowerCase splitText numberToString extractEntities
      extractAndAnalyzeData env db
      (Ok {| rb_query := Some (c :: q); rb_limit := limit; rb_performAnalysis := analyse |}) w
    = match multiDocumentRAG toLowerCase splitText numberToString extractEntities env db
              (c :: q) documentLimit w with
      | (Ok response, w') =>
          (Ok (respond (JObj [(js "response", JStr response);
                              (js "analysisResults", analysisResults);
                              (js "success", JBool true)])), w')
      | (Throw e, w') => (Throw e, w')
      end.
Proof.
  eexists _, _. unfold rag_POST_body, mbind, M_bind, lift. cbn [rb_query rb_limit rb_performAnalysis].
  reflexivity.
Qed.


(** A data analysis that throws is ignored by the same route. *)
Example rag_POST_analysis_failure :
  let '(res, _) :=
    rag_POST asciiLowerCase splitLines zeroString noEntities
      (fun _ => Throw (Error (js "analysis failed")))
      searchEnv searchStore
      (Ok {| rb_query := Some (js "hello"); rb_limit := None; rb_performAnalysis := true |})
      coldWorld in
  match res with
  | Ok r => status r = 200 /\ hasField (js "error") (body r) = false
  | Throw _ => False
  end.
Proof. vm_compute. split; reflexivity. Qed.

(** An embedding failure does reach the handler of the search route. *)
Example search_GET_failure :
  let env := {| OPENAI_API_KEY := None;
                embeddings_create := fun _ _ => Ok [];
                chat_completions_create := fun _ _ => Ok None;
                gemini_generateContent := None |} in
  fst (search_GET splitLines env searchStore (Some (js "hello")) None coldWorld)
  = Ok (respondWith 500 (errorBody (js "OpenAI API key is not configured"))).
Proof. vm_compute. reflexivity. Qed.

Example documents_POST_fallback :
  let '(res, db') := documents_POST asciiLowerCase brokenReader emptyStore in
  match res with
  | Ok r => status r = 200
  | Throw _ => False
  end
  /\ List.map doc_content (documents db') = [js "raw bytes"].
Proof. vm_compute. split; reflexivity. Qed.

(** *** A worked deletion *)

Example documents_DELETE_example :
  documents_DELETE (Some (js "A")) chatStore
  = (Ok deleteSuccess,
     {| documents := [docB];
        chats := [ {| chat_id := js "c2"; chat_documentId := js "B" |} ];
        messages := [ {| msg_id := js "m2"; msg_chatId := js "c2"; msg_role := js "user";
                         msg_content := js "hello" |} ];
        chunks := [] |}).
Proof. vm_compute. reflexivity. Qed.

(** Deleting document A from a store with two documents leaves B. *)
Lemma documents_DELETE_cascade_witness :
  js "A" <> []
  /\ exists db',
       documents_DELETE (Some (js "A")) chatStore = (Ok deleteSuccess, db')
       /\ documents db' = [docB].
Proof.
  assert (Hid : js "A" <> []) by discriminate.
  split; [exact Hid |].
  pose proof (proj1 (documents_DELETE_cascade chatStore (js "A")) Hid) as Hdel.
  change (document_findUnique chatStore (js "A")) with (Some docA) in Hdel.
  destruct Hdel as (db' & Hrun & Hdocs & _).
  exists db'. split; [exact Hrun |]. rewrite Hdocs. vm_compute. reflexivity.
Defined.

(** An empty id names no stored document, and the answer is 400, not 404. *)
Lemma documents_DELETE_empty_id_counterexample :
  document_findUnique chatStore [] = None
  /\ documents_DELETE (Some []) chatStore
     = (Ok (respondWith 400 (errorBody (js "Document ID is required"))), chatStore)
  /\ fst (documents_DELETE (Some []) chatStore)
     <> Ok (respondWith 404 (errorBody (js "Document not found"))).
Proof. vm_compute. repeat split. discriminate. Qed.

(** ** CSV tables *)

Lemma not_elem_of_rev (c : N) (l : jsstring) : c ∉ l -> c ∉ rev l.
Proof. rewrite !list_elem_of_In. intros H Hin. apply H, in_rev, Hin. Qed.

Lemma split_go_sep_free (c : N) (fuel : nat) (s cur : jsstring) :
  c ∉ cur -> Forall (fun p => c ∉ p) (split_go fuel [c] s cur).
Proof.
  revert s cur. induction fuel as [| fuel IH]; intros s cur Hcur; cbn [split_go].
  - constructor; [| constructor]. apply not_elem_of_rev, Hcur.
  - destruct s as [| x s].
    + constructor; [| constructor]. apply not_elem_of_rev, Hcur.
    + cbn [startsWith]. replace (startsWith s []) with true by (destruct s; reflexivity).
      rewrite andb_true_r. destruct (N.eqb x c) eqn:Hx.
      * constructor; [apply not_elem_of_rev, Hcur |].
        apply IH. apply not_elem_of_nil.
      * apply IH. rewrite not_elem_of_cons. split; [| exact Hcur].
        intros ->. rewrite N.eqb_refl in Hx. discriminate.
Qed.

Lemma split_go_incl (sep : jsstring) (fuel : nat) (s cur p : jsstring) (x : N) :
  In p (split_go fuel sep s cur) -> In x p -> In x s \/ In x cur.
Proof.
  revert s cur. induction fuel as [| fuel IH]; intros s cur Hp Hx; cbn [split_go] in Hp.
  - destruct Hp as [<- | []]. right. apply in_rev. exact Hx.
  - destruct s as [| c s].
    + destruct Hp as [<- | []]. right. apply in_rev. exact Hx.
    + destruct (startsWith (c :: s) sep).
      * destruct Hp as [<- | Hp]; [right; apply in_rev; exact Hx |].
        destruct (IH _ _ Hp Hx) as [H | []]. left.
        rewrite <- (firstn_skipn (length sep) (c :: s)). apply in_or_app. right. exact H.
      * destruct (IH _ _ Hp Hx) as [H | [<- | H]]; [left; right; exact H | left; left; reflexivity | right; exact H].
Qed.

Lemma split_newlineFree (s sep : jsstring) :
  newlineFree s -> Forall newlineFree (split s sep).
Proof.
  intros Hs. apply Forall_forall. intros p Hp. unfold newlineFree in *.
  rewrite list_elem_of_In in *. intros Hx. apply Hs.
  unfold split in Hp. destruct sep as [| c sep].
  - apply in_map_iff in Hp as (y & <- & Hy). destruct Hx as [<- | []]. exact Hy.
  - destruct (split_go_incl _ _ _ _ _ _ Hp Hx) as [H | []]. exact H.
Qed.

Lemma split_lines_newlineFree (s : jsstring) : Forall newlineFree (split s [NL]).
Proof. unfold split. apply split_go_sep_free, not_elem_of_nil. Qed.

Lemma newlineFree_csvRow (cells : list jsstring) :
  Forall newlineFree cells ->
  newlineFree (js "| " ++ join (js " | ") cells ++ js " |").
Proof.
  intros Hc. repeat apply newlineFree_app; try (apply newlineFree_literal; reflexivity).
  apply newlineFree_js_join; [apply newlineFree_literal; reflexivity | exact Hc].
Qed.

(** X2: [convertCsvToMarkdown] never returns the empty string (the guard on
    an empty list of lines cannot fire): for every input the result is the
    title line, an empty line, the header row, the separator row and one row
    per further line of the trimmed input, each ended by a newline. *)
Theorem convertCsvToMarkdown_lines (csvContent : jsstring) :
  let lines := split (trim csvContent) [NL] in
  (1 <= length lines)%nat
  /\ isLines (3 + length lines) (convertCsvToMarkdown csvContent)
  /\ convertCsvToMarkdown csvContent <> [].
Proof.
  cbv zeta. unfold convertCsvToMarkdown.
  pose proof (split_lines_newlineFree (trim csvContent)) as Hfree.
  destruct (split (trim csvContent) [NL]) as [| line0 rest] eqn:Hsplit.
  { exfalso. unfold split in Hsplit. exact (split_go_nonempty _ _ _ _ Hsplit). }
  inversion Hfree as [| ? ? H0 Hrest]; subst.
  split; [cbn [length]; lia |]. split; [| discriminate].
  exists (js "# CSV Data" :: [] ::
          (js "| " ++ join (js " | ") (split line0 (js ",")) ++ js " |") ::
          (js "| " ++ join (js " | ") (List.map (fun _ => js "---") (split line0 (js ","))) ++ js " |") ::
          List.map (fun line => js "| " ++ join (js " | ") (split line (js ",")) ++ js " |") rest).
  split; [cbn [length]; rewrite length_map; reflexivity |]. split.
  - repeat apply Forall_cons_2.
    + apply newlineFree_literal. reflexivity.
    + apply not_elem_of_nil.
    + apply newlineFree_csvRow, split_newlineFree, H0.
    + apply newlineFree_csvRow, Forall_forall. intros x Hx.
      apply in_map_iff in Hx as (y & <- & _). apply newlineFree_literal. reflexivity.
    + apply Forall_forall. intros x Hx. apply in_map_iff in Hx as (line & <- & Hline).
      apply newlineFree_csvRow, split_newlineFree.
      rewrite Forall_forall in Hrest. apply Hrest, Hline.
  - cbn [List.map concat]. rewrite map_map.
    assert (Hrows : forall rows : list jsstring,
              concat (List.map (fun line => csvRow (split line (js ","))) rows)
              = concat (List.map
                          (fun line => (js "| " ++ join (js " | ") (split line (js ",")) ++ js " |")
                                       ++ [NL]) rows)).
    { intros rows. f_equal. apply map_ext. intros line. unfold csvRow.
      rewrite <- !app_assoc. reflexivity. }
    rewrite Hrows. unfold csvRow. rewrite <- !app_assoc. reflexivity.
Qed.

(** ** Cosine similarity *)

Lemma Prim2SF_eq (x y : float) : Prim2SF x = Prim2SF y -> x = y.
Proof. intros H. rewrite <- (SF2Prim_Prim2SF x), <- (SF2Prim_Prim2SF y), H. reflexivity. Qed.

Lemma SFmul_comm (x y : spec_float) : SFmul prec emax x y = SFmul prec emax y x.
Proof.
  destruct x as [sx | sx | | sx mx ex], y as [sy | sy | | sy my ey]; cbn [SFmul];
    rewrite ?(xorb_comm sx sy), ?(Pos.mul_comm mx my), ?(Z.add_comm ex ey); reflexivity.
Qed.

Lemma mul_comm (x y : float) : (x * y = y * x)%float.
Proof. apply Prim2SF_eq. rewrite !mul_spec. apply SFmul_comm. Qed.

Lemma is_nan_Prim2SF (x : float) : is_nan x = true <-> Prim2SF x = S754_nan.
Proof.
  pose proof (Prim2SF_notNaN x) as H. split.
  - intros Hn. rewrite Hn in H. destruct (Prim2SF x); try discriminate. reflexivity.
  - intros Hx. rewrite Hx in H. cbn in H. destruct (is_nan x); [reflexivity | discriminate].
Qed.

Lemma add_nan_l (x y : float) : is_nan x = true -> is_nan (x + y) = true.
Proof.
  rewrite !is_nan_Prim2SF, add_spec. intros ->. reflexivity.
Qed.

Lemma add_nan_r (x y : float) : is_nan y = true -> is_nan (x + y) = true.
Proof.
  rewrite !is_nan_Prim2SF, add_spec. intros ->. destruct (Prim2SF x); reflexivity.
Qed.

Lemma mul_nan_r (x y : float) : is_nan y = true -> is_nan (x * y) = true.
Proof.
  rewrite !is_nan_Prim2SF, mul_spec. intros ->. destruct (Prim2SF x); reflexivity.
Qed.

Lemma div_nan_l (x y : float) : is_nan x = true -> is_nan (x / y) = true.
Proof.
  rewrite !is_nan_Prim2SF, div_spec. intros ->. reflexivity.
Qed.

Lemma cosineSimilarity_fold (vecA vecB : list number) :
  cosineSimilarity vecA vecB
  = let '(dotProduct, normA, normB) :=
      fold_left (cosineStep vecA vecB) (seq 0 (length vecA)) (0, 0, 0)%float in
    (dotProduct / (sqrt normA * sqrt normB))%float.
Proof. reflexivity. Qed.

Lemma cosineStep_swap (vecA vecB : list number) (l : list nat) (d na nb : number) :
  fold_left (cosineStep vecA vecB) l (d, na, nb)
  = let '(d', x, y) := fold_left (cosineStep vecB vecA) l (d, nb, na) in (d', y, x).
Proof.
  revert d na nb. induction l as [| i l IH]; intros d na nb; [reflexivity |].
  cbn [fold_left cosineStep]. rewrite IH, (mul_comm (nth i vecB nan) (nth i vecA nan)).
  reflexivity.
Qed.

(** X3: on vectors of the same length the similarity does not depend on the
    order of the arguments. *)
Theorem cosineSimilarity_sym (vecA vecB : list number) :
  length vecA = length vecB ->
  cosineSimilarity vecA vecB = cosineSimilarity vecB vecA.
Proof.
  intros Hlen. rewrite !cosineSimilarity_fold, <- Hlen, cosineStep_swap.
  set (t := fold_left _ _ _). destruct t as [[d x] y].
  cbv beta iota. rewrite (mul_comm (sqrt x) (sqrt y)). reflexivity.
Qed.

Lemma cosineStep_nan_stays (vecA vecB : list number) (l : list nat) (d na nb : number) :
  is_nan d = true ->
  is_nan (fst (fst (fold_left (cosineStep vecA vecB) l (d, na, nb)))) = true.
Proof.
  revert d na nb. induction l as [| i l IH]; intros d na nb Hd; [exact Hd |].
  cbn [fold_left cosineStep]. apply IH, add_nan_l, Hd.
Qed.

Lemma cosineStep_nan_hit (vecA vecB : list number) (l : list nat) (i : nat)
    (d na nb : number) :
  In i l -> is_nan (nth i vecB nan) = true ->
  is_nan (fst (fst (fold_left (cosineStep vecA vecB) l (d, na, nb)))) = true.
Proof.
  revert d na nb. induction l as [| j l IH]; intros d na nb Hin Hnan; [destruct Hin |].
  cbn [fold_left cosineStep]. destruct Hin as [-> | Hin].
  - apply cosineStep_nan_stays, add_nan_r, mul_nan_r, Hnan.
  - apply IH; assumption.
Qed.

(** X4: the similarity is [NaN] when the first vector is empty (0/0) and
    when the second vector is shorter than the first (its missing entries
    read as [undefined]). *)
Theorem cosineSimilarity_nan (vecA vecB : list number) :
  vecA = [] \/ (length vecB < length vecA)%nat ->
  is_nan (cosineSimilarity vecA vecB) = true.
Proof.
  intros [-> | Hlt]; [reflexivity |].
  rewrite cosineSimilarity_fold.
  pose proof (cosineStep_nan_hit vecA vecB (seq 0 (length vecA)) (length vecB) 0 0 0)%float
    as Hhit.
  assert (Hd : is_nan (fst (fst (fold_left (cosineStep vecA vecB) (seq 0 (length vecA))
                                     (0, 0, 0)%float))) = true).
  { apply Hhit; [apply in_seq; lia |]. rewrite nth_overflow by lia. reflexivity. }
  clear Hhit. revert Hd. set (t := fold_left _ _ _). destruct t as [[d x] y].
  cbn [fst]. intros Hd. apply div_nan_l, Hd.
Qed.

Lemma cosineSimilarity_sym_witness :
  length [1%float; 2%float] = length [3%float; 4%float]
  /\ cosineSimilarity [1%float; 2%float] [3%float; 4%float]
     = cosineSimilarity [3%float; 4%float] [1%float; 2%float].
Proof.
  split; [reflexivity |].
  apply (cosineSimilarity_sym [1%float; 2%float] [3%float; 4%float]). reflexivity.
Defined.

Lemma cosineSimilarity_nan_witness :
  (length [1%float] < length [1%float; 2%float])%nat
  /\ is_nan (cosineSimilarity [1%float; 2%float] [1%float]) = true.
Proof.
  assert (H : (length [1%float] < length [1%float; 2%float])%nat) by (cbn; lia).
  split; [exact H |].
  apply (cosineSimilarity_nan [1%float; 2%float] [1%float]). right. exact H.
Defined.

(** ** Failures and repetitions of a search *)

Section SearchEdges.
Variable toLowerCase : jsstring -> jsstring.
Variable splitText : jsstring -> list jsstring.
Variable numberToString : number -> jsstring.
Variable extractEntities : jsstring -> list Entity.
Variable extractAndAnalyzeData : list Document -> result Thrown json.
Variable env : Env.
Variable db : Store.

Lemma semanticSearch_no_key (query : jsstring) (limit : Z) (w : World) :
  keyConfigured env = false ->
  semanticSearch splitText env db query limit w = (Throw notConfigured, w).
Proof.
  intros Hkey. unfold semanticSearch, mbind, M_bind at 1.
  rewrite getEmbedding_run, Hkey. reflexivity.
Qed.

(** X5: without an OpenAI key nothing is requested and nothing is cached:
    the search throws "OpenAI API key is not configured", [multiDocumentRAG]
    passes the error on, and both routes answer 500 with that message. *)
Theorem search_not_configured (c : N) (q : jsstring) (limit : Z)
    (limitParam : option jsstring) (body : RagBody) (w : World) :
  keyConfigured env = false ->
  rb_query body = Some (c :: q) ->
  semanticSearch splitText env db (c :: q) limit w = (Throw notConfigured, w)
  /\ multiDocumentRAG toLowerCase splitText numberToString extractEntities env db
       (c :: q) limit w = (Throw notConfigured, w)
  /\ search_GET splitText env db (Some (c :: q)) limitParam w
     = (Ok (respondWith 500 (errorBody (js "OpenAI API key is not configured"))), w)
  /\ rag_POST toLowerCase splitText numberToString extractEntities extractAndAnalyzeData
       env db (Ok body) w
     = (Ok (respondWith 500 (errorBody (js "OpenAI API key is not configured"))), w).
Proof.
  intros Hkey Hq.
  assert (Hrag : forall l, multiDocumentRAG toLowerCase splitText numberToString
                   extractEntities env db (c :: q) l w = (Throw notConfigured, w)).
  { intros l. unfold multiDocumentRAG, tryCatch, multiDocumentRAG_body, mbind, M_bind at 1.
    rewrite semanticSearch_no_key by exact Hkey. reflexivity. }
  split; [apply semanticSearch_no_key, Hkey |]. split; [apply Hrag |]. split.
  - unfold search_GET, tryCatch, search_GET_body, mbind, M_bind.
    rewrite semanticSearch_no_key by exact Hkey. reflexivity.
  - unfold rag_POST, tryCatch, rag_POST_body, mbind, M_bind at 1, lift.
    rewrite Hq. unfold M_bind. rewrite Hrag. reflexivity.
Qed.
End SearchEdges.

Section SearchFailure.
Variable splitText : jsstring -> list jsstring.
Variable env : Env.
Variable db : Store.

Lemma getEmbedding_throw (text : jsstring) (w w' : World) (error : Thrown) :
  getEmbedding env text w = (Throw error, w') -> searchFailureCause env error.
Proof.
  rewrite getEmbedding_run. destruct (keyConfigured env) eqn:Hkey.
  - intros H. injection H as H _. right. eauto.
  - intros H. injection H as <- _. left. auto.
Qed.

Lemma scoreChunks_throw (qe : list number) (doc : jsstring * jsstring)
    (chunks : list ChunkRec) (w w' : World) (error : Thrown) :
  scoreChunks env qe doc chunks w = (Throw error, w') -> searchFailureCause env error.
Proof.
  revert w w'. induction chunks as [| chunk rest IH]; intros w w'; cbn [scoreChunks].
  - discriminate.
  - unfold mbind, M_bind at 1.
    destruct (getEmbedding env (c_content chunk) w) as [[emb | e] w0] eqn:He.
    + unfold M_bind.
      destruct (scoreChunks env qe doc rest w0) as [[rs | e] w2] eqn:Hr.
      * discriminate.
      * intros H. injection H as <- _. exact (IH _ _ Hr).
    + intros H. injection H as <- _. exact (getEmbedding_throw _ _ _ _ He).
Qed.

Lemma scoreDocuments_throw (qe : list number) (docs : list (jsstring * jsstring))
    (w w' : World) (error : Thrown) :
  (forall d, In d docs -> is_Some (document_findUnique db (fst d))) ->
  scoreDocuments splitText env db qe docs w = (Throw error, w') ->
  searchFailureCause env error.
Proof.
  revert w w'. induction docs as [| d rest IH]; intros w w' Hstored; cbn [scoreDocuments].
  - discriminate.
  - unfold mbind, M_bind at 1, cacheGet.
    assert (Hchunks : exists chunks w0,
               (match documentChunks w !! fst d with
                | Some chunks => mret chunks
                | None =>
                    M_bind _ _ (fun _ => M_bind _ _ (fun again => mret (default [] again))
                                           (fun w => (Ok (documentChunks w !! fst d), w)))
                      (createDocumentChunks splitText db (fst d))
                end) w = (Ok chunks, w0)).
    { destruct (documentChunks w !! fst d) as [chunks |]; [eexists _, _; reflexivity |].
      unfold M_bind at 1. rewrite createDocumentChunks_run.
      destruct (Hstored d (or_introl eq_refl)) as [doc ->].
      unfold M_bind. eexists _, _. reflexivity. }
    destruct Hchunks as (chunks & w0 & Hchunks).
    unfold M_bind at 1. unfold mbind, cacheGet in Hchunks |- *. rewrite Hchunks.
    unfold M_bind at 1.
    destruct (scoreChunks env qe d chunks w0) as [[here | e] w2] eqn:Hhere.
    + unfold M_bind.
      destruct (scoreDocuments splitText env db qe rest w2) as [[others | e] w3] eqn:Hrest.
      * discriminate.
      * intros H. injection H as <- _.
        apply (IH w2 w3); [intros x Hx; apply Hstored; right; exact Hx | exact Hrest].
    + intros H. injection H as <- _. exact (scoreChunks_throw _ _ _ _ _ _ Hhere).
Qed.

(** In the model, where the reads of the store succeed, a search that
    throws has one of these causes. *)
Lemma semanticSearch_throw (query : jsstring) (limit : Z) (w w' : World)
    (error : Thrown) :
  semanticSearch splitText env db query limit w = (Throw error, w') ->
  searchFailureCause env error.
Proof.
  unfold semanticSearch, mbind, M_bind at 1.
  destruct (getEmbedding env query w) as [[qe | e] w0] eqn:He.
  - unfold M_bind.
    destruct (scoreDocuments splitText env db qe _ w0) as [[rs | e] w1] eqn:Hd.
    + discriminate.
    + intros H. injection H as <- _. apply (scoreDocuments_throw _ _ _ _ _ ) in Hd; [exact Hd |].
      intros d Hd'. apply in_map_iff in Hd' as (doc & <- & Hdoc).
      destruct (findUnique_stored db doc Hdoc) as (d' & Hfind & _). cbn [fst].
      rewrite Hfind. eexists; reflexivity.
  - intros H. injection H as <- _. exact (getEmbedding_throw _ _ _ _ He).
Qed.
End SearchFailure.

Section SearchMore.
Variable splitText : jsstring -> list jsstring.
Variable env : Env.
Variable db : Store.

(** X7: a [limit] parameter that is present but does not parse to a
    non-zero integer selects nothing: the search is carried out in full and
    the route answers 200 with an empty list of results. *)
Theorem search_GET_useless_limit (c : N) (q : jsstring) (d : N) (l : jsstring)
    (w : World) :
  parseInt (d :: l) = None \/ parseInt (d :: l) = Some 0 ->
  search_GET splitText env db (Some (c :: q)) (Some (d :: l)) w
  = match semanticSearch splitText env db (c :: q) 0 w with
    | (Ok _, w') => (Ok (respond (JObj [(js "results", JArr [])])), w')
    | (Throw error, w') =>
        (Ok (respondWith 500
               (errorBody (orElse (message error)
                             (js "An error occurred during semantic search")))), w')
    end.
Proof.
  intros Hlimit.
  assert (Hzero : default 0 (parseInt (d :: l)) = 0) by (destruct Hlimit as [-> | ->]; reflexivity).
  unfold search_GET, tryCatch, search_GET_body, mbind, M_bind. rewrite Hzero.
  pose proof (semanticSearch_run splitText env db (c :: q) 0 w) as Hrun.
  destruct (semanticSearch splitText env db (c :: q) 0 w) as [[rs | e] w']; [| reflexivity].
  destruct Hrun as (qe & scored & _ & _ & _ & _ & _ & ->).
  unfold sliceTo. cbn [Z.ltb Z.compare]. rewrite Z.min_l by lia. reflexivity.
Qed.

Lemma processEach_run (docs : list Document) (w : World) :
  (forall d, In d docs -> In d (documents db)) ->
  exists w',
    processEach splitText db docs w = (Ok tt, w')
    /\ trace w' = trace w ++ createEvents docs
    /\ (forall d, In d docs ->
          documentChunks w' !! doc_id d = Some (chunksFor splitText db (doc_id d)))
    /\ (forall id, ~ In id (List.map doc_id docs) ->
          documentChunks w' !! id = documentChunks w !! id).
Proof.
  revert w. induction docs as [| d docs IH]; intros w Hin.
  - exists w. cbn [processEach createEvents List.map]. rewrite app_nil_r.
    split; [reflexivity |]. split; [reflexivity |]. split; [intros ? [] | reflexivity].
  - cbn [processEach]. unfold mbind, M_bind. rewrite createDocumentChunks_run.
    destruct (findUnique_stored db d (Hin d (or_introl eq_refl))) as (d' & Hfind & _).
    rewrite Hfind.
    destruct (IH {| documentChunks := <[doc_id d := chunksFor splitText db (doc_id d)]>
                                        (documentChunks w);
                    trace := trace w ++ [EvCreateChunks (doc_id d)] |})
      as (w' & Hrun & Htrace & Hnew & Hold).
    { intros x Hx. apply Hin. right. exact Hx. }
    exists w'. split; [exact Hrun |]. split.
    { rewrite Htrace. cbn [trace createEvents List.map]. rewrite <- app_assoc. reflexivity. }
    split.
    + intros x [<- | Hx]; [| apply Hnew, Hx].
      destruct (in_dec (list_eq_dec N.eq_dec) (doc_id d) (List.map doc_id docs)) as [Hd | Hd].
      * apply in_map_iff in Hd as (y & Hy & Hyin). rewrite <- Hy. apply Hnew, Hyin.
      * rewrite (Hold _ Hd). cbn [documentChunks]. apply lookup_insert_eq.
    + intros id Hid. cbn [List.map In] in Hid.
      rewrite Hold by tauto. cbn [documentChunks]. apply lookup_insert_ne. tauto.
Qed.

(** X8: [processAllDocuments] chunks every stored document anew, replacing
    entries that exist, touches no other entry, makes no request to the
    embedding service and returns the number of documents; the search route
    reports that number with status 200. *)
Theorem processAllDocuments_refreshes (w : World) :
  exists w',
    processAllDocuments splitText db w = (Ok (length (documents db)), w')
    /\ trace w' = trace w ++ createEvents (documents db)
    /\ (forall d, In d (documents db) ->
          documentChunks w' !! doc_id d = Some (chunksFor splitText db (doc_id d)))
    /\ (forall id, ~ In id (List.map doc_id (documents db)) ->
          documentChunks w' !! id = documentChunks w !! id)
    /\ exists r,
         search_POST splitText db (Ok (Some (js "process_all"))) w = (Ok r, w')
         /\ status r = 200
         /\ body r = JObj [(js "success", JBool true);
                           (js "message",
                            JStr (js "Successfully processed "
                                    ++ ofNat (length (documents db))
                                    ++ js " documents for vector search"));
                           (js "processedCount", JInt (Z.of_nat (length (documents db))))].
Proof.
  destruct (processEach_run (documents db) w (fun d H => H)) as (w' & Hrun & Ht & Hnew & Hold).
  assert (Hall : processAllDocuments splitText db w = (Ok (length (documents db)), w')).
  { unfold processAllDocuments, document_findMany, mbind, M_bind. rewrite Hrun. reflexivity. }
  exists w'. split; [exact Hall |]. split; [exact Ht |]. split; [exact Hnew |].
  split; [exact Hold |].
  eexists. split.
  - unfold search_POST, tryCatch, search_POST_body, mbind, M_bind at 1, lift.
    rewrite bool_decide_eq_true_2 by reflexivity. unfold M_bind. rewrite Hall. reflexivity.
  - split; reflexivity.
Qed.


End SearchMore.

Lemma search_not_configured_witness :
  keyConfigured noKeyEnv = false
  /\ rb_query {| rb_query := Some (js "hello"); rb_limit := None; rb_performAnalysis := false |}
     = Some (js "hello")
  /\ search_GET splitLines noKeyEnv searchStore (Some (js "hello")) None coldWorld
     = (Ok (respondWith 500 (errorBody (js "OpenAI API key is not configured"))), coldWorld).
Proof.
  split; [reflexivity |]. split; [reflexivity |].
  exact (proj1 (proj2 (proj2
           (search_not_configured asciiLowerCase splitLines zeroString noEntities
              (fun _ => Ok JNull) noKeyEnv searchStore 104%N (js "ello") 5 None
              {| rb_query := Some (js "hello"); rb_limit := None; rb_performAnalysis := false |}
              coldWorld eq_refl eq_refl)))).
Defined.

Lemma search_GET_useless_limit_witness :
  parseInt (js "abc") = None
  /\ fst (search_GET splitLines searchEnv searchStore (Some (js "hello")) (Some (js "abc"))
            coldWorld)
     = Ok (respond (JObj [(js "results", JArr [])])).
Proof.
  split; [reflexivity |].
  change (js "hello") with (104%N :: js "ello"). change (js "abc") with (97%N :: js "bc").
  rewrite (search_GET_useless_limit splitLines searchEnv searchStore 104%N (js "ello")
             97%N (js "bc") coldWorld (or_introl eq_refl)).
  vm_compute. reflexivity.
Defined.


(** ** The paths of multiDocumentRAG *)

Section RagPaths.
Variable toLowerCase : jsstring -> jsstring.
Variable splitText : jsstring -> list jsstring.
Variable numberToString : number -> jsstring.
Variable extractEntities : jsstring -> list Entity.
Variable env : Env.
Variable db : Store.

(** X10: when the search itself fails, [multiDocumentRAG] asks no model; the
    error meets the outer handler, so a failure whose message contains "429"
    (a rate limit of the embedding service, say) is answered with the text
    about too much text, and any other error is thrown on. *)
Theorem multiDocumentRAG_search_failure (query : jsstring) (limit : Z) (w w1 : World)
    (error : Thrown) :
  semanticSearch splitText env db query limit w = (Throw error, w1) ->
  multiDocumentRAG toLowerCase splitText numberToString extractEntities env db query limit w
  = (outerCatch error, w1).
Proof.
  intros Hs. unfold multiDocumentRAG, tryCatch, multiDocumentRAG_body, mbind, M_bind at 1.
  rewrite Hs. unfold outerCatch. destruct (isError error && messageIncludes error (js "429"));
    reflexivity.
Qed.

(** X11: above 100000 estimated tokens the request goes to Gemini and never
    to the chat completion of OpenAI: without a Gemini client the key error
    is thrown; the answer of Gemini is returned as it is; a failure of Gemini
    is wrapped in "Error using Gemini API: ..." and then meets the outer
    handler. *)
Theorem multiDocumentRAG_gemini (query : jsstring) (limit : Z) (w w1 : World)
    (searchResults : list SearchResult) :
  let sys := systemMessage toLowerCase query in
  let user :=
    userMessageOf query (renderContext searchResults)
      ++ analysisText toLowerCase numberToString extractEntities query searchResults in
  semanticSearch splitText env db query limit w = (Ok searchResults, w1) ->
  100000 < totalTokens toLowerCase numberToString extractEntities query searchResults ->
  multiDocumentRAG toLowerCase splitText numberToString extractEntities env db query limit w
  = match gemini_generateContent env with
    | None => (Throw geminiKeyError, w1)
    | Some generateContent =>
        (match generateContent (length (trace w1)) sys user with
         | Ok text => Ok text
         | Throw geminiError => outerCatch (geminiFailure geminiError)
         end,
         logged w1 [EvGemini sys user])
    end.
Proof.
  intros sys user Hs Hbig.
  unfold multiDocumentRAG, tryCatch, multiDocumentRAG_body, mbind, M_bind at 1.
  rewrite Hs. apply Z.ltb_lt in Hbig. rewrite Hbig.
  destruct (gemini_generateContent env) as [generateContent |]; [| reflexivity].
  unfold tryCatch, mbind, M_bind, now, emit, lift, throw. cbn [trace documentChunks].
  fold sys. fold user. unfold logged.
  destruct (generateContent (length (trace w1)) sys user) as [text | geminiError];
    [reflexivity |].
  unfold outerCatch, geminiFailure.
  destruct (isError _ && messageIncludes _ (js "429")); reflexivity.
Qed.
End RagPaths.

Lemma multiDocumentRAG_search_failure_witness :
  semanticSearch splitLines embedLimitedEnv searchStore (js "hello") 2 coldWorld
  = (Throw (Error (js "429 Too Many Requests")), logged coldWorld [EvEmbed (js "hello")])
  /\ multiDocumentRAG asciiLowerCase splitLines zeroString noEntities embedLimitedEnv
       searchStore (js "hello") 2 coldWorld
     = (Ok rateLimitText, logged coldWorld [EvEmbed (js "hello")]).
Proof.
  assert (Hs : semanticSearch splitLines embedLimitedEnv searchStore (js "hello") 2 coldWorld
               = (Throw (Error (js "429 Too Many Requests")),
                  logged coldWorld [EvEmbed (js "hello")])) by reflexivity.
  split; [exact Hs |].
  rewrite (multiDocumentRAG_search_failure asciiLowerCase splitLines zeroString noEntities
             embedLimitedEnv searchStore _ _ _ _ _ Hs).
  reflexivity.
Defined.

Lemma multiDocumentRAG_first_try_witness :
  exists w',
    multiDocumentRAG asciiLowerCase splitLines zeroString noEntities searchEnv searchStore
      (js "hello") 2 coldWorld
    = (Ok (js "answer"), w').
Proof.
  destruct (semanticSearch splitLines searchEnv searchStore (js "hello") 2 coldWorld)
    as [[rs | e] w1] eqn:Hs; [| vm_compute in Hs; discriminate].
  eexists.
  rewrite (multiDocumentRAG_first_try asciiLowerCase splitLines zeroString noEntities
             searchEnv searchStore (js "hello") 2 coldWorld w1 rs (Some (js "answer")) Hs).
  - reflexivity.
  - pose proof Hs as Hs'. vm_compute in Hs'. injection Hs' as <- _. vm_compute. discriminate.
  - reflexivity.
Defined.

Lemma totalTokens_long_query (toLowerCase : jsstring -> jsstring)
    (numberToString : number -> jsstring) (extractEntities : jsstring -> list Entity)
    (query : jsstring) (searchResults : list SearchResult) :
  400000 <= len query ->
  100000 < totalTokens toLowerCase numberToString extractEntities query searchResults.
Proof.
  intros Hq. unfold totalTokens.
  pose proof (estimateTokenCount_ceiling (systemMessage toLowerCase query)) as Hs.
  pose proof (estimateTokenCount_ceiling
                (userMessageOf query (renderContext searchResults)
                   ++ analysisText toLowerCase numberToString extractEntities query
                        searchResults)) as Hu.
  assert (Hlen : len query + 7 <=
                 len (userMessageOf query (renderContext searchResults)
                        ++ analysisText toLowerCase numberToString extractEntities query
                             searchResults)).
  { unfold userMessageOf, len in *. rewrite !length_app. 
    change (length (js "Query: ")) with 7%nat. lia. }
  assert (0 <= len (systemMessage toLowerCase query)) by (unfold len; lia).
  lia.
Qed.

Lemma multiDocumentRAG_gemini_witness :
  exists w',
    multiDocumentRAG asciiLowerCase splitLines zeroString noEntities geminiEnv searchStore
      longQuery 2 coldWorld
    = (Ok (js "gemini answer"), w').
Proof.
  destruct (semanticSearch splitLines geminiEnv searchStore longQuery 2 coldWorld)
    as [[rs | e] w1] eqn:Hs.
  - eexists.
    rewrite (multiDocumentRAG_gemini asciiLowerCase splitLines zeroString noEntities
               geminiEnv searchStore longQuery 2 coldWorld w1 rs Hs).
    + reflexivity.
    + apply totalTokens_long_query. unfold longQuery, len. rewrite repeat_length. lia.
  - exfalso.
    destruct (semanticSearch_throw _ _ _ _ _ _ _ _ Hs) as [[Hk _] | (t & text & Ht)];
      discriminate.
Defined.

Lemma messageIncludes_Error (msg t : jsstring) :
  msg <> [] -> messageIncludes (Error msg) t = includes msg t.
Proof. destruct msg; [congruence | reflexivity]. Qed.

Section GeminiRateLimit.
Variable toLowerCase : jsstring -> jsstring.
Variable splitText : jsstring -> list jsstring.
Variable numberToString : number -> jsstring.
Variable extractEntities : jsstring -> list Entity.
Variable env : Env.
Variable db : Store.

(** X12: on the Gemini path an HTTP 429 of the Gemini API does not surface
    as an error: [generateContent] turns it into "Gemini API error (429):
    ...", [multiDocumentRAG] wraps that text, and its outer handler answers
    with the message about too much text. *)
Theorem multiDocumentRAG_gemini_rate_limit (key : option jsstring)
    (post : nat -> jsstring -> number -> Z -> PostOutcome)
    (query : jsstring) (limit : Z) (w w1 : World) (searchResults : list SearchResult)
    (data : jsstring) :
  let sys := systemMessage toLowerCase query in
  let user :=
    userMessageOf query (renderContext searchResults)
      ++ analysisText toLowerCase numberToString extractEntities query searchResults in
  gemini_generateContent env = geminiClientOf key post ->
  createGeminiClient key <> None ->
  semanticSearch splitText env db query limit w = (Ok searchResults, w1) ->
  100000 < totalTokens toLowerCase numberToString extractEntities query searchResults ->
  post (length (trace w1)) (sys ++ [NL; NL] ++ user) ragTemperature 2048
  = PostAxiosError (js "429") data ->
  multiDocumentRAG toLowerCase splitText numberToString extractEntities env db query limit w
  = (Ok rateLimitText, logged w1 [EvGemini sys user]).
Proof.
  intros sys user Henv Hclient Hs Hbig Hpost.
  unfold multiDocumentRAG, tryCatch, multiDocumentRAG_body, mbind, M_bind at 1.
  rewrite Hs. apply Z.ltb_lt in Hbig. rewrite Hbig, Henv. unfold geminiClientOf.
  destruct (createGeminiClient key) as [client |]; [| congruence].
  unfold tryCatch, mbind, M_bind, now, emit, lift, throw. cbn [trace documentChunks].
  fold sys. fold user. unfold generateContent. rewrite Hpost. unfold logged.
  cbn [message Error]. 
  assert (Hmsg : js "Gemini API error (" ++ js "429" ++ js "): " ++ data <> [])
    by discriminate.
  destruct (js "Gemini API error (" ++ js "429" ++ js "): " ++ data) as [| c msg] eqn:Hm;
    [congruence |].
  cbn [orElse]. rewrite <- Hm. cbn [isError Error andb].
  rewrite messageIncludes_Error by discriminate.
  replace (includes _ (js "429")) with true; [reflexivity |].
  symmetry. apply includes_spec.
  exists (js "Error using Gemini API: " ++ js "Gemini API error ("), (js "): " ++ data).
  rewrite <- !app_assoc. reflexivity.
Qed.
End GeminiRateLimit.

Lemma multiDocumentRAG_gemini_rate_limit_witness :
  exists w',
    multiDocumentRAG asciiLowerCase splitLines zeroString noEntities limitedGeminiEnv
      searchStore longQuery 2 coldWorld
    = (Ok rateLimitText, w').
Proof.
  destruct (semanticSearch splitLines limitedGeminiEnv searchStore longQuery 2 coldWorld)
    as [[rs | e] w1] eqn:Hs.
  - eexists.
    apply (multiDocumentRAG_gemini_rate_limit asciiLowerCase splitLines zeroString noEntities
             limitedGeminiEnv searchStore (Some (js "key")) limitedPost longQuery 2
             coldWorld w1 rs (js "{}")).
    + reflexivity.
    + discriminate.
    + exact Hs.
    + apply totalTokens_long_query. unfold longQuery, len. rewrite repeat_length. lia.
    + reflexivity.
  - exfalso.
    destruct (semanticSearch_throw _ _ _ _ _ _ _ _ Hs) as [[Hk _] | (t & text & Ht)];
      discriminate.
Defined.
Section RagRoute.
Variable toLowerCase : jsstring -> jsstring.
Variable splitText : jsstring -> list jsstring.
Variable numberToString : number -> jsstring.
Variable extractEntities : jsstring -> list Entity.
Variable env : Env.
Variable db : Store.

(** X13: the data analysis of the RAG route can neither make the request
    fail nor change what the model is asked and answers: whatever
    [extractAndAnalyzeData] does, the status, the [response] and [error]
    fields and the state left behind are those of a run whose analysis
    returns [null]; when the analysis throws, the whole answer is. *)
Theorem rag_POST_analysis_isolated
    (extractAndAnalyzeData : list Document -> result Thrown json)
    (body : result Thrown RagBody) (w : World) :
  let run := rag_POST toLowerCase splitText numberToString extractEntities
               extractAndAnalyzeData env db body w in
  let plain := rag_POST toLowerCase splitText numberToString extractEntities
                 (fun _ => Ok JNull) env db body w in
  snd run = snd plain
  /\ outcomeStatus (fst run) = outcomeStatus (fst plain)
  /\ outcomeField (js "response") (fst run) = outcomeField (js "response") (fst plain)
  /\ outcomeField (js "error") (fst run) = outcomeField (js "error") (fst plain)
  /\ ((exists e, extractAndAnalyzeData (document_findMany db) = Throw e) -> run = plain).
Proof.
  cbv zeta. unfold rag_POST, tryCatch, rag_POST_body, mbind, lift, M_bind.
  destruct body as [b | e]; [| repeat split; reflexivity].
  cbv beta iota.
  destruct (rb_query b) as [[| c q] |]; [repeat split; reflexivity | | repeat split; reflexivity].
  destruct (multiDocumentRAG toLowerCase splitText numberToString extractEntities env db
              (c :: q) _ w) as [[response | e] w1]; [| repeat split; reflexivity].
  cbn [fst snd mret M_ret]. repeat split.
  intros (e & He). rewrite He.
  destruct (rb_performAnalysis b || isCouncilTaxQuery toLowerCase (c :: q)); reflexivity.
Qed.
End RagRoute.

(** ** Truncation of unstructured text *)

Lemma indexOf_from_absent (s t : jsstring) (i : Z) :
  0 <= i -> indexOf_from s t i = -1 ->
  startsWith s t = false
  /\ match s with
     | [] => True
     | _ :: s' => indexOf_from s' t (i + 1) = -1
     end.
Proof.
  intros Hi. destruct s as [| c s]; cbn [indexOf_from];
    destruct (startsWith _ t); intros H; try lia; auto.
Qed.

Lemma split_go_absent (sep : jsstring) (fuel : nat) (s cur : jsstring) (i : Z) :
  (length s < fuel)%nat -> 0 <= i -> indexOf_from s sep i = -1 ->
  split_go fuel sep s cur = [rev cur ++ s].
Proof.
  revert s cur i. induction fuel as [| fuel IH]; intros s cur i Hfuel Hi Habs; [lia |].
  cbn [split_go]. destruct s as [| c s]; [rewrite app_nil_r; reflexivity |].
  destruct (indexOf_from_absent _ _ _ Hi Habs) as [-> Hrest].
  rewrite (IH s (c :: cur) (i + 1)); [| cbn [length] in Hfuel; lia | lia | exact Hrest].
  cbn [rev]. rewrite <- app_assoc. reflexivity.
Qed.

Lemma split_absent (s sep : jsstring) :
  sep <> [] -> includes s sep = false -> split s sep = [s].
Proof.
  intros Hsep Hinc. unfold includes, indexOf in Hinc.
  apply negb_false_iff, Z.eqb_eq in Hinc.
  unfold split. destruct sep as [| c sep]; [congruence |].
  rewrite (split_go_absent _ _ _ [] 0); [reflexivity | lia | lia | exact Hinc].
Qed.

(** X14: the budget is enforced on the document excerpts only: a text that
    is not empty and contains neither the separator "---" nor the marker
    "Content: " is returned unchanged, however small [maxTokens] is. *)
Theorem truncateContext_unstructured (context : jsstring) (maxTokens : Z) :
  context <> [] ->
  includes context (js "---") = false ->
  includes context (js "Content: ") = false ->
  truncateContext context maxTokens = context.
Proof.
  intros Hne Hsep Hmark. unfold truncateContext.
  destruct (estimateTokenCount context <=? maxTokens); [reflexivity |].
  rewrite (split_absent context (js "---")) by (try discriminate; exact Hsep).
  cbn [List.filter]. rewrite (proj2 (str_eqb_neq context [])) by exact Hne.
  cbn [negb List.map length].
  rewrite (split_absent context (js "Content: ")) by (try discriminate; exact Hmark).
  reflexivity.
Qed.

Lemma truncateContext_unstructured_witness :
  js "a long question" <> []
  /\ includes (js "a long question") (js "---") = false
  /\ includes (js "a long question") (js "Content: ") = false
  /\ estimateTokenCount (js "a long question") = 4
  /\ truncateContext (js "a long question") 1 = js "a long question".
Proof.
  assert (H1 : js "a long question" <> []) by discriminate.
  split; [exact H1 |]. split; [reflexivity |]. split; [reflexivity |].
  split; [reflexivity |].
  exact (truncateContext_unstructured (js "a long question") 1 H1 eq_refl eq_refl).
Defined.

(** ** Source and compiled module of the numeric extraction *)

Section ExtractAgree.
Variable toLowerCase : jsstring -> jsstring.
Context {M : Type}.

(** X15: the TypeScript source (windows centred on [indexOf] of the matched
    text) and the compiled module (windows centred on the index of the
    match) return the same entries whenever no matched number text also
    occurs earlier in its content. *)
Theorem extractNumericalData_agree (searchResults : list (@SearchHit M)) :
  Forall (fun result => firstOccurrences (sh_content result)) searchResults ->
  extractNumericalData toLowerCase searchResults
  = extractNumericalData_dist toLowerCase searchResults.
Proof.
  intros Hall. unfold extractNumericalData, extractNumericalData_dist.
  induction Hall as [| result rest Hfirst _ IH]; [reflexivity |].
  cbn [flat_map]. rewrite IH. f_equal. unfold matchGlobal.
  unfold firstOccurrences in Hfirst.
  destruct (matchAll (sh_content result) numberRegex) as [| x l] eqn:Hm; [reflexivity |].
  rewrite map_map. apply map_ext_in. intros y Hy. rewrite (Hfirst y Hy). reflexivity.
Qed.
End ExtractAgree.

Lemma extractNumericalData_agree_witness :
  Forall (fun result => firstOccurrences (sh_content result)) [buildResult testContent]
  /\ extractNumericalData asciiLowerCase [buildResult testContent]
     = extractNumericalData_dist asciiLowerCase [buildResult testContent].
Proof.
  assert (H : Forall (fun result => firstOccurrences (sh_content result))
                [buildResult testContent]).
  { constructor; [| constructor]. intros x Hx. vm_compute in Hx.
    destruct Hx as [<- | [<- | []]]; vm_compute; reflexivity. }
  split; [exact H |]. exact (extractNumericalData_agree asciiLowerCase _ H).
Defined.

(** Where a number text repeats, the two differ: the source centres both
    windows on the first occurrence. *)
Example extractNumericalData_repeated_number :
  let content := js "5% here" ++ repeat 97%N 300 ++ js "(5% there" in
  List.map context (extractNumericalData asciiLowerCase [buildResult content])
  <> List.map context (extractNumericalData_dist asciiLowerCase [buildResult content]).
Proof. vm_compute. intros H. discriminate H. Qed.

(** ** Newlines in a table *)

Lemma countNL_join (sep : jsstring) (cells : list jsstring) :
  countNL sep = 0%nat -> countNL (join sep cells) = countNLs cells.
Proof.
  intros Hsep. unfold countNLs.
  induction cells as [| x l IH]; [reflexivity |].
  destruct l as [| y l].
  - cbn [join List.map list_sum fold_right]. lia.
  - change (join sep (x :: y :: l)) with (x ++ sep ++ join sep (y :: l)).
    rewrite !countNL_app, IH, Hsep. cbn [List.map list_sum fold_right]. lia.
Qed.

Lemma countNL_rowLine (cells : list jsstring) :
  countNL (rowLine cells) = S (countNLs cells).
Proof.
  unfold rowLine. rewrite !countNL_app, countNL_join by reflexivity.
  change (countNL (js "| ")) with 0%nat. change (countNL (js " |")) with 0%nat.
  change (countNL [NL]) with 1%nat. lia.
Qed.

Section TableNewlines.
Context {cell : Type} (String_ : cell -> jsstring).

(** X16: a table for at least one row contains one newline for the header
    line, one for the alignment line, one per row, and one more for every
    newline inside a header or a rendered cell; the alignments never add
    one. *)
Theorem generateMarkdownTable_newlines (headers : list jsstring) (rows : list (list cell))
    (alignments : list jsstring) :
  rows <> [] ->
  countNL (generateMarkdownTable String_ headers rows alignments)
  = (2 + length rows + countNLs headers
     + list_sum (List.map (fun row => countNLs (List.map String_ row)) rows))%nat.
Proof.
  intros Hrows. unfold generateMarkdownTable. destruct rows as [| row0 rows]; [congruence |].
  rewrite !countNL_app, countNL_rowLine.
  assert (Halign : countNL (concat (List.map (alignmentCell alignments)
                                      (seq 0 (length headers)))) = 0%nat).
  { apply countNL_free, newlineFree_concat, Forall_forall. intros x Hx.
    apply in_map_iff in Hx as (i & <- & _). apply newlineFree_alignmentCell. }
  rewrite Halign. change (countNL (js "|")) with 0%nat. change (countNL [NL]) with 1%nat.
  assert (Hbody : forall rs : list (list cell),
             countNL (concat (List.map (fun row => rowLine (List.map String_ row)) rs))
             = (length rs
                + list_sum (List.map (fun row => countNLs (List.map String_ row)) rs))%nat).
  { induction rs as [| r rs IH]; [reflexivity |].
    cbn [List.map concat length list_sum fold_right]. rewrite countNL_app, countNL_rowLine, IH.
    unfold list_sum. lia. }
  rewrite Hbody. cbn [length]. lia.
Qed.
End TableNewlines.

Lemma generateMarkdownTable_newlines_witness :
  [[js "x"]] <> []
  /\ countNL (generateMarkdownTable id [js "a" ++ [NL] ++ js "b"] [[js "x"]] []) = 4%nat.
Proof.
  assert (H : [[js "x"]] <> []) by discriminate.
  split; [exact H |].
  rewrite (generateMarkdownTable_newlines id [js "a" ++ [NL] ++ js "b"] [[js "x"]] [] H).
  reflexivity.
Defined.

(** ** The documents route *)

(** X18: a document that was deleted is gone: after a successful [DELETE]
    the same request answers 404 and changes nothing. *)
Theorem documents_DELETE_twice (db db' : Store) (id : option jsstring) :
  documents_DELETE id db = (Ok deleteSuccess, db') ->
  documents_DELETE id db'
  = (Ok (respondWith 404 (errorBody (js "Document not found"))), db').
Proof.
  intros Hdel. destruct id as [[| c i] |]; try discriminate.
  destruct (document_findUnique db (c :: i)) as [d |] eqn:Hfind.
  - rewrite (documents_DELETE_found db c i d Hfind) in Hdel. injection Hdel as <-.
    apply documents_DELETE_missing. unfold document_findUnique, afterDelete.
    cbn [documents].
    destruct (List.find _ _) as [x |] eqn:Hx; [| reflexivity].
    apply find_some in Hx as [Hin Hid]. apply filter_In in Hin as [_ Hneg].
    rewrite Hid in Hneg. discriminate.
  - rewrite (documents_DELETE_missing db c i Hfind) in Hdel. discriminate.
Qed.

Lemma documents_DELETE_twice_witness :
  exists db',
    documents_DELETE (Some (js "A")) chatStore = (Ok deleteSuccess, db')
    /\ documents_DELETE (Some (js "A")) db'
       = (Ok (respondWith 404 (errorBody (js "Document not found"))), db').
Proof.
  destruct (documents_DELETE (Some (js "A")) chatStore) as [res db'] eqn:Hdel.
  assert (Hres : res = Ok deleteSuccess).
  { pose proof Hdel as H. vm_compute in H. injection H as <- _. reflexivity. }
  subst res. exists db'. split; [reflexivity |].
  exact (documents_DELETE_twice chatStore db' (Some (js "A")) Hdel).
Defined.

Section UploadFrame.
Variable toLowerCase : jsstring -> jsstring.
Variable up : UploadEnv.

(** X19: an upload either appends exactly one document to the store (status
    200: the title is the file name, the folder "Unclassified", the content
    not empty; no stored document, chat, message or chunk is changed) or
    leaves the store as it was and answers 400 or 500 with an [error]
    field. *)
Theorem documents_POST_frame (db : Store) :
  exists (r : Response) (db' : Store),
    documents_POST toLowerCase up db = (Ok r, db')
    /\ ((status r = 200
         /\ exists (file : File) (d : Document),
              formData_file up = Ok (Some file)
              /\ db' = {| documents := documents db ++ [d]; chats := chats db;
                          messages := messages db; chunks := chunks db |}
              /\ r = respond (JObj [(js "document", documentJson d)])
              /\ doc_id d = cuid up db
              /\ doc_title d = f_name file
              /\ doc_content d = contentOf toLowerCase up file
              /\ doc_content d <> []
              /\ doc_folder d = Some (js "Unclassified")
              /\ doc_isEmbedded d = false)
        \/ ((status r = 400 \/ status r = 500)
            /\ isErrorResponse r = true /\ db' = db)).
Proof.
  unfold documents_POST, dbCatch, documents_POST_body, mbind, DbM_bind at 1.
  destruct (formData_file up) as [[file |] | e] eqn:Hfile.
  - destruct (contentOf toLowerCase up file) as [| c content] eqn:Hcontent.
    + eexists _, db. split; [reflexivity |]. right. repeat split. left. reflexivity.
    + unfold DbM_bind at 1.
      destruct (convertToMarkdown up file (c :: content)) as [markdown | e].
      * unfold DbM_bind at 1.
        destruct (extractMetadata up file (c :: content)) as [metadata | e].
        -- unfold DbM_bind, dbRead, dbWrite, mret, DbM_ret.
           eexists _, _. split; [reflexivity |]. left. split; [reflexivity |].
           eexists file, _. split; [reflexivity |]. split; [reflexivity |].
           split; [reflexivity |]. cbn [doc_id doc_title doc_content doc_folder doc_isEmbedded].
           rewrite Hcontent. repeat split. discriminate.
        -- eexists _, db. split; [reflexivity |]. right. repeat split. right. reflexivity.
      * eexists _, db. split; [reflexivity |]. right. repeat split. right. reflexivity.
    - eexists _, db. split; [reflexivity |]. right. repeat split. left. reflexivity.
    - eexists _, db. split; [reflexivity |]. right. repeat split. right. reflexivity.
Qed.
End UploadFrame.

Lemma find_app_last {A} (f : A -> bool) (l : list A) (d : A) :
  (forall x, In x l -> f x = false) -> f d = true -> List.find f (l ++ [d]) = Some d.
Proof.
  intros Hl Hd. induction l as [| x l IH]; cbn [app List.find].
  - rewrite Hd. reflexivity.
  - rewrite (Hl x (or_introl eq_refl)). apply IH. intros y Hy. apply Hl. right. exact Hy.
Qed.

Section UploadDelete.
Variable toLowerCase : jsstring -> jsstring.
Variable up : UploadEnv.

Lemma documents_POST_created (db db' : Store) (r : Response) :
  documents_POST toLowerCase up db = (Ok r, db') ->
  status r = 200 ->
  exists d,
    db' = {| documents := documents db ++ [d]; chats := chats db;
             messages := messages db; chunks := chunks db |}
    /\ doc_id d = cuid up db.
Proof.
  unfold documents_POST, dbCatch, documents_POST_body, mbind, DbM_bind at 1.
  destruct (formData_file up) as [[file |] | e];
    [| intros H; injection H as <- _; cbn; lia | intros H; injection H as <- _; cbn; lia].
  destruct (contentOf toLowerCase up file) as [| c content];
    [intros H; injection H as <- _; cbn; lia |].
  unfold DbM_bind at 1.
  destruct (convertToMarkdown up file (c :: content)) as [markdown | e];
    [| intros H; injection H as <- _; cbn; lia].
  unfold DbM_bind at 1.
  destruct (extractMetadata up file (c :: content)) as [metadata | e];
    [| intros H; injection H as <- _; cbn; lia].
  unfold DbM_bind, dbRead, dbWrite, mret, DbM_ret.
  intros H _. injection H as _ <-. eexists. split; reflexivity.
Qed.

(** X20: deleting the document that an upload has just created restores the
    store, when the id generated for it is new. *)
Theorem documents_POST_then_DELETE (db db' : Store) (r : Response) :
  freshId db (cuid up db) ->
  documents_POST toLowerCase up db = (Ok r, db') ->
  status r = 200 ->
  documents_DELETE (Some (cuid up db)) db' = (Ok deleteSuccess, db).
Proof.
  intros (Hne & Hdocs & Hchats & Hchunks) Hpost Hok.
  destruct (documents_POST_created db db' r Hpost Hok) as (d & -> & Hid).
  destruct (cuid up db) as [| c i] eqn:Hcuid; [congruence |].
  assert (Hfind : document_findUnique
                    {| documents := documents db ++ [d]; chats := chats db;
                       messages := messages db; chunks := chunks db |} (c :: i) = Some d).
  { unfold document_findUnique. cbn [documents]. apply find_app_last.
    - intros x Hx. apply str_eqb_neq, Hdocs, Hx.
    - apply str_eqb_eq, Hid. }
  rewrite (documents_DELETE_found _ c i d Hfind). f_equal.
  unfold afterDelete, chatsOf. cbn [documents chats messages chunks].
  destruct db as [ds cs ms ks]. cbn [documents chats messages chunks] in *. f_equal.
  - rewrite filter_app. cbn [List.filter]. rewrite Hid, (proj2 (str_eqb_eq _ _) eq_refl).
    cbn [negb]. rewrite app_nil_r. apply filter_all. intros x Hx.
    apply negb_true_iff, str_eqb_neq, Hdocs, Hx.
  - apply filter_all. intros x Hx. apply negb_true_iff, str_eqb_neq, Hchats, Hx.
  - apply filter_all. intros x Hx. apply negb_true_iff.
    destruct (existsb _ _) eqn:He; [| reflexivity].
    apply existsb_exists in He as (ch & Hch & _). apply filter_In in Hch as [Hin Heq].
    apply str_eqb_eq in Heq. exfalso. exact (Hchats ch Hin Heq).
  - apply filter_all. intros x Hx. apply negb_true_iff, str_eqb_neq, Hchunks, Hx.
Qed.
End UploadDelete.

Lemma documents_POST_then_DELETE_witness :
  exists (r : Response) (db' : Store),
    documents_POST asciiLowerCase textUpload chatStore = (Ok r, db')
    /\ status r = 200
    /\ length (documents db') = 3%nat
    /\ documents_DELETE (Some (js "doc2")) db' = (Ok deleteSuccess, chatStore).
Proof.
  destruct (documents_POST asciiLowerCase textUpload chatStore) as [res db'] eqn:Hpost.
  pose proof Hpost as H. vm_compute in H. injection H as Hres Hdb.
  destruct res as [r | e]; [| discriminate].
  exists r, db'. split; [reflexivity |].
  assert (Hok : status r = 200) by (injection Hres as <-; reflexivity).
  split; [exact Hok |]. split; [rewrite <- Hdb; reflexivity |].
  refine (documents_POST_then_DELETE asciiLowerCase textUpload chatStore db' r _ Hpost Hok).
  repeat split; try discriminate.
  - intros d [<- | [<- | []]]; vm_compute; discriminate.
  - intros c [<- | [<- | [<- | []]]]; vm_compute; discriminate.
  - intros k [<- | []]; vm_compute; discriminate.
Defined.

(** X21: of the columns of the model (the time stamps [createdAt] and
    [updatedAt] are outside it) [PATCH] changes the folder of the target
    document and nothing else: the documents keep their number, order, ids,
    titles, contents, markdown, metadata and [isEmbedded], and chats, messages
    and chunks are untouched; an id with no document gives 404 and an empty or
    missing id or folder gives 400, both without any change. *)
Theorem documents_PATCH_frame (db : Store) (id folder : option jsstring) :
  match id, folder with
  | Some (c :: i), Some (f :: fs) =>
      match document_findUnique db (c :: i) with
      | Some _ =>
          exists db',
            documents_PATCH id folder db
            = (Ok (respond (JObj [(js "message",
                                   JStr (js "Document folder updated successfully"))])), db')
            /\ chats db' = chats db /\ messages db' = messages db /\ chunks db' = chunks db
            /\ List.map doc_id (documents db') = List.map doc_id (documents db)
            /\ List.map doc_title (documents db') = List.map doc_title (documents db)
            /\ List.map doc_content (documents db') = List.map doc_content (documents db)
            /\ List.map doc_markdown (documents db') = List.map doc_markdown (documents db)
            /\ List.map doc_metadata (documents db') = List.map doc_metadata (documents db)
            /\ List.map doc_isEmbedded (documents db') = List.map doc_isEmbedded (documents db)
            /\ List.map doc_folder (documents db')
               = List.map (fun d => if str_eqb (doc_id d) (c :: i) then Some (f :: fs)
                                    else doc_folder d) (documents db)
      | None =>
          documents_PATCH id folder db
          = (Ok (respondWith 404 (errorBody (js "Document not found"))), db)
      end
  | _, _ =>
      documents_PATCH id folder db
      = (Ok (respondWith 400 (errorBody (js "Document ID and folder are required"))), db)
  end.
Proof.
  destruct id as [[| c i] |]; try reflexivity.
  destruct folder as [[| f fs] |]; try reflexivity.
  unfold documents_PATCH, documents_PATCH_body, dbCatch, mbind, DbM_bind, dbRead, dbTry,
    mret, DbM_ret, document_update_folder.
  destruct (document_findUnique db (c :: i)) as [d |] eqn:Hfind; [| reflexivity].
  rewrite Hfind. eexists. split; [reflexivity |]. cbn [documents chats messages chunks].
  repeat split; rewrite map_map; apply map_ext; intros x; unfold setFolder;
    destruct (str_eqb (doc_id x) (c :: i)); reflexivity.
Qed.

(** ** Political control and sample data *)

Lemma filter_disjoint_length {A} (p q : A -> bool) (l : list A) :
  (forall x, p x = true -> q x = false) ->
  (length (List.filter p l) + length (List.filter q l) <= length l)%nat.
Proof.
  intros Hpq. induction l as [| x l IH]; cbn [List.filter length]; [lia |].
  destruct (p x) eqn:Hp.
  - rewrite (Hpq x Hp). cbn [length]. lia.
  - destruct (q x); cbn [length]; lia.
Qed.

Lemma summarize_counts (rows : list CouncilTaxData) (dbg : option Debug) :
  (labourCount (summarize rows dbg) + conservativeCount (summarize rows dbg)
   <= length (councilData (summarize rows dbg)))%nat.
Proof.
  cbn [summarize labourCount conservativeCount councilData]. apply filter_disjoint_length.
  intros x. unfold isLabour, isConservative. rewrite str_eqb_eq, str_eqb_neq.
  intros ->. discriminate.
Qed.

Section ControlValues.
Variable toLowerCase : jsstring -> jsstring.

Lemma mapSet_values (P : jsstring -> Prop) (mp : jsmap) (k v : jsstring) :
  P v -> (forall k' v', In (k', v') mp -> P v') ->
  forall k' v', In (k', v') (mapSet mp k v) -> P v'.
Proof.
  intros Hv. induction mp as [| [k0 v0] mp IH]; intros Hmp k' v'; cbn [mapSet].
  - intros [H | []]. injection H as _ <-. exact Hv.
  - destruct (str_eqb k0 k).
    + intros [H | H]; [injection H as _ <-; exact Hv | apply (Hmp k' v'); right; exact H].
    + intros [H | H]; [apply (Hmp k' v'); left; exact H |].
      apply (IH (fun a b Hab => Hmp a b (or_intror Hab)) k' v' H).
Qed.

Lemma addControlLine_values (mp : jsmap) (rawLine : jsstring) :
  (forall k v, In (k, v) mp -> knownControl toLowerCase v) ->
  forall k v, In (k, v) (addControlLine toLowerCase mp rawLine) -> knownControl toLowerCase v.
Proof.
  intros Hmp. unfold addControlLine.
  destruct (trim rawLine) as [| c line]; [exact Hmp |].
  destruct (List.map trim (split (c :: line) (js ","))) as [| authority [| control rest]];
    [exact Hmp | exact Hmp |].
  destruct (str_eqb (toLowerCase control) (js "labour")) eqn:Hl.
  { cbn [orb]. apply mapSet_values; [| exact Hmp].
    apply str_eqb_eq in Hl. rewrite Hl. cbn. right. left. exact Hl. }
  destruct (str_eqb (toLowerCase control) (js "conservative")) eqn:Hc.
  { cbn [orb]. apply mapSet_values; [| exact Hmp].
    apply str_eqb_eq in Hc. rewrite Hc. cbn. right. right. exact Hc. }
  destruct (str_eqb (toLowerCase control) (js "tory")) eqn:Ht; cbn [orb]; [| exact Hmp].
  apply mapSet_values; [left; reflexivity | exact Hmp].
Qed.

Lemma politicalControlMapOf_values (content : jsstring) :
  forall k v, In (k, v) (politicalControlMapOf toLowerCase content) ->
              knownControl toLowerCase v.
Proof.
  unfold politicalControlMapOf.
  generalize (skipn (if includes (toLowerCase (hd [] (split content [NL]))) (js "authority")
                     then 1%nat else 0%nat) (split content [NL])).
  intros lines.
  assert (H0 : forall k v, In (k, v) (@nil (jsstring * jsstring)) -> knownControl toLowerCase v)
    by (intros ? ? []).
  revert H0. generalize (@nil (jsstring * jsstring)).
  induction lines as [| line lines IH]; intros mp Hmp; cbn [fold_left]; [exact Hmp |].
  apply IH, addControlLine_values, Hmp.
Qed.

Lemma mapGet_In (mp : jsmap) (k v : jsstring) : mapGet mp k = Some v -> exists k', In (k', v) mp.
Proof.
  induction mp as [| [k0 v0] mp IH]; cbn [mapGet]; [discriminate |].
  destruct (str_eqb k0 k).
  - intros H. injection H as <-. exists k0. left. reflexivity.
  - intros H. destruct (IH H) as (k' & Hk). exists k'. right. exact Hk.
Qed.

Lemma partialMatch_In (mp : jsmap) (name : jsstring) :
  partialMatch mp name = js "Unknown" \/ exists k, In (k, partialMatch mp name) mp.
Proof.
  induction mp as [| [k0 v0] mp IH]; cbn [partialMatch]; [left; reflexivity |].
  destruct (includes name k0 || includes k0 name).
  - right. exists k0. left. reflexivity.
  - destruct IH as [H | (k & H)]; [left; exact H | right; exists k; right; exact H].
Qed.

Lemma findPoliticalControl_values (mp : jsmap) (authority : jsstring) :
  (forall k v, In (k, v) mp -> knownControl toLowerCase v) ->
  findPoliticalControl toLowerCase mp authority = js "Unknown"
  \/ knownControl toLowerCase (findPoliticalControl toLowerCase mp authority).
Proof.
  intros Hmp. unfold findPoliticalControl, mapHas.
  destruct (mapGet mp (toLowerCase authority)) as [v |] eqn:Hget.
  - right. cbn [default from_option]. destruct (mapGet_In _ _ _ Hget) as (k & Hk).
    exact (Hmp k v Hk).
  - destruct (partialMatch_In mp (toLowerCase authority)) as [H | (k & H)];
      [left; exact H | right; exact (Hmp _ _ H)].
Qed.

(** X22: a council is only ever attributed to Labour or to the Conservatives:
    the political control of every extracted row is "Unknown",
    "Conservative" (also for "tory") or the control as the control document
    writes it, which in lower case is "labour" or "conservative"; and the
    two counts never exceed the number of rows. *)
Theorem analyzeCouncilTaxData_controls (db : Store) (documentIds : option (list jsstring))
    (debugMode : bool) :
  let a := analyzeCouncilTaxData toLowerCase db documentIds debugMode in
  (forall c, In c (councilData a) ->
             politicalControl c = js "Unknown"
             \/ knownControl toLowerCase (politicalControl c))
  /\ (labourCount a + conservativeCount a <= length (councilData a))%nat.
Proof.
  cbv zeta. split; [| apply summarize_counts].
  unfold analyzeCouncilTaxData. cbn [summarize councilData]. unfold extractCouncilTaxData.
  set (mp := match List.find (isPoliticalControlDoc toLowerCase) _ with
             | Some doc => politicalControlMapOf toLowerCase (doc_content doc)
             | None => []
             end).
  assert (Hmp : forall k v, In (k, v) mp -> knownControl toLowerCase v).
  { subst mp. destruct (List.find _ _); [apply politicalControlMapOf_values | intros ? ? []]. }
  destruct (List.find (isCouncilTaxDoc toLowerCase) _) as [doc |]; [| intros ? []].
  intros c Hc. apply in_flat_map in Hc as (line & _ & Hc).
  unfold extractLine in Hc. destruct (trim line) as [| ch l]; [destruct Hc |].
  destruct (exec (ch :: l) percentageRegex 0) as [pm |]; [| destruct Hc].
  destruct Hc as [<- | []]. cbn [politicalControl].
  apply findPoliticalControl_values, Hmp.
Qed.
End ControlValues.

(** X23: with the fallback enabled the result is never without rows: when
    the documents yield at least one row it is the result of
    [analyzeCouncilTaxData]; when they yield none it is computed from the six
    sample councils, whatever the documents say: three Labour and three
    Conservative councils, Labour higher.  With the fallback disabled the
    result is always that of [analyzeCouncilTaxData]. *)
Theorem analyzeCouncilTaxDataWithFallback_rows (toLowerCase : jsstring -> jsstring)
    (db : Store) (documentIds : option (list jsstring)) :
  let real := analyzeCouncilTaxData toLowerCase db documentIds true in
  let withSample := analyzeCouncilTaxDataWithFallback toLowerCase db documentIds true in
  councilData withSample <> []
  /\ (councilData real <> [] -> withSample = real)
  /\ (councilData real = [] ->
      councilData withSample = loadSampleCouncilTaxData
      /\ labourCount withSample = 3%nat /\ conservativeCount withSample = 3%nat
      /\ (conservativeAverage withSample <? labourAverage withSample)%float = true
      /\ higherParty withSample = js "Labour")
  /\ analyzeCouncilTaxDataWithFallback toLowerCase db documentIds false = real.
Proof.
  cbv zeta. unfold analyzeCouncilTaxDataWithFallback.
  destruct (councilData (analyzeCouncilTaxData toLowerCase db documentIds true))
    as [| row rows] eqn:Hrows.
  - split; [cbn [summarize councilData]; discriminate |].
    split; [congruence |]. split; [| reflexivity]. intros _.
    cbn [summarize councilData labourCount conservativeCount higherParty
         labourAverage conservativeAverage].
    repeat split; vm_compute; reflexivity.
  - split; [rewrite Hrows; discriminate |]. split; [reflexivity |].
    split; [discriminate | reflexivity].
Qed.

(** ** Comparison of two groups *)

(** X24: the comparison names the first group as higher exactly when its
    average strictly exceeds the other; on a tie (two empty groups included)
    it names the second group, so exchanging the groups exchanges the answer;
    and a difference is significant only with three values in each group. *)
Theorem compareGroups_higher (name1 name2 : jsstring) (data1 data2 : list number) :
  let r := compareGroups name1 data1 name2 data2 in
  higherGroup r
  = (if (gs_average (group2 r) <? gs_average (group1 r))%float then name1 else name2)
  /\ ((gs_average (group1 r) =? gs_average (group2 r))%float = true ->
      higherGroup r = name2
      /\ higherGroup (compareGroups name2 data2 name1 data1) = name1)
  /\ (statisticallySignificant r = true ->
      (3 <= length data1)%nat /\ (3 <= length data2)%nat)
  /\ (data1 = [] -> data2 = [] ->
      cg_difference r = 0%float /\ percentageDifference r = 0%float
      /\ higherGroup r = name2 /\ statisticallySignificant r = false).
Proof.
  cbv zeta. cbn [compareGroups higherGroup group1 group2 gs_average cg_difference
                 percentageDifference statisticallySignificant].
  rewrite !sub_pos_iff_gt. split; [reflexivity |]. split; [| split].
  - intros Heq. destruct (eqb_true_fz _ _ Heq) as (N1 & N2 & Hfz).
    rewrite (ltb_fz _ _ N2 N1), (ltb_fz _ _ N1 N2), Hfz, Z.ltb_irrefl. split; reflexivity.
  - rewrite !andb_true_iff, !Nat.leb_le. tauto.
  - intros -> ->. repeat split; reflexivity.
Qed.
